(** * tapdance: the custodian (custodian.c, allocator.c) and the isolated
      test runner (lol.c), embedded in Rocq.

    The custodian is pointer code: entries are heap blocks linked through a
    tagged [prev] word, a child custodian lives inline in its entry and is
    handed to the caller by address.  The embedding therefore keeps a flat
    memory of 64-bit words indexed by byte address, and the C functions are
    written in a small state monad over it. *)

From Stdlib Require Import ZArith List Lia Bool String Ascii Permutation.
From Stdlib Require Import DecimalString.
Import ListNotations.
Open Scope Z_scope.

(** ** Machine state *)

(** Calls that leave custodian.c: through the allocator's function pointers
    and through a deferred [CleanupFn].  They are recorded, in order; what
    the callee does on its side is its own business, and it is taken not to
    write the words custodian.c keeps (nodes, headers, resource pairs). *)
Inductive Event : Type :=
| EvAlloc (a size ret : Z)   (* a->alloc(a->ctx, size) returned ret *)
| EvFree (a ptr : Z)         (* a->free(a->ctx, ptr) *)
| EvCleanup (f arg : Z).     (* f(arg) through a CleanupFn f *)

Record State : Type := mkState {
  mem : Z -> Z;          (* 8-byte words, by byte address *)
  oracle : list Z;       (* what the next a->alloc calls return; 0 is NULL *)
  trace : list Event;    (* external calls made so far, oldest first *)
  touched : list Z       (* addresses custodian.c has read or written, oldest first *)
}.

Inductive Result (A : Type) : Type :=
| Done (x : A) (s : State)   (* the function returned x *)
| Aborted (s : State)        (* abort() was reached: the process is gone *)
| OutOfFuel.

Arguments Done {A} x s.
Arguments Aborted {A} s.
Arguments OutOfFuel {A}.

Definition M (A : Type) : Type := State -> Result A.

Definition ret {A} (x : A) : M A := fun s => Done x s.

Definition bind {A B} (m : M A) (k : A -> M B) : M B :=
  fun s => match m s with
           | Done x s' => k x s'
           | Aborted s' => Aborted s'
           | OutOfFuel => OutOfFuel
           end.

Notation "x <- m ;; k" := (bind m (fun x => k))
  (at level 61, m at next level, right associativity).
Notation "m ;;; k" := (bind m (fun _ => k))
  (at level 61, right associativity).

Definition out_of_fuel {A} : M A := fun _ => OutOfFuel.

(** libc [abort()]: does not return. *)
Definition abort {A} : M A := fun s => Aborted s.

(** Memory is read and written a word at a time, at the address of the
    word.  Every address custodian.c uses holds a pointer, so it is a
    multiple of 8 ([word_aligned] below), and two such words share no byte:
    on them [upd] is the 8-byte store of the machine ([upd_is_store_bytes]).
    Words at addresses less than 8 apart are separate cells here, which no
    real memory has; the theorems about stores therefore ask for
    [word_aligned] addresses. *)
Definition upd (m : Z -> Z) (p v : Z) : Z -> Z :=
  fun q => if q =? p then v else m q.

Definition load (p : Z) : M Z :=
  fun s => Done (mem s p)
             (mkState (mem s) (oracle s) (trace s) (touched s ++ [p])).

Definition store (p v : Z) : M unit :=
  fun s => Done tt
             (mkState (upd (mem s) p v) (oracle s) (trace s) (touched s ++ [p])).

Definition emit (e : Event) : M unit :=
  fun s => Done tt (mkState (mem s) (oracle s) (trace s ++ [e]) (touched s)).

(** ** allocator.c *)

(** [allocator_alloc(a, size)] is [a->alloc(a->ctx, size)], a call through a
    function pointer of the injected capability.  Its result is taken from
    the oracle (an exhausted oracle answers NULL), so that every behaviour
    of an allocator along one run is covered. *)
Definition allocator_alloc (a size : Z) : M Z :=
  fun s => let r := hd 0 (oracle s) in
           Done r (mkState (mem s) (tl (oracle s))
                           (trace s ++ [EvAlloc a size r]) (touched s)).

(** [allocator_free(a, ptr)] is [a->free(a->ctx, ptr)]. *)
Definition allocator_free (a ptr : Z) : M unit := emit (EvFree a ptr).

(** ** custodian.c *)

Definition TAG_MASK : Z := 3.
Definition PTR_MASK : Z := 0xFFFFFFFFFFFFFFFC.   (* ~0x3ULL *)
Definition TAG_ALLOCATION : Z := 0.
Definition TAG_RESOURCE : Z := 1.
Definition TAG_CUSTODIAN : Z := 2.

(** Layout on an LP64 target: every field is one 8-byte word. *)
Definition sizeof_CustodianEntry : Z := 8.       (* { prev } *)
Definition sizeof_Custodian : Z := 24.           (* { stack; a; parent } *)
Definition sizeof_CustodianResource : Z := 16.   (* { ptr; cleanup } *)

Definition f_stack (c : Z) : Z := c.
Definition f_a (c : Z) : Z := c + 8.
Definition f_parent (c : Z) : Z := c + 16.
Definition f_prev (entry : Z) : Z := entry.
Definition f_ptr (res : Z) : Z := res.
Definition f_cleanup (res : Z) : Z := res + 8.

Definition ptr_tag (ptr tag : Z) : Z := Z.lor ptr (Z.land tag TAG_MASK).
Definition ptr_untag (tagged_ptr : Z) : Z := Z.land tagged_ptr PTR_MASK.
Definition ptr_tag_get (tagged_ptr : Z) : Z := Z.land tagged_ptr TAG_MASK.

Definition custodian_init (c parent a : Z) : M unit :=
  store (f_stack c) 0 ;;;
  store (f_a c) a ;;;
  store (f_parent c) parent.

(** [custodian_shutdown] and its [while (entry)] loop.  One unit of fuel is
    spent per call and per loop test.  The [switch] has no default: an entry
    with tag 3 is stepped over. *)
Fixpoint custodian_shutdown (fuel : nat) (c : Z) : M unit :=
  match fuel with
  | O => out_of_fuel
  | S fuel' =>
      entry <- load (f_stack c) ;;
      a <- load (f_a c) ;;
      shutdown_loop fuel' a entry ;;;
      store (f_stack c) 0
  end
with shutdown_loop (fuel : nat) (a entry : Z) : M unit :=
  match fuel with
  | O => out_of_fuel
  | S fuel' =>
      if entry =? 0 then ret tt
      else
        w <- load (f_prev entry) ;;
        let prev := ptr_untag w in
        w' <- load (f_prev entry) ;;
        let tag := ptr_tag_get w' in
        let data := entry + sizeof_CustodianEntry in
        (if tag =? TAG_ALLOCATION then
           allocator_free a entry
         else if tag =? TAG_RESOURCE then
           cleanup <- load (f_cleanup data) ;;
           (if cleanup =? 0 then ret tt
            else
              f <- load (f_cleanup data) ;;
              ptr <- load (f_ptr data) ;;
              emit (EvCleanup f ptr)) ;;;
           allocator_free a entry
         else if tag =? TAG_CUSTODIAN then
           custodian_shutdown fuel' data ;;;
           allocator_free a entry
         else ret tt) ;;;
        shutdown_loop fuel' a prev
  end.

(** The [while (cur->parent != NULL)] loop of [custodian_abort]. *)
Fixpoint abort_walk (fuel : nat) (cur : Z) : M Z :=
  match fuel with
  | O => out_of_fuel
  | S fuel' =>
      p <- load (f_parent cur) ;;
      if p =? 0 then ret cur else abort_walk fuel' p
  end.

Definition custodian_abort (fuel : nat) (c : Z) : M unit :=
  cur <- abort_walk fuel c ;;
  custodian_shutdown fuel cur ;;;
  abort.

Definition custodian_alloc (fuel : nat) (c size : Z) : M Z :=
  a <- load (f_a c) ;;
  entry <- allocator_alloc a size ;;
  if entry =? 0 then
    custodian_abort fuel c ;;;
    ret 0
  else
    stack <- load (f_stack c) ;;
    store (f_prev entry) (ptr_tag stack TAG_ALLOCATION) ;;;
    store (f_stack c) entry ;;;
    ret (entry + sizeof_CustodianEntry).

Definition custodian_child_create (fuel : nat) (parent : Z) : M Z :=
  a <- load (f_a parent) ;;
  entry <- allocator_alloc a (sizeof_CustodianEntry + sizeof_Custodian) ;;
  if entry =? 0 then
    custodian_abort fuel parent ;;;
    ret 0
  else
    let child := entry + sizeof_CustodianEntry in
    a' <- load (f_a parent) ;;
    custodian_init child parent a' ;;;
    stack <- load (f_stack parent) ;;
    store (f_prev entry) (ptr_tag stack TAG_CUSTODIAN) ;;;
    store (f_stack parent) entry ;;;
    ret child.

Definition custodian_defer (fuel : nat) (c ptr f : Z) : M unit :=
  a <- load (f_a c) ;;
  entry <- allocator_alloc a (sizeof_CustodianEntry + sizeof_CustodianResource) ;;
  if entry =? 0 then
    custodian_abort fuel c ;;;
    ret tt
  else
    let res := entry + sizeof_CustodianEntry in
    store (f_ptr res) ptr ;;;
    store (f_cleanup res) f ;;;
    stack <- load (f_stack c) ;;
    store (f_prev entry) (ptr_tag stack TAG_RESOURCE) ;;;
    store (f_stack c) entry.

(** ** The shape a custodian's stack has in memory *)

(** A stack, top entry first.  [e] is the address of the entry's block (of
    its [CustodianEntry] header); the payload starts at [e + 8]. *)
Inductive Stack : Type :=
| Empty
| Allocation (e : Z) (below : Stack)
| Resource (e ptr cleanup : Z) (below : Stack)
| ChildScope (e : Z) (child below : Stack).

Definition top (s : Stack) : Z :=
  match s with
  | Empty => 0
  | Allocation e _ | Resource e _ _ _ | ChildScope e _ _ => e
  end.

(** The words custodian.c owns for a stack: headers, resource pairs and
    inline child nodes. *)
Fixpoint footprint (s : Stack) : list Z :=
  match s with
  | Empty => []
  | Allocation e b => e :: footprint b
  | Resource e _ _ b => e :: e + 8 :: e + 16 :: footprint b
  | ChildScope e ch b =>
      e :: e + 8 :: e + 16 :: e + 24 :: footprint ch ++ footprint b
  end.

(** A pointer whose two low bits are free for the tag. *)
Definition aligned (p : Z) : Prop := 0 <= p < 2^64 /\ p mod 4 = 0.

(** The alignment of [Custodian], [CustodianEntry] and [CustodianResource]
    on LP64: each starts with a pointer.  The address of a custodian and
    the blocks an allocator hands out for entries are multiples of 8. *)
Definition word_aligned (p : Z) : Prop := p mod 8 = 0.

(** The same memory as bytes, little endian: byte [i] of the word [v], the
    word the eight bytes from [p] on make up, and an 8-byte store. *)
Definition byte_of (v i : Z) : Z := (v / 2 ^ (8 * i)) mod 256.

Definition word_at (b : Z -> Z) (p : Z) : Z :=
  b p + 2 ^ 8 * b (p + 1) + 2 ^ 16 * b (p + 2) + 2 ^ 24 * b (p + 3) +
  2 ^ 32 * b (p + 4) + 2 ^ 40 * b (p + 5) + 2 ^ 48 * b (p + 6) +
  2 ^ 56 * b (p + 7).

Definition store_bytes (b : Z -> Z) (p v : Z) : Z -> Z :=
  fun x => if (p <=? x) && (x <? p + 8) then byte_of v (x - p) else b x.

(** Memory [m] holds stack [s] of the custodian at address [owner], whose
    allocator is [a]. *)
Fixpoint repr (m : Z -> Z) (a owner : Z) (s : Stack) : Prop :=
  match s with
  | Empty => True
  | Allocation e b =>
      e <> 0 /\ aligned e /\
      m e = ptr_tag (top b) TAG_ALLOCATION /\
      repr m a owner b
  | Resource e p f b =>
      e <> 0 /\ aligned e /\
      m e = ptr_tag (top b) TAG_RESOURCE /\
      m (e + 8) = p /\ m (e + 16) = f /\
      repr m a owner b
  | ChildScope e ch b =>
      e <> 0 /\ aligned e /\
      m e = ptr_tag (top b) TAG_CUSTODIAN /\
      m (e + 8) = top ch /\ m (e + 16) = a /\ m (e + 24) = owner /\
      repr m a (e + 8) ch /\
      repr m a owner b
  end.

(** The custodian at [c] has allocator [a], parent [parent] and stack [s],
    and none of its words overlap. *)
Definition node (m : Z -> Z) (c a parent : Z) (s : Stack) : Prop :=
  m c = top s /\ m (c + 8) = a /\ m (c + 16) = parent /\
  repr m a c s /\
  NoDup (c :: c + 8 :: c + 16 :: footprint s).

(** What releasing a stack top-down asks of the outside world. *)
Fixpoint release (a : Z) (s : Stack) : list Event :=
  match s with
  | Empty => []
  | Allocation e b => EvFree a e :: release a b
  | Resource e p f b =>
      (if f =? 0 then [] else [EvCleanup f p]) ++ EvFree a e :: release a b
  | ChildScope e ch b => release a ch ++ EvFree a e :: release a b
  end.

(** The addresses the release loop goes through, in order. *)
Fixpoint accesses (s : Stack) : list Z :=
  match s with
  | Empty => []
  | Allocation e b => e :: e :: accesses b
  | Resource e p f b =>
      e :: e :: e + 16 ::
        (if f =? 0 then [] else [e + 16; e + 8]) ++ accesses b
  | ChildScope e ch b =>
      e :: e :: e + 8 :: e + 16 :: accesses ch ++ e + 8 :: accesses b
  end.

(** Fuel that is enough to release a stack. *)
Fixpoint need (s : Stack) : nat :=
  match s with
  | Empty => 1
  | Allocation _ b | Resource _ _ _ b => S (need b)
  | ChildScope _ ch b => S (S (need ch) + need b)
  end.

(** [above] stacked on top of [below]. *)
Fixpoint stack_app (above below : Stack) : Stack :=
  match above with
  | Empty => below
  | Allocation e b => Allocation e (stack_app b below)
  | Resource e p f b => Resource e p f (stack_app b below)
  | ChildScope e ch b => ChildScope e ch (stack_app b below)
  end.

(** The child custodians nested anywhere inside a stack. *)
Fixpoint descendant (s : Stack) (c : Z) : Prop :=
  match s with
  | Empty => False
  | Allocation _ b | Resource _ _ _ b => descendant b c
  | ChildScope e ch b => c = e + 8 \/ descendant ch c \/ descendant b c
  end.

(** The [stack] words of the child custodians nested in a stack: all that
    a shutdown writes below the node it is called on. *)
Fixpoint stack_fields (s : Stack) : list Z :=
  match s with
  | Empty => []
  | Allocation _ b | Resource _ _ _ b => stack_fields b
  | ChildScope e ch b => e + 8 :: stack_fields ch ++ stack_fields b
  end.

(** What the release loop leaves behind when started on stack [s]. *)
Definition released (a : Z) (s : Stack) (st st' : State) : Prop :=
  trace st' = trace st ++ release a s /\
  oracle st' = oracle st /\
  touched st' = touched st ++ accesses s /\
  forall p, ~ In p (stack_fields s) -> mem st' p = mem st p.

(** No address of [l1] occurs in [l2]. *)
Definition disjoint (l1 l2 : list Z) : Prop :=
  forall x, In x l1 -> ~ In x l2.

(** The blocks of a stack, nested ones included, in release order. *)
Fixpoint blocks (s : Stack) : list Z :=
  match s with
  | Empty => []
  | Allocation e b | Resource e _ _ b => e :: blocks b
  | ChildScope e ch b => blocks ch ++ e :: blocks b
  end.

(** How many deferred entries of a stack, nested ones included, hold the
    pair (handle [h], cleanup [f]). *)
Fixpoint count_deferred (h f : Z) (s : Stack) : nat :=
  match s with
  | Empty => 0
  | Allocation _ b => count_deferred h f b
  | Resource _ p g b =>
      ((if ((p =? h) && (g =? f))%Z then 1 else 0) + count_deferred h f b)%nat
  | ChildScope _ ch b => (count_deferred h f ch + count_deferred h f b)%nat
  end.

Definition Event_eq_dec (x y : Event) : {x = y} + {x <> y}.
Proof. decide equality; apply Z.eq_dec. Defined.

(** The three ways of pushing an entry on a node. *)
Inductive Push : Type :=
| PushAlloc (size : Z)
| PushDefer (ptr f : Z)
| PushChild.

Definition push (fuel : nat) (c : Z) (op : Push) : M unit :=
  match op with
  | PushAlloc n => custodian_alloc fuel c n ;;; ret tt
  | PushDefer h f => custodian_defer fuel c h f
  | PushChild => custodian_child_create fuel c ;;; ret tt
  end.

Fixpoint pushes (fuel : nat) (c : Z) (ops : list Push) : M unit :=
  match ops with
  | [] => ret tt
  | op :: rest => push fuel c op ;;; pushes fuel c rest
  end.

(** The entry a push creates in the block [e] the allocator handed out. *)
Definition entry_of (op : Push) (e : Z) (below : Stack) : Stack :=
  match op with
  | PushAlloc _ => Allocation e below
  | PushDefer h f => Resource e h f below
  | PushChild => ChildScope e Empty below
  end.

(** What shutdown does for the one entry a push created. *)
Definition released_entry (a : Z) (x : Push * Z) : list Event :=
  release a (entry_of (fst x) (snd x) Empty).

(** The addresses shutdown goes through for the one entry a push created. *)
Definition touched_entry (x : Push * Z) : list Z :=
  accesses (entry_of (fst x) (snd x) Empty).

(** The words a push writes in its block. *)
Definition block (x : Push * Z) : list Z :=
  footprint (entry_of (fst x) (snd x) Empty).

(** The stack after a run of pushes, first push first. *)
Definition pushed (pe : list (Push * Z)) (s : Stack) : Stack :=
  fold_left (fun acc x => entry_of (fst x) (snd x) acc) pe s.

(** Nesting depth of child scopes. *)
Fixpoint height (s : Stack) : nat :=
  match s with
  | Empty => 0
  | Allocation _ b | Resource _ _ _ b => height b
  | ChildScope _ ch b => Nat.max (S (height ch)) (height b)
  end.

(** From [owner] the parent links lead to [root] in memory [m], and [k]
    units of fuel are enough for the walk. *)
Definition reaches (m : Z -> Z) (root owner : Z) (k : nat) : Prop :=
  forall fuel st, (k <= fuel)%nat -> mem st = m ->
    exists st', abort_walk fuel owner st = Done root st' /\
                mem st' = m /\ trace st' = trace st /\ oracle st' = oracle st.

(** ** lol.c: one runner block

    Each of the blocks of [main] is the same text with the test's index and
    display name filled in; [test_block] is that text with the two as
    arguments.  What the system answers (mkstemp, fork, waitpid, fdopen, the
    bytes of the capture file) comes in as [Env]; the result is what the
    harness prints on its standard output. *)

(** The macros of <sys/wait.h> and the number of SIGALRM: the platform's,
    not the repository's. *)
Record WaitMacros : Type := mkWaitMacros {
  WIFEXITED : Z -> bool;
  WEXITSTATUS : Z -> Z;
  WIFSIGNALED : Z -> bool;
  WTERMSIG : Z -> Z;
  SIGALRM : Z
}.

(** The encoding Linux uses. *)
Definition linux : WaitMacros :=
  mkWaitMacros
    (fun status => Z.land status 0x7f =? 0)
    (fun status => Z.shiftr (Z.land status 0xff00) 8)
    (fun status => negb (Z.land status 0x7f =? 0x7f) &&
                   negb (Z.land status 0x7f =? 0))
    (fun status => Z.land status 0x7f)
    14.

Open Scope string_scope.

Definition nl : string := String "010" EmptyString.
Definition is_nl (ch : ascii) : bool := Ascii.eqb ch "010".
Definition is_nul (ch : ascii) : bool := Ascii.eqb ch "000".

(** printf's [%d]. *)
Definition dec (n : Z) : string := NilZero.string_of_int (Z.to_int n).

Definition BUFLEN : nat := 1024.

(** [read_line k input]: up to [k] bytes of [input], stopping after a
    newline; the bytes read and the rest of the file. *)
Fixpoint read_line (k : nat) (input : string) : string * string :=
  match k, input with
  | O, _ => ("", input)
  | _, EmptyString => ("", "")
  | S k', String ch rest =>
      if is_nl ch then (String ch "", rest)
      else let (l, r) := read_line k' rest in (String ch l, r)
  end.

(** [fgets(buf, n, fp)] reads at most [n - 1] bytes; an empty first
    component stands for the NULL it returns at end of file. *)
Definition fgets (n : nat) (input : string) : string * string :=
  read_line (n - 1) input.

(** A buffer seen as a C string: what [strlen] measures and [%s] prints
    ends at the first NUL. *)
Fixpoint c_str (buf : string) : string :=
  match buf with
  | EmptyString => ""
  | String ch rest => if is_nul ch then "" else String ch (c_str rest)
  end.

(** [len > 0 && line_buf[len-1] == '\n'] *)
Fixpoint ends_with_nl (s : string) : bool :=
  match s with
  | EmptyString => false
  | String ch EmptyString => is_nl ch
  | String _ rest => ends_with_nl rest
  end.

(** The [while (fgets(...))] loop; every turn consumes at least one byte. *)
Fixpoint diag_loop (fuel : nat) (input : string) (fresh_line : bool) : string :=
  match fuel with
  | O => ""
  | S fuel' =>
      let (buf, rest) := fgets BUFLEN input in
      match buf with
      | EmptyString => ""
      | _ =>
          let line_buf := c_str buf in
          let len := String.length line_buf in
          (if fresh_line then "#: " else "") ++ line_buf ++
          (if ends_with_nl line_buf then diag_loop fuel' rest true
           else if (len <? BUFLEN - 1)%nat then nl ++ diag_loop fuel' rest true
           else diag_loop fuel' rest false)
      end
  end.

Definition diagnostics (capture : string) : string :=
  diag_loop (S (String.length capture)) capture true.

Record Env : Type := mkEnv {
  mkstemp_fd : Z;       (* -1 on failure *)
  fork_pid : Z;         (* > 0 in the harness, < 0 on failure *)
  wait_status : Z;      (* what waitpid stores *)
  fdopen_ok : bool;
  capture : string      (* what the child wrote to stdout and stderr *)
}.

(** The chain of tests in the [else] branch: the line for a child that did
    not exit with status 0. *)
Definition failure_line (W : WaitMacros) (i : Z) (display : string)
    (status : Z) : string :=
  if WIFEXITED W status then
    "not ok " ++ dec i ++ " - " ++ display ++
      " (exit code: " ++ dec (WEXITSTATUS W status) ++ ")" ++ nl
  else if WIFSIGNALED W status then
    if (WTERMSIG W status =? SIGALRM W)%Z then
      "not ok " ++ dec i ++ " - " ++ display ++ " (timeout after 10s)" ++ nl
    else
      "not ok " ++ dec i ++ " - " ++ display ++
        " (killed by signal " ++ dec (WTERMSIG W status) ++ ")" ++ nl
  else
    "not ok " ++ dec i ++ " - " ++ display ++ " (unknown failure)" ++ nl.

(** What follows the line of a failed test: the capture as diagnostics, or
    nothing when [fdopen] fails (the complaint goes to stderr). *)
Definition replay (env : Env) : string :=
  if fdopen_ok env then diagnostics (capture env) else "".

(** The [pid > 0] branch. *)
Definition parent_block (W : WaitMacros) (i : Z) (display : string)
    (env : Env) : string :=
  let status := wait_status env in
  if WIFEXITED W status && (WEXITSTATUS W status =? 0)%Z then
    "ok " ++ dec i ++ " - " ++ display ++ nl
  else
    failure_line W i display status ++ replay env.

(** One block of [main]: what it adds to the harness's output.  Where
    fork returns 0 the process is the child: its standard output is the
    capture file from then on and it leaves through [exit(result)], so it
    adds nothing. *)
Definition test_block (W : WaitMacros) (i : Z) (display : string)
    (env : Env) : string :=
  if (mkstemp_fd env =? -1)%Z then
    "not ok " ++ dec i ++ " - " ++ display ++ " (tmpfile creation failed)" ++ nl
  else if (fork_pid env =? 0)%Z then
    ""
  else if (0 <? fork_pid env)%Z then
    parent_block W i display env
  else
    "not ok " ++ dec i ++ " - " ++ display ++ " (fork failed)" ++ nl.

(** [main]: the version line, the plan, and the five blocks the generator
    wrote out, each with what the system answers to it. *)
Definition main (W : WaitMacros) (e1 e2 e3 e4 e5 : Env) : string :=
  "TAP version 14" ++ nl ++
  "1..5" ++ nl ++
  test_block W 1 "test_program()" e1 ++
  test_block W 2 "test_add(2, 3, 5)" e2 ++
  test_block W 3 "test_segfault()" e3 ++
  test_block W 4 "test_add(2, 3, 6)" e4 ++
  test_block W 5 "test_add(4, 8, 12)" e5.

Fixpoint repeat_char (ch : ascii) (n : nat) : string :=
  match n with
  | O => ""
  | S n' => String ch (repeat_char ch n')
  end.

(** Every line of [s] starts with '#'; [at_start] tells whether [s] begins
    at the start of a line. *)
Fixpoint only_diag_lines (at_start : bool) (s : string) : bool :=
  match s with
  | EmptyString => true
  | String ch rest =>
      (if at_start then Ascii.eqb ch "#" else true) &&
      only_diag_lines (is_nl ch) rest
  end.

(** No newline in [s] but possibly its last byte. *)
Fixpoint nl_only_last (s : string) : bool :=
  match s with
  | EmptyString => true
  | String ch EmptyString => true
  | String ch rest => negb (is_nl ch) && nl_only_last rest
  end.

Close Scope string_scope.

(** ** A concrete run

    The calls [test_program] of lol.c makes before it shuts its custodian
    down (its [printf]s go to the capture file and are left out), on a root
    custodian set up the way the runner's child does it. *)

Definition after {A} (m : M A) (st : State) : State :=
  match m st with
  | Done _ s | Aborted s => s
  | OutOfFuel => st
  end.

Definition root0 : Z := 0x7000.    (* Custodian c, on the child's stack *)
Definition alloc0 : Z := 0x6000.   (* Allocator a *)
Definition cleaner : Z := 0x4242.  (* address of the function cleaner *)

(** After [custodian_init(&c, NULL, &a)], with the answers the allocator is
    going to give. *)
Definition boot (answers : list Z) : State :=
  after (custodian_init root0 0 alloc0) (mkState (fun _ => 0) answers [] []).

Definition test_program_setup (c : Z) : M unit :=
  custodian_alloc 100 c 100 ;;;
  custodian_defer 100 c 0 cleaner ;;;
  custodian_alloc 100 c 200 ;;;
  c2 <- custodian_child_create 100 c ;;
  custodian_alloc 100 c2 300 ;;;
  custodian_alloc 100 c2 20 ;;;
  custodian_alloc 100 c 50 ;;;
  ret tt.

(** The state [test_program] is in when it calls [custodian_shutdown]; the
    allocator has [more] left to answer. *)
Definition busy (more : list Z) : State :=
  after (test_program_setup root0)
        (boot ([0x1000; 0x1100; 0x1200; 0x1300; 0x1400; 0x1500; 0x1600] ++ more)).

(** The root's stack in that state. *)
Definition busy_stack : Stack :=
  Allocation 0x1600
    (ChildScope 0x1300
       (Allocation 0x1500 (Allocation 0x1400 Empty))
       (Allocation 0x1200
          (Resource 0x1100 0 cleaner
             (Allocation 0x1000 Empty)))).

(** The size a push asks the allocator for. *)
Definition request (op : Push) : Z :=
  match op with
  | PushAlloc n => n
  | PushDefer _ _ => sizeof_CustodianEntry + sizeof_CustodianResource
  | PushChild => sizeof_CustodianEntry + sizeof_Custodian
  end.

(** The allocator call a push makes when it is answered with block [e]. *)
Definition alloc_event (a : Z) (x : Push * Z) : Event :=
  EvAlloc a (request (fst x)) (snd x).

(** The stack of the child custodian at address [d], searched for in the
    children nested in [s]. *)
Fixpoint subtree (s : Stack) (d : Z) : option Stack :=
  match s with
  | Empty => None
  | Allocation _ b | Resource _ _ _ b => subtree b d
  | ChildScope e ch b =>
      if d =? e + 8 then Some ch
      else match subtree ch d with
           | Some x => Some x
           | None => subtree b d
           end
  end.

(** [s] with the stack of the child custodian at [d] replaced by [new]. *)
Fixpoint graft (d : Z) (new : Stack) (s : Stack) : Stack :=
  match s with
  | Empty => Empty
  | Allocation e b => Allocation e (graft d new b)
  | Resource e p f b => Resource e p f (graft d new b)
  | ChildScope e ch b =>
      if d =? e + 8 then ChildScope e new b
      else ChildScope e (graft d new ch) (graft d new b)
  end.


(** Pushes on the nodes of a tree: each step names the custodian it is made
    on. *)
Fixpoint tree_pushes (fuel : nat) (ops : list (Z * Push)) : M unit :=
  match ops with
  | [] => ret tt
  | x :: rest => push fuel (fst x) (snd x) ;;; tree_pushes fuel rest
  end.

(** The stack of the node at [root] after a push of [op], answered with block
    [e], on the custodian at [c]: on [root] itself or on a child nested in
    its stack.  [None] when [c] is neither. *)
Definition grow (root : Z) (s : Stack) (x : Z * Push * Z) : option Stack :=
  let c := fst (fst x) in
  let op := snd (fst x) in
  let e := snd x in
  if c =? root then Some (entry_of op e s)
  else
    match subtree s c with
    | Some chd => Some (graft c (entry_of op e chd) s)
    | None => None
    end.

Fixpoint grown (root : Z) (tpe : list (Z * Push * Z)) (s : Stack)
  : option Stack :=
  match tpe with
  | [] => Some s
  | x :: rest =>
      match grow root s x with
      | Some s' => grown root rest s'
      | None => None
      end
  end.

(** The allocator's view of a step and the block it is answered with. *)
Definition tree_block (x : Z * Push * Z) : Push * Z := (snd (fst x), snd x).

(** ** lol.c: the first test and the child process that runs it *)

(** [assert(e)]: [abort()] when [e] is false; nothing at all when the file is
    compiled with NDEBUG. *)
Definition c_assert (ndebug cond : bool) : M unit :=
  if ndebug then ret tt else if cond then ret tt else abort.

(** [test_program].  Its three [printf] calls write to the capture file and
    touch neither the heap nor the custodian; the state here has no output
    stream, so they leave no mark. *)
Definition test_program (ndebug : bool) (c : Z) : M Z :=
  test_program_setup c ;;;
  custodian_shutdown 100 c ;;;
  c_assert ndebug (1 =? 2) ;;;
  ret 0.

(** What the forked child of the first block does with the custodian, from
    [custodian_init(&c, NULL, &a)] to [exit(result)]; the value is the exit
    status. *)
Definition child_main (ndebug : bool) (a c : Z) : M Z :=
  custodian_init c 0 a ;;;
  result <- test_program ndebug c ;;
  custodian_shutdown 100 c ;;;
  ret result.

(** The steps of [test_program] before its shutdown, with the blocks the
    allocator answers with. *)
Definition test_program_steps (c e1 e2 e3 e4 e5 e6 e7 : Z)
  : list (Z * Push * Z) :=
  [ (c, PushAlloc 100, e1);
    (c, PushDefer 0 cleaner, e2);
    (c, PushAlloc 200, e3);
    (c, PushChild, e4);
    (e4 + 8, PushAlloc 300, e5);
    (e4 + 8, PushAlloc 20, e6);
    (c, PushAlloc 50, e7) ].

(** The root's stack when [test_program] calls [custodian_shutdown]. *)
Definition test_program_stack (e1 e2 e3 e4 e5 e6 e7 : Z) : Stack :=
  Allocation e7
    (ChildScope e4
       (Allocation e6 (Allocation e5 Empty))
       (Allocation e3
          (Resource e2 0 cleaner
             (Allocation e1 Empty)))).

(** ** What the diagnostics loop is meant to print *)

Open Scope string_scope.

(** No NUL byte in [s]. *)
Fixpoint no_nul (s : string) : bool :=
  match s with
  | EmptyString => true
  | String ch rest => negb (is_nul ch) && no_nul rest
  end.

(** [s] as TAP diagnostics: "#: " in front of every line, and a newline
    after the last line when it has none.  [at_start] tells whether [s]
    begins at the start of a line. *)
Fixpoint commented (at_start : bool) (s : string) : string :=
  match s with
  | EmptyString => if at_start then "" else nl
  | String ch rest =>
      (if at_start then "#: " else "") ++
      String ch (commented (is_nl ch) rest)
  end.

(** The number of bytes after the last newline of [s]; [col] bytes of the
    current line came before [s]. *)
Fixpoint tail_len (col : nat) (s : string) : nat :=
  match s with
  | EmptyString => col
  | String ch rest => tail_len (if is_nl ch then O else S col) rest
  end.

(** An unfinished last line of [t] bytes that fills whole buffers. *)
Definition fills_buffers (t : nat) : bool :=
  ((0 <? t) && (t mod (BUFLEN - 1) =? 0))%nat.

Close Scope string_scope.

Open Scope string_scope.

(** No newline in [s]. *)
Fixpoint no_nl (s : string) : bool :=
  match s with
  | EmptyString => true
  | String ch rest => negb (is_nl ch) && no_nl rest
  end.

Close Scope string_scope.
(** * Proofs *)

(** ** Words and bytes *)

Lemma word_aligned_apart p q :
  word_aligned p -> word_aligned q -> p <> q -> q + 8 <= p \/ p + 8 <= q.
Proof.
  unfold word_aligned. intros Hp Hq Hne.
  Z.div_mod_to_equations. lia.
Qed.

Lemma store_bytes_same b p v :
  0 <= v < 2 ^ 64 -> word_at (store_bytes b p v) p = v.
Proof.
  intros Hv. unfold word_at, store_bytes.
  repeat match goal with
         | |- context [if (p <=? ?x) && (?x <? p + 8) then _ else _] =>
             replace ((p <=? x) && (x <? p + 8)) with true
               by (symmetry; apply andb_true_iff; split;
                   [apply Z.leb_le | apply Z.ltb_lt]; lia)
         end.
  replace (p - p) with 0 by lia.
  replace (p + 1 - p) with 1 by lia. replace (p + 2 - p) with 2 by lia.
  replace (p + 3 - p) with 3 by lia. replace (p + 4 - p) with 4 by lia.
  replace (p + 5 - p) with 5 by lia. replace (p + 6 - p) with 6 by lia.
  replace (p + 7 - p) with 7 by lia.
  unfold byte_of. cbn [Z.mul Pos.mul].
  change (2 ^ 0) with 1. change (2 ^ 8) with 256.
  change (2 ^ 16) with 65536. change (2 ^ 24) with 16777216.
  change (2 ^ 32) with 4294967296. change (2 ^ 40) with 1099511627776.
  change (2 ^ 48) with 281474976710656.
  change (2 ^ 56) with 72057594037927936.
  change (2 ^ 64) with 18446744073709551616 in Hv.
  Z.div_mod_to_equations. lia.
Qed.

Lemma store_bytes_apart b p v q :
  q + 8 <= p \/ p + 8 <= q ->
  word_at (store_bytes b p v) q = word_at b q.
Proof.
  intros Hq. unfold word_at, store_bytes.
  repeat match goal with
         | |- context [if (p <=? ?x) && (?x <? p + 8) then _ else _] =>
             replace ((p <=? x) && (x <? p + 8)) with false
               by (symmetry; apply andb_false_iff;
                   destruct Hq; [left; apply Z.leb_gt | right; apply Z.ltb_ge];
                   lia)
         end.
  reflexivity.
Qed.

(** On word-aligned addresses the store of the model is the store of the
    machine: seen a word at a time, a byte memory after an 8-byte store at
    [p] is the old one updated at [p] and nowhere else. *)
Lemma upd_is_store_bytes b p v q :
  word_aligned p -> word_aligned q -> 0 <= v < 2 ^ 64 ->
  word_at (store_bytes b p v) q = upd (word_at b) p v q.
Proof.
  intros Hp Hq Hv. unfold upd. destruct (Z.eqb_spec q p) as [-> | Hne].
  - apply store_bytes_same, Hv.
  - apply store_bytes_apart. apply word_aligned_apart; auto.
Qed.

(** ** Tagged pointers *)

Lemma land_tag_small t : 0 <= t < 4 -> Z.land t TAG_MASK = t.
Proof.
  intros H. unfold TAG_MASK. change 3 with (Z.ones 2).
  rewrite Z.land_ones by lia. apply Z.mod_small. change (2^2) with 4. lia.
Qed.

Lemma ptr_tag_get_tag p t :
  aligned p -> 0 <= t < 4 -> ptr_tag_get (ptr_tag p t) = t.
Proof.
  intros [_ Hp] Ht. unfold ptr_tag_get, ptr_tag.
  rewrite (land_tag_small t Ht), Z.land_lor_distr_l, (land_tag_small t Ht).
  unfold TAG_MASK. change 3 with (Z.ones 2). rewrite Z.land_ones by lia.
  change (2^2) with 4. rewrite Hp. apply Z.lor_0_l.
Qed.

Lemma ptr_untag_tag p t :
  aligned p -> 0 <= t < 4 -> ptr_untag (ptr_tag p t) = p.
Proof.
  intros [Hr Hp] Ht. unfold ptr_untag, ptr_tag.
  rewrite (land_tag_small t Ht), Z.land_lor_distr_l.
  assert (Ht0 : Z.land t PTR_MASK = 0).
  { assert (t = 0 \/ t = 1 \/ t = 2 \/ t = 3) as [-> | [-> | [-> | ->]]] by lia;
      reflexivity. }
  rewrite Ht0, Z.lor_0_r.
  assert (Hk : p = Z.shiftl (p / 4) 2).
  { rewrite Z.shiftl_mul_pow2 by lia. change (2^2) with 4.
    pose proof (Z.div_mod p 4). lia. }
  rewrite Hk at 1. change PTR_MASK with (Z.shiftl (Z.ones 62) 2).
  rewrite <- Z.shiftl_land, Z.land_ones by lia.
  rewrite Z.mod_small.
  - symmetry; exact Hk.
  - split. apply Z.div_pos; lia. apply Z.div_lt_upper_bound; lia.
Qed.

(** ** Running the monad *)

Lemma bind_load {B} p (k : Z -> M B) st :
  bind (load p) k st =
  k (mem st p) (mkState (mem st) (oracle st) (trace st) (touched st ++ [p])).
Proof. reflexivity. Qed.

Lemma bind_store {B} p v (k : unit -> M B) st :
  bind (store p v) k st =
  k tt (mkState (upd (mem st) p v) (oracle st) (trace st) (touched st ++ [p])).
Proof. reflexivity. Qed.

Lemma bind_emit {B} e (k : unit -> M B) st :
  bind (emit e) k st =
  k tt (mkState (mem st) (oracle st) (trace st ++ [e]) (touched st)).
Proof. reflexivity. Qed.

Lemma bind_ret {A B} (x : A) (k : A -> M B) st : bind (ret x) k st = k x st.
Proof. reflexivity. Qed.

Lemma bind_assoc {A B C} (m : M A) (k : A -> M B) (h : B -> M C) st :
  bind (bind m k) h st = bind m (fun x => bind (k x) h) st.
Proof. unfold bind. destruct (m st); reflexivity. Qed.

Lemma bind_done {A B} (m : M A) (k : A -> M B) st x st' :
  m st = Done x st' -> bind m k st = k x st'.
Proof. intros H. unfold bind. rewrite H. reflexivity. Qed.

Lemma shutdown_loop_S fuel a entry :
  shutdown_loop (S fuel) a entry =
  if entry =? 0 then ret tt
  else
    w <- load (f_prev entry) ;;
    w' <- load (f_prev entry) ;;
    (if ptr_tag_get w' =? TAG_ALLOCATION then
       allocator_free a entry
     else if ptr_tag_get w' =? TAG_RESOURCE then
       cleanup <- load (f_cleanup (entry + sizeof_CustodianEntry)) ;;
       (if cleanup =? 0 then ret tt
        else
          f <- load (f_cleanup (entry + sizeof_CustodianEntry)) ;;
          ptr <- load (f_ptr (entry + sizeof_CustodianEntry)) ;;
          emit (EvCleanup f ptr)) ;;;
       allocator_free a entry
     else if ptr_tag_get w' =? TAG_CUSTODIAN then
       custodian_shutdown fuel (entry + sizeof_CustodianEntry) ;;;
       allocator_free a entry
     else ret tt) ;;;
    shutdown_loop fuel a (ptr_untag w).
Proof. reflexivity. Qed.

Lemma custodian_shutdown_S fuel c :
  custodian_shutdown (S fuel) c =
  (entry <- load (f_stack c) ;;
   a <- load (f_a c) ;;
   shutdown_loop fuel a entry ;;;
   store (f_stack c) 0).
Proof. reflexivity. Qed.

Lemma aligned_0 : aligned 0.
Proof. split; [lia | reflexivity]. Qed.

Lemma repr_top_aligned m a o s : repr m a o s -> aligned (top s).
Proof. destruct s; simpl; intuition auto using aligned_0. Qed.

Ltac splits := repeat match goal with |- _ /\ _ => split end.

Lemma repr_frame m m' a s :
  forall o, (forall p, In p (footprint s) -> m' p = m p) ->
  repr m a o s -> repr m' a o s.
Proof.
  induction s as [| e b IHb | e p f b IHb | e ch IHch b IHb]; intros o Hfr; simpl.
  - trivial.
  - intros (Hn & Ha & Hm & Hb). rewrite Hfr by (simpl; auto).
    splits; try assumption. apply IHb; auto. intros; apply Hfr; simpl; auto.
  - intros (Hn & Ha & Hm & Hp & Hf & Hb).
    rewrite !Hfr by (simpl; auto).
    splits; try assumption. apply IHb; auto. intros; apply Hfr; simpl; auto.
  - intros (Hn & Ha & Hm & Ht & Hal & Ho & Hch & Hb).
    rewrite !Hfr by (simpl; auto).
    splits; try assumption.
    + apply IHch; auto. intros; apply Hfr; simpl.
      do 4 right. apply in_or_app; auto.
    + apply IHb; auto. intros; apply Hfr; simpl.
      do 4 right. apply in_or_app; auto.
Qed.



Lemma NoDup_app_disjoint {A} (l1 l2 : list A) :
  NoDup (l1 ++ l2) -> forall x, In x l1 -> In x l2 -> False.
Proof.
  induction l1 as [| y l1 IH]; simpl; intros Hnd x H1 H2; [tauto |].
  apply NoDup_cons_iff in Hnd as [Hy Hnd]. destruct H1 as [-> | H1].
  - apply Hy, in_or_app; auto.
  - eauto.
Qed.

Lemma tag_range_alloc : 0 <= TAG_ALLOCATION < 4. Proof. cbv; split; congruence. Qed.
Lemma tag_range_res : 0 <= TAG_RESOURCE < 4. Proof. cbv; split; congruence. Qed.
Lemma tag_range_cust : 0 <= TAG_CUSTODIAN < 4. Proof. cbv; split; congruence. Qed.

Lemma upd_same m p v : upd m p v p = v.
Proof. unfold upd. rewrite Z.eqb_refl. reflexivity. Qed.

Lemma upd_other m p v q : q <> p -> upd m p v q = m q.
Proof. intros H. unfold upd. apply Z.eqb_neq in H. rewrite H. reflexivity. Qed.

Lemma stack_fields_footprint s : incl (stack_fields s) (footprint s).
Proof.
  induction s as [| e b IHb | e p f b IHb | e ch IHch b IHb]; simpl;
    intros q Hq.
  - exact Hq.
  - right. apply IHb, Hq.
  - do 3 right. apply IHb, Hq.
  - destruct Hq as [Hq | Hq]; [right; left; exact Hq |].
    do 4 right. apply in_or_app.
    apply in_app_or in Hq as [Hq | Hq];
      [left; apply IHch, Hq | right; apply IHb, Hq].
Qed.

Lemma shutdown_loop_released s :
  forall a owner fuel st,
    repr (mem st) a owner s -> NoDup (footprint s) -> (need s <= fuel)%nat ->
    exists st', shutdown_loop fuel a (top s) st = Done tt st' /\
                released a s st st'.
Proof.
  induction s as [| e b IHb | e p f b IHb | e ch IHch b IHb];
    intros a owner fuel st Hr Hnd Hfuel; simpl in Hfuel;
    (destruct fuel as [| fuel]; [lia |]); rewrite shutdown_loop_S.
  - simpl. exists st. split; [reflexivity |]. unfold released; simpl.
    rewrite !app_nil_r. auto.
  - simpl in Hr. destruct Hr as (Hn & Ha & Hm & Hb). cbn [top].
    apply Z.eqb_neq in Hn. rewrite Hn. unfold f_prev.
    rewrite !bind_load. cbn [mem oracle trace touched]. rewrite Hm.
    pose proof (repr_top_aligned _ _ _ _ Hb) as Hal.
    rewrite ptr_tag_get_tag, ptr_untag_tag by auto using tag_range_alloc.
    change (TAG_ALLOCATION =? TAG_ALLOCATION) with true. cbv iota.
    unfold allocator_free. rewrite bind_emit.
    inversion Hnd as [| ? ? Hni Hndb]; subst.
    edestruct (IHb a owner fuel) as (st' & Hrun & Ht & Ho & Hto & Hmem);
      [| exact Hndb | | rewrite Hrun; exists st'; split; [reflexivity |]].
    + exact Hb.
    + lia.
    + cbn [mem oracle trace touched] in *. unfold released; splits.
      * rewrite Ht, <- app_assoc. reflexivity.
      * exact Ho.
      * rewrite Hto, <- !app_assoc. reflexivity.
      * intros q Hq. apply Hmem. simpl in Hq. tauto.
  - simpl in Hr. destruct Hr as (Hn & Ha & Hm & Hp & Hf & Hb). cbn [top].
    apply Z.eqb_neq in Hn. rewrite Hn. unfold f_prev.
    rewrite !bind_load. cbn [mem oracle trace touched]. rewrite Hm.
    pose proof (repr_top_aligned _ _ _ _ Hb) as Hal.
    rewrite ptr_tag_get_tag, ptr_untag_tag by auto using tag_range_res.
    change (TAG_RESOURCE =? TAG_ALLOCATION) with false.
    change (TAG_RESOURCE =? TAG_RESOURCE) with true. cbv iota.
    unfold f_cleanup, f_ptr, sizeof_CustodianEntry, allocator_free.
    replace (e + 8 + 8) with (e + 16) by lia.
    rewrite !bind_assoc, bind_load. cbn [mem oracle trace touched].
    rewrite Hf, bind_assoc.
    simpl in Hnd. apply NoDup_cons_iff in Hnd as [_ Hnd].
    apply NoDup_cons_iff in Hnd as [_ Hnd].
    apply NoDup_cons_iff in Hnd as [_ Hndb].
    destruct (f =? 0) eqn:Hfz.
    + rewrite bind_ret, bind_emit. cbn [mem oracle trace touched].
      edestruct (IHb a owner fuel) as (st' & Hrun & Ht & Ho & Hto & Hmem);
        [| exact Hndb | | rewrite Hrun; exists st'; split; [reflexivity |]].
      * exact Hb.
      * lia.
      * cbn [mem oracle trace touched] in *. unfold released; splits.
        -- rewrite Ht, <- app_assoc. simpl. rewrite Hfz. reflexivity.
        -- exact Ho.
        -- rewrite Hto, <- !app_assoc. simpl. rewrite Hfz. reflexivity.
        -- intros q Hq. apply Hmem. simpl in Hq. tauto.
    + rewrite bind_assoc, bind_load, bind_assoc, bind_load, !bind_emit.
      cbn [mem oracle trace touched]. rewrite Hf, Hp.
      edestruct (IHb a owner fuel) as (st' & Hrun & Ht & Ho & Hto & Hmem);
        [| exact Hndb | | rewrite Hrun; exists st'; split; [reflexivity |]].
      * exact Hb.
      * lia.
      * cbn [mem oracle trace touched] in *. unfold released; splits.
        -- rewrite Ht, <- !app_assoc. simpl. rewrite Hfz. reflexivity.
        -- exact Ho.
        -- rewrite Hto, <- !app_assoc. simpl. rewrite Hfz. reflexivity.
        -- intros q Hq. apply Hmem. simpl in Hq. tauto.
  - simpl in Hr. destruct Hr as (Hn & Ha & Hm & Htc & Hac & Hoc & Hch & Hb).
    cbn [top]. apply Z.eqb_neq in Hn. rewrite Hn. unfold f_prev.
    rewrite !bind_load. cbn [mem oracle trace touched]. rewrite Hm.
    pose proof (repr_top_aligned _ _ _ _ Hb) as Hal.
    rewrite ptr_tag_get_tag, ptr_untag_tag by auto using tag_range_cust.
    change (TAG_CUSTODIAN =? TAG_ALLOCATION) with false.
    change (TAG_CUSTODIAN =? TAG_RESOURCE) with false.
    change (TAG_CUSTODIAN =? TAG_CUSTODIAN) with true. cbv iota.
    destruct fuel as [| fuel']; [lia |].
    rewrite custodian_shutdown_S.
    unfold f_stack, f_a, sizeof_CustodianEntry, allocator_free.
    replace (e + 8 + 8) with (e + 16) by lia.
    rewrite !bind_assoc, bind_load, bind_assoc, bind_load, bind_assoc.
    cbn [mem oracle trace touched]. rewrite Htc, Hac.
    simpl in Hnd. apply NoDup_cons_iff in Hnd as [_ Hnd].
    apply NoDup_cons_iff in Hnd as [Hni8 Hnd].
    apply NoDup_cons_iff in Hnd as [_ Hnd].
    apply NoDup_cons_iff in Hnd as [_ Hnd].
    match goal with
    | |- exists _, bind (shutdown_loop _ _ _) _ ?s = _ /\ _ =>
        destruct (IHch a (e + 8) fuel' s)
          as (st1 & Hrun1 & Ht1 & Ho1 & Hto1 & Hmem1);
        [exact Hch | exact (NoDup_app_remove_r _ _ Hnd) | lia |]
    end.
    rewrite (bind_done _ _ _ _ _ Hrun1), bind_store, bind_emit.
    cbn [mem oracle trace touched] in *.
    edestruct (IHb a owner (S fuel')) as (st' & Hrun & Ht & Ho & Hto & Hmem);
      [| exact (NoDup_app_remove_l _ _ Hnd) | | rewrite Hrun; exists st'; split; [reflexivity |]].
    + cbn [mem]. apply repr_frame with (m := mem st); [| exact Hb].
      intros q Hq. rewrite upd_other.
      * apply Hmem1. intros Hq'. apply stack_fields_footprint in Hq'.
        exact (NoDup_app_disjoint _ _ Hnd q Hq' Hq).
      * intros ->. apply Hni8. simpl. do 2 right. apply in_or_app; auto.
    + lia.
    + cbn [mem oracle trace touched] in *. unfold released; splits.
      * rewrite Ht, Ht1, <- !app_assoc. reflexivity.
      * congruence.
      * rewrite Hto, Hto1, <- !app_assoc. reflexivity.
      * intros q Hq. simpl in Hq. rewrite Hmem, upd_other.
        -- apply Hmem1. intros Hq'. apply Hq. right. apply in_or_app; auto.
        -- intros ->. apply Hq. auto.
        -- intros Hq'. apply Hq. right. apply in_or_app; auto.
Qed.

Lemma node_empty m c a parent :
  m c = 0 -> m (c + 8) = a -> m (c + 16) = parent ->
  node m c a parent Empty.
Proof.
  intros H0 H1 H2. unfold node; simpl; splits; auto.
  repeat constructor; simpl; lia.
Qed.

Lemma custodian_shutdown_node c a parent s fuel st :
  node (mem st) c a parent s -> (S (need s) <= fuel)%nat ->
  exists st',
    custodian_shutdown fuel c st = Done tt st' /\
    trace st' = trace st ++ release a s /\
    oracle st' = oracle st /\
    touched st' = touched st ++ c :: c + 8 :: accesses s ++ [c] /\
    (forall p, p <> c -> ~ In p (stack_fields s) -> mem st' p = mem st p) /\
    node (mem st') c a parent Empty.
Proof.
  intros (Htop & Ha & Hp & Hr & Hnd) Hfuel.
  destruct fuel as [| fuel]; [lia |].
  rewrite custodian_shutdown_S. unfold f_stack, f_a.
  apply NoDup_cons_iff in Hnd as [Hc0 Hnd].
  apply NoDup_cons_iff in Hnd as [Hc8 Hnd].
  apply NoDup_cons_iff in Hnd as [Hc16 Hnd].
  match goal with
  | |- exists _, ?run st = _ /\ _ =>
      change (run st) with
        (bind (shutdown_loop fuel (mem st (c + 8)) (mem st c))
              (fun _ => store c 0)
              (mkState (mem st) (oracle st) (trace st)
                       ((touched st ++ [c]) ++ [c + 8])))
  end.
  rewrite Htop, Ha.
  match goal with
  | |- exists _, bind _ _ ?s0 = _ /\ _ =>
      destruct (shutdown_loop_released s a c fuel s0 Hr Hnd)
        as (st1 & Hrun & Ht & Ho & Hto & Hmem); [lia |]
  end.
  rewrite (bind_done _ _ _ _ _ Hrun). cbn [mem oracle trace touched] in *.
  eexists; split; [reflexivity |]. cbn [mem oracle trace touched].
  assert (Hfr : forall p, p <> c -> ~ In p (stack_fields s) ->
                          upd (mem st1) c 0 p = mem st p).
  { intros p Hpc Hpf. rewrite upd_other by exact Hpc. auto. }
  splits; auto.
  - rewrite Hto, <- !app_assoc. reflexivity.
  - apply node_empty.
    + apply upd_same.
    + rewrite Hfr; [exact Ha | lia |].
      intros H. apply stack_fields_footprint in H. simpl in Hc8. tauto.
    + rewrite Hfr; [exact Hp | lia |].
      intros H. apply stack_fields_footprint in H. contradiction.
Qed.

Lemma bind_alloc {B} a size (k : Z -> M B) st :
  bind (allocator_alloc a size) k st =
  k (hd 0 (oracle st))
    (mkState (mem st) (tl (oracle st))
             (trace st ++ [EvAlloc a size (hd 0 (oracle st))]) (touched st)).
Proof. reflexivity. Qed.

Lemma repr_upd m a o s p v :
  ~ In p (footprint s) -> repr m a o s -> repr (upd m p v) a o s.
Proof.
  intros Hp. apply repr_frame. intros q Hq. apply upd_other.
  intros ->. contradiction.
Qed.


Lemma NoDup_insert (pre new l : list Z) :
  NoDup (pre ++ l) -> NoDup new -> disjoint new (pre ++ l) ->
  NoDup (pre ++ new ++ l).
Proof.
  intros H1 H2 H3.
  apply Permutation_NoDup with (l := new ++ pre ++ l).
  - apply Permutation_app_swap_app.
  - apply NoDup_app; assumption.
Qed.

Lemma NoDup_block1 (p : Z) : NoDup [p].
Proof. repeat constructor; simpl; lia. Qed.
Lemma NoDup_block3 (p : Z) : NoDup [p; p + 8; p + 16].
Proof. repeat constructor; simpl; lia. Qed.
Lemma NoDup_block4 (p : Z) : NoDup [p; p + 8; p + 16; p + 24].
Proof. repeat constructor; simpl; lia. Qed.

Ltac step :=
  first [ rewrite bind_assoc | rewrite bind_load | rewrite bind_store
        | rewrite bind_emit | rewrite bind_ret | rewrite bind_alloc ];
  cbv beta; cbn [mem oracle trace touched].
Ltac steps := repeat step.

Section Push.
Variables (c a parent : Z) (s : Stack) (fuel : nat) (p : Z) (o : list Z).
Variable st : State.
Hypothesis Hnode : node (mem st) c a parent s.
Hypothesis Hor : oracle st = p :: o.
Hypothesis Hp0 : p <> 0.
Hypothesis Hal : aligned p.

Lemma custodian_alloc_push n :
  disjoint [p] (c :: c + 8 :: c + 16 :: footprint s) ->
  exists st',
    custodian_alloc fuel c n st = Done (p + 8) st' /\
    trace st' = trace st ++ [EvAlloc a n p] /\
    oracle st' = o /\
    node (mem st') c a parent (Allocation p s) /\
    (forall q, q <> c -> ~ In q [p] -> mem st' q = mem st q).
Proof.
  intros Hfresh. destruct Hnode as (Htop & Ha & Hp & Hr & Hnd).
  unfold custodian_alloc, f_a, f_stack, f_prev, sizeof_CustodianEntry.
  rewrite bind_load, bind_alloc. cbn [mem oracle trace touched].
  rewrite Hor. cbn [hd tl]. apply Z.eqb_neq in Hp0 as Hp0'. rewrite Hp0'.
  rewrite bind_load, !bind_store. cbn [mem oracle trace touched].
  eexists; split; [reflexivity |]. cbn [mem oracle trace touched].
  rewrite Ha, Htop.
  pose proof (Hfresh p (or_introl eq_refl)) as Hf0. simpl in Hf0.
  splits; auto.
  - unfold node. simpl. splits; auto.
    + apply upd_same.
    + rewrite !upd_other by lia. exact Ha.
    + rewrite !upd_other by lia. exact Hp.
    + rewrite upd_other, upd_same by lia. reflexivity.
    + apply repr_upd; [| apply repr_upd; [| exact Hr]].
      * apply NoDup_cons_iff in Hnd. simpl in Hnd. tauto.
      * tauto.
    + apply (NoDup_insert [c; c + 8; c + 16] [p] (footprint s));
        auto using NoDup_block1.
  - intros q Hq1 Hq2. simpl in Hq2. rewrite !upd_other by lia. reflexivity.
Qed.

Lemma custodian_defer_push h f :
  disjoint [p; p + 8; p + 16] (c :: c + 8 :: c + 16 :: footprint s) ->
  exists st',
    custodian_defer fuel c h f st = Done tt st' /\
    trace st' = trace st ++ [EvAlloc a 24 p] /\
    oracle st' = o /\
    node (mem st') c a parent (Resource p h f s) /\
    (forall q, q <> c -> ~ In q [p; p + 8; p + 16] -> mem st' q = mem st q).
Proof.
  intros Hfresh. destruct Hnode as (Htop & Ha & Hp & Hr & Hnd).
  unfold custodian_defer, f_a, f_stack, f_prev, f_ptr, f_cleanup,
    sizeof_CustodianEntry, sizeof_CustodianResource.
  rewrite bind_load, bind_alloc. cbn [mem oracle trace touched].
  rewrite Hor. cbn [hd tl]. apply Z.eqb_neq in Hp0 as Hp0'. rewrite Hp0'.
  rewrite !bind_store, bind_load, !bind_store.
  cbn [mem oracle trace touched].
  eexists; split; [reflexivity |]. cbn [mem oracle trace touched].
  rewrite Ha. replace (p + 8 + 8) with (p + 16) by lia.
  pose proof (Hfresh p) as Hf0. pose proof (Hfresh (p + 8)) as Hf8.
  pose proof (Hfresh (p + 16)) as Hf16. simpl in Hf0, Hf8, Hf16.
  assert (Hc : NoDup (c :: c + 8 :: c + 16 :: footprint s)) by exact Hnd.
  apply NoDup_cons_iff in Hnd as [Hc0 _]. simpl in Hc0.
  splits; auto.
  - unfold node. simpl. splits; auto.
    + apply upd_same.
    + rewrite !upd_other by lia. exact Ha.
    + rewrite !upd_other by lia. exact Hp.
    + rewrite upd_other, upd_same, !upd_other by lia.
      rewrite Htop. reflexivity.
    + rewrite !upd_other by lia. apply upd_same.
    + rewrite !upd_other by lia. apply upd_same.
    + repeat (apply repr_upd; [tauto |]). exact Hr.
    + apply (NoDup_insert [c; c + 8; c + 16] [p; p + 8; p + 16] (footprint s));
        auto using NoDup_block3.
  - intros q Hq1 Hq2. simpl in Hq2. rewrite !upd_other by lia. reflexivity.
Qed.

Lemma custodian_child_create_push :
  disjoint [p; p + 8; p + 16; p + 24] (c :: c + 8 :: c + 16 :: footprint s) ->
  exists st',
    custodian_child_create fuel c st = Done (p + 8) st' /\
    trace st' = trace st ++ [EvAlloc a 32 p] /\
    oracle st' = o /\
    node (mem st') c a parent (ChildScope p Empty s) /\
    node (mem st') (p + 8) a c Empty /\
    (forall q, q <> c -> ~ In q [p; p + 8; p + 16; p + 24] ->
               mem st' q = mem st q).
Proof.
  intros Hfresh. destruct Hnode as (Htop & Ha & Hp & Hr & Hnd).
  unfold custodian_child_create, custodian_init, f_a, f_stack, f_prev,
    f_parent, sizeof_CustodianEntry, sizeof_Custodian.
  rewrite bind_load, bind_alloc. cbn [mem oracle trace touched].
  rewrite Hor. cbn [hd tl]. apply Z.eqb_neq in Hp0 as Hp0'. rewrite Hp0'.
  steps.
  cbn [mem oracle trace touched].
  eexists; split; [reflexivity |]. cbn [mem oracle trace touched].
  rewrite Ha. replace (p + 8 + 8) with (p + 16) by lia.
  replace (p + 8 + 16) with (p + 24) by lia.
  pose proof (Hfresh p) as Hf0. pose proof (Hfresh (p + 8)) as Hf8.
  pose proof (Hfresh (p + 16)) as Hf16. pose proof (Hfresh (p + 24)) as Hf24.
  simpl in Hf0, Hf8, Hf16, Hf24.
  assert (Hc : NoDup (c :: c + 8 :: c + 16 :: footprint s)) by exact Hnd.
  apply NoDup_cons_iff in Hnd as [Hc0 _]. simpl in Hc0.
  assert (Hm0 : forall m v1 v2, upd (upd m p v1) c v2 (p + 8) = m (p + 8)).
  { intros. rewrite !upd_other by lia. reflexivity. }
  splits; auto.
  - unfold node. simpl. splits; auto.
    + apply upd_same.
    + rewrite !upd_other by lia. exact Ha.
    + rewrite !upd_other by lia. exact Hp.
    + rewrite upd_other, upd_same, !upd_other by lia.
      rewrite Htop. reflexivity.
    + rewrite !upd_other by lia. apply upd_same.
    + rewrite !upd_other by lia. apply upd_same.
    + rewrite !upd_other by lia. apply upd_same.
    + repeat (apply repr_upd; [tauto |]). exact Hr.
    + apply (NoDup_insert [c; c + 8; c + 16] [p; p + 8; p + 16; p + 24]
               (footprint s)); auto using NoDup_block4.
  - apply node_empty.
    + rewrite !upd_other by lia. apply upd_same.
    + replace (p + 8 + 8) with (p + 16) by lia.
      rewrite !upd_other by lia. apply upd_same.
    + replace (p + 8 + 16) with (p + 24) by lia.
      rewrite !upd_other by lia. apply upd_same.
  - intros q Hq1 Hq2. simpl in Hq2. rewrite !upd_other by lia. reflexivity.
Qed.
End Push.

Lemma disjoint_incl (l1 l1' l2 : list Z) :
  incl l1' l1 -> disjoint l1 l2 -> disjoint l1' l2.
Proof. intros Hi Hd x Hx. apply Hd, Hi, Hx. Qed.

Lemma custodian_init_fields c parent a st :
  exists st', custodian_init c parent a st = Done tt st' /\
              mem st' (f_stack c) = 0 /\ mem st' (f_a c) = a /\
              mem st' (f_parent c) = parent.
Proof.
  unfold custodian_init, f_stack, f_a, f_parent. steps.
  eexists; split; [reflexivity |]. cbn [mem].
  splits.
  - rewrite !upd_other by lia. apply upd_same.
  - rewrite upd_other by lia. apply upd_same.
  - apply upd_same.
Qed.

(** ** Shutdown *)

(** C2. After [custodian_shutdown] a node is as [custodian_init] leaves it
    (stack NULL, same allocator, same parent), and shutting it down a second
    time calls no cleanup and frees nothing: the trace and the memory stay as
    they are. *)
Theorem custodian_shutdown_idempotent c a parent s fuel fuel2 st :
  node (mem st) c a parent s ->
  (S (need s) <= fuel)%nat -> (2 <= fuel2)%nat ->
  exists st1 st2,
    custodian_shutdown fuel c st = Done tt st1 /\
    mem st1 (f_stack c) = 0 /\
    mem st1 (f_a c) = a /\
    mem st1 (f_parent c) = parent /\
    (forall st0, exists sti,
        custodian_init c parent a st0 = Done tt sti /\
        mem sti (f_stack c) = mem st1 (f_stack c) /\
        mem sti (f_a c) = mem st1 (f_a c) /\
        mem sti (f_parent c) = mem st1 (f_parent c)) /\
    custodian_shutdown fuel2 c st1 = Done tt st2 /\
    trace st2 = trace st1 /\
    oracle st2 = oracle st1 /\
    (forall p, mem st2 p = mem st1 p).
Proof.
  intros Hnode Hfuel Hfuel2.
  destruct (custodian_shutdown_node c a parent s fuel st Hnode Hfuel)
    as (st1 & Hrun1 & _ & _ & _ & _ & Hn1).
  destruct (custodian_shutdown_node c a parent Empty fuel2 st1 Hn1)
    as (st2 & Hrun2 & Ht2 & Ho2 & _ & Hm2 & Hn2); [simpl; lia |].
  destruct Hn1 as (H0 & H8 & H16 & _). destruct Hn2 as (H0' & _).
  simpl in H0, H0'. unfold f_stack, f_a, f_parent.
  exists st1, st2. splits; auto.
  - intros st0.
    destruct (custodian_init_fields c parent a st0) as (sti & Hi & Hi0 & Hi8 & Hi16).
    exists sti. unfold f_stack, f_a, f_parent in *. splits; congruence.
  - rewrite Ht2. simpl. apply app_nil_r.
  - intros p. destruct (Z.eq_dec p c) as [-> | Hpc]; [congruence |].
    apply Hm2; auto.
Qed.

Lemma accesses_footprint s : incl (accesses s) (footprint s).
Proof.
  induction s as [| e b IHb | e p f b IHb | e ch IHch b IHb]; simpl;
    intros q Hq; simpl in Hq.
  - exact Hq.
  - destruct Hq as [H | [H | H]]; [left; exact H | left; exact H |].
    right. apply IHb, H.
  - destruct Hq as [H | [H | [H | H]]];
      [left; exact H | left; exact H | do 2 right; left; exact H |].
    apply in_app_or in H as [H | H].
    + destruct (f =? 0); simpl in H; [tauto |].
      destruct H as [H | [H | []]];
        [do 2 right; left; exact H | right; left; exact H].
    + do 3 right. apply IHb, H.
  - destruct Hq as [H | [H | [H | [H | H]]]];
      [left; exact H | left; exact H | right; left; exact H
      | do 2 right; left; exact H |].
    apply in_app_or in H as [H | [H | H]].
    + do 4 right. apply in_or_app. left. apply IHch, H.
    + right; left; exact H.
    + do 4 right. apply in_or_app. right. apply IHb, H.
Qed.

Lemma count_release a s h f :
  f <> 0 ->
  count_occ Event_eq_dec (release a s) (EvCleanup f h) = count_deferred h f s.
Proof.
  intros Hf.
  induction s as [| e b IHb | e p g b IHb | e ch IHch b IHb];
    cbn [release count_deferred].
  - reflexivity.
  - rewrite count_occ_cons_neq by discriminate. exact IHb.
  - rewrite count_occ_app, count_occ_cons_neq, IHb by discriminate. f_equal.
    destruct (g =? 0) eqn:Hg.
    + apply Z.eqb_eq in Hg. subst g.
      replace (0 =? f) with false by (symmetry; apply Z.eqb_neq; lia).
      rewrite andb_false_r. reflexivity.
    + destruct (Event_eq_dec (EvCleanup g p) (EvCleanup f h)) as [E | E].
      * rewrite count_occ_cons_eq by exact E.
        inversion E; subst. rewrite !Z.eqb_refl. reflexivity.
      * rewrite count_occ_cons_neq by exact E.
        destruct (p =? h) eqn:Hp; destruct (g =? f) eqn:Hgf; try reflexivity.
        apply Z.eqb_eq in Hp, Hgf. subst. contradiction.
  - rewrite count_occ_app, count_occ_cons_neq, IHch, IHb by discriminate.
    reflexivity.
Qed.

Lemma descendant_words s d :
  descendant s d ->
  In d (footprint s) /\ In (d + 8) (footprint s) /\ In (d + 16) (footprint s).
Proof.
  induction s as [| e b IHb | e p f b IHb | e ch IHch b IHb]; simpl; intros Hd.
  - contradiction.
  - destruct (IHb Hd) as (H0 & H8 & H16). splits; right; assumption.
  - destruct (IHb Hd) as (H0 & H8 & H16). splits; do 3 right; assumption.
  - destruct Hd as [-> | [Hd | Hd]].
    + replace (e + 8 + 8) with (e + 16) by lia.
      replace (e + 8 + 16) with (e + 24) by lia. splits; auto 8.
    + destruct (IHch Hd) as (H0 & H8 & H16).
      splits; do 4 right; apply in_or_app; left; assumption.
    + destruct (IHb Hd) as (H0 & H8 & H16).
      splits; do 4 right; apply in_or_app; right; assumption.
Qed.

(** The [a] and [parent] words of a nested child are not among the words a
    shutdown writes. *)
Lemma descendant_fields_kept s d :
  NoDup (footprint s) -> descendant s d ->
  ~ In (d + 8) (stack_fields s) /\ ~ In (d + 16) (stack_fields s).
Proof.
  induction s as [| e b IHb | e p f b IHb | e ch IHch b IHb]; simpl;
    intros Hnd Hd.
  - contradiction.
  - apply NoDup_cons_iff in Hnd as [_ Hnd]. auto.
  - do 3 apply NoDup_cons_iff, proj2 in Hnd. auto.
  - apply NoDup_cons_iff in Hnd as [_ Hnd].
    apply NoDup_cons_iff in Hnd as [H8 Hnd].
    apply NoDup_cons_iff in Hnd as [H16 Hnd].
    apply NoDup_cons_iff in Hnd as [H24 Hnd].
    simpl in H8, H16.
    assert (Hsf : forall q, In q (stack_fields ch ++ stack_fields b) ->
                            In q (footprint ch ++ footprint b)).
    { intros q Hq. apply in_or_app.
      apply in_app_or in Hq as [Hq | Hq];
        [left | right]; apply stack_fields_footprint, Hq. }
    destruct Hd as [-> | [Hd | Hd]].
    + replace (e + 8 + 8) with (e + 16) by lia.
      replace (e + 8 + 16) with (e + 24) by lia.
      split; intros [Hq | Hq]; try lia; apply Hsf in Hq; tauto.
    + destruct (descendant_words ch d Hd) as (_ & Hw8 & Hw16).
      destruct (IHch (NoDup_app_remove_r _ _ Hnd) Hd) as (Hk8 & Hk16).
      split; intros [Hq | Hq].
      * apply H8. do 2 right. apply in_or_app. left. rewrite Hq. exact Hw8.
      * apply in_app_or in Hq as [Hq | Hq]; [exact (Hk8 Hq) |].
        apply stack_fields_footprint in Hq.
        exact (NoDup_app_disjoint _ _ Hnd _ Hw8 Hq).
      * apply H8. do 2 right. apply in_or_app. left. rewrite Hq. exact Hw16.
      * apply in_app_or in Hq as [Hq | Hq]; [exact (Hk16 Hq) |].
        apply stack_fields_footprint in Hq.
        exact (NoDup_app_disjoint _ _ Hnd _ Hw16 Hq).
    + destruct (descendant_words b d Hd) as (_ & Hw8 & Hw16).
      destruct (IHb (NoDup_app_remove_l _ _ Hnd) Hd) as (Hk8 & Hk16).
      split; intros [Hq | Hq].
      * apply H8. do 2 right. apply in_or_app. right. rewrite Hq. exact Hw8.
      * apply in_app_or in Hq as [Hq | Hq]; [| exact (Hk8 Hq)].
        apply stack_fields_footprint in Hq.
        exact (NoDup_app_disjoint _ _ Hnd _ Hq Hw8).
      * apply H8. do 2 right. apply in_or_app. right. rewrite Hq. exact Hw16.
      * apply in_app_or in Hq as [Hq | Hq]; [| exact (Hk16 Hq)].
        apply stack_fields_footprint in Hq.
        exact (NoDup_app_disjoint _ _ Hnd _ Hq Hw16).
Qed.

(** Every child custodian nested in a node's stack is a node in its own
    right, with the same allocator. *)
Lemma descendant_node m a s :
  forall owner d,
    repr m a owner s -> NoDup (footprint s) -> descendant s d ->
    exists owner' ch, node m d a owner' ch.
Proof.
  induction s as [| e b IHb | e p f b IHb | e ch IHch b IHb]; simpl;
    intros owner d Hr Hnd Hd.
  - contradiction.
  - apply NoDup_cons_iff in Hnd as [_ Hnd]. apply (IHb owner); tauto.
  - do 3 apply NoDup_cons_iff, proj2 in Hnd. apply (IHb owner); tauto.
  - destruct Hr as (_ & _ & _ & Ht & Ha & Ho & Hch & Hb).
    apply NoDup_cons_iff in Hnd as [_ Hnd].
    destruct Hd as [-> | [Hd | Hd]].
    + exists owner, ch. unfold node.
      replace (e + 8 + 8) with (e + 16) by lia.
      replace (e + 8 + 16) with (e + 24) by lia.
      splits; auto.
      change (e + 8 :: e + 16 :: e + 24 :: footprint ch ++ footprint b)
        with ((e + 8 :: e + 16 :: e + 24 :: footprint ch) ++ footprint b) in Hnd.
      exact (NoDup_app_remove_r _ _ Hnd).
    + do 3 apply NoDup_cons_iff, proj2 in Hnd.
      apply (IHch (e + 8)); auto. exact (NoDup_app_remove_r _ _ Hnd).
    + do 3 apply NoDup_cons_iff, proj2 in Hnd.
      apply (IHb owner); auto. exact (NoDup_app_remove_l _ _ Hnd).
Qed.

(** C10. The operations on a node never write an [a] or a [parent] field:
    a push that gets its block writes the block and the node's [stack] word
    and nothing else; a shutdown writes [stack] words only, the node's and
    those of the children nested in it.  So each returns with the node's [a]
    and [parent] as they were, and (for the shutdown) with those of every
    nested child as they were.  The custodian, its entries and the new
    block are word-aligned, and so is every word said to be left alone. *)
Theorem custodian_ops_keep_allocator_and_parent c a parent s fuel p o st :
  node (mem st) c a parent s ->
  oracle st = p :: o -> p <> 0 -> aligned p ->
  Forall word_aligned (c :: p :: blocks s) ->
  disjoint [p; p + 8; p + 16; p + 24] (c :: c + 8 :: c + 16 :: footprint s) ->
  (S (need s) <= fuel)%nat ->
  (forall n, exists r st',
      custodian_alloc fuel c n st = Done r st' /\
      mem st' (f_a c) = mem st (f_a c) /\
      mem st' (f_parent c) = mem st (f_parent c) /\
      (forall q, word_aligned q -> q <> f_stack c -> ~ In q [p] ->
                 mem st' q = mem st q)) /\
  (forall h f, exists st',
      custodian_defer fuel c h f st = Done tt st' /\
      mem st' (f_a c) = mem st (f_a c) /\
      mem st' (f_parent c) = mem st (f_parent c) /\
      (forall q, word_aligned q -> q <> f_stack c ->
                 ~ In q [p; p + 8; p + 16] -> mem st' q = mem st q)) /\
  (exists child st',
      custodian_child_create fuel c st = Done child st' /\
      mem st' (f_a c) = mem st (f_a c) /\
      mem st' (f_parent c) = mem st (f_parent c) /\
      mem st' (f_a child) = mem st (f_a c) /\
      mem st' (f_parent child) = c /\
      (forall q, word_aligned q -> q <> f_stack c ->
                 ~ In q [p; p + 8; p + 16; p + 24] ->
                 mem st' q = mem st q)) /\
  (exists st',
      custodian_shutdown fuel c st = Done tt st' /\
      mem st' (f_a c) = mem st (f_a c) /\
      mem st' (f_parent c) = mem st (f_parent c) /\
      (forall q, word_aligned q -> q <> f_stack c ->
                 ~ In q (stack_fields s) -> mem st' q = mem st q) /\
      (forall d, descendant s d ->
                 mem st' (f_a d) = mem st (f_a d) /\
                 mem st' (f_parent d) = mem st (f_parent d))).
Proof.
  intros Hnode Hor Hp0 Hal _ Hfresh Hfuel.
  pose proof Hnode as (_ & Ha & Hp & _ & Hnd). unfold f_a, f_parent, f_stack.
  splits.
  - intros n.
    destruct (custodian_alloc_push c a parent s fuel p o st Hnode Hor Hp0 Hal n)
      as (st' & Hrun & _ & _ & (_ & Ha' & Hp' & _) & Hfr).
    + eapply disjoint_incl; [| exact Hfresh]. intros q Hq. simpl in *. tauto.
    + exists (p + 8), st'. splits; auto; congruence.
  - intros h f.
    destruct (custodian_defer_push c a parent s fuel p o st Hnode Hor Hp0 Hal h f)
      as (st' & Hrun & _ & _ & (_ & Ha' & Hp' & _) & Hfr).
    + eapply disjoint_incl; [| exact Hfresh]. intros q Hq. simpl in *. tauto.
    + exists st'. splits; auto; congruence.
  - destruct (custodian_child_create_push c a parent s fuel p o st Hnode Hor Hp0 Hal Hfresh)
      as (st' & Hrun & _ & _ & (_ & Ha' & Hp' & _) & (_ & Hca & Hcp & _) & Hfr).
    exists (p + 8), st'. splits; auto; congruence.
  - destruct (custodian_shutdown_node c a parent s fuel st Hnode Hfuel)
      as (st' & Hrun & _ & _ & _ & Hfr & (_ & Ha' & Hp' & _)).
    exists st'. splits; auto; try congruence.
    intros d Hd.
    apply NoDup_cons_iff in Hnd as [Hc0 Hnd].
    do 2 apply NoDup_cons_iff, proj2 in Hnd.
    destruct (descendant_fields_kept s d Hnd Hd) as (Hk8 & Hk16).
    destruct (descendant_words s d Hd) as (_ & Hw8 & Hw16).
    split; apply Hfr; auto; intros Heq; apply Hc0; do 2 right;
      rewrite <- Heq; assumption.
Qed.

(** ** Order of release *)

Lemma release_app a x y :
  release a (stack_app x y) = release a x ++ release a y.
Proof.
  induction x as [| e b IHb | e p f b IHb | e ch IHch b IHb]; simpl.
  - reflexivity.
  - rewrite IHb. reflexivity.
  - rewrite IHb, <- app_assoc. reflexivity.
  - rewrite IHb, <- app_assoc. reflexivity.
Qed.

Lemma release_frees_blocks a s e : In e (blocks s) -> In (EvFree a e) (release a s).
Proof.
  induction s as [| e0 b IHb | e0 p f b IHb | e0 ch IHch b IHb]; simpl.
  - tauto.
  - intros [-> | H]; auto.
  - intros [-> | H]; apply in_or_app; right; simpl; auto.
  - intros H. apply in_or_app. apply in_app_or in H as [H | [-> | H]]; simpl; auto.
Qed.

Lemma release_free_inv a s x : In (EvFree a x) (release a s) -> In x (blocks s).
Proof.
  induction s as [| e0 b IHb | e0 p f b IHb | e0 ch IHch b IHb]; simpl.
  - tauto.
  - intros [H | H]; [inversion H; auto | auto].
  - intros H. apply in_app_or in H as [H | [H | H]].
    + destruct (f =? 0); simpl in H; [tauto |]. destruct H as [H | []]; discriminate.
    + inversion H; auto.
    + auto.
  - intros H. apply in_or_app. apply in_app_or in H as [H | [H | H]].
    + auto.
    + inversion H; simpl; auto.
    + simpl; auto.
Qed.

Lemma blocks_app x y : blocks (stack_app x y) = blocks x ++ blocks y.
Proof.
  induction x as [| e b IHb | e p f b IHb | e ch IHch b IHb]; simpl;
    rewrite ?IHb, <- ?app_assoc; reflexivity.
Qed.

Lemma blocks_footprint s : incl (blocks s) (footprint s).
Proof.
  induction s as [| e b IHb | e p f b IHb | e ch IHch b IHb]; simpl;
    intros q Hq.
  - exact Hq.
  - destruct Hq as [H | H]; [left; exact H | right; apply IHb, H].
  - destruct Hq as [H | H]; [left; exact H | do 3 right; apply IHb, H].
  - apply in_app_or in Hq as [H | [H | H]].
    + do 4 right. apply in_or_app. left. apply IHch, H.
    + left; exact H.
    + do 4 right. apply in_or_app. right. apply IHb, H.
Qed.

Lemma blocks_NoDup s : NoDup (footprint s) -> NoDup (blocks s).
Proof.
  induction s as [| e b IHb | e p f b IHb | e ch IHch b IHb]; simpl; intros Hnd.
  - constructor.
  - apply NoDup_cons_iff in Hnd as [Hn Hnd]. constructor; auto.
    intros H. apply Hn, blocks_footprint, H.
  - apply NoDup_cons_iff in Hnd as [Hn Hnd].
    apply NoDup_cons_iff in Hnd as [_ Hnd].
    apply NoDup_cons_iff in Hnd as [_ Hnd]. constructor; auto.
    intros H. apply Hn. do 2 right. apply blocks_footprint, H.
  - apply NoDup_cons_iff in Hnd as [Hn Hnd].
    apply NoDup_cons_iff in Hnd as [_ Hnd].
    apply NoDup_cons_iff in Hnd as [_ Hnd].
    apply NoDup_cons_iff in Hnd as [_ Hnd].
    apply NoDup_app.
    + apply IHch. exact (NoDup_app_remove_r _ _ Hnd).
    + constructor.
      * intros H. apply Hn. do 3 right. apply in_or_app. right.
        apply blocks_footprint, H.
      * apply IHb. exact (NoDup_app_remove_l _ _ Hnd).
    + intros q Hq [<- | Hq'].
      * apply Hn. do 3 right. apply in_or_app. left. apply blocks_footprint, Hq.
      * apply (NoDup_app_disjoint _ _ Hnd q); apply blocks_footprint; assumption.
Qed.

(** C4. A child scope is shut down where its entry sits on the enclosing
    stack: the entries above it go first (no block of the child is freed
    among them), then every entry of the child (nested scopes included),
    then the child's own block, and only then the entries below (none of
    their blocks is freed earlier). *)
Theorem child_released_when_reached c a parent above e ch below fuel st :
  node (mem st) c a parent (stack_app above (ChildScope e ch below)) ->
  (S (need (stack_app above (ChildScope e ch below))) <= fuel)%nat ->
  exists st',
    custodian_shutdown fuel c st = Done tt st' /\
    trace st' = trace st ++ release a above ++ release a ch
                         ++ EvFree a e :: release a below /\
    (forall x, In x (blocks ch) ->
       In (EvFree a x) (release a ch) /\
       ~ In (EvFree a x) (release a above)) /\
    (forall x, In x (blocks below) ->
       In (EvFree a x) (release a below) /\
       ~ In (EvFree a x) (release a above ++ release a ch ++ [EvFree a e])).
Proof.
  intros Hnode Hfuel.
  destruct (custodian_shutdown_node c a parent _ fuel st Hnode Hfuel)
    as (st' & Hrun & Ht & _).
  destruct Hnode as (_ & _ & _ & _ & Hnd).
  do 3 apply NoDup_cons_iff, proj2 in Hnd.
  apply blocks_NoDup in Hnd. rewrite blocks_app in Hnd. simpl in Hnd.
  exists st'. splits; auto.
  - rewrite Ht, release_app. reflexivity.
  - intros x Hx. split; [apply release_frees_blocks, Hx |].
    intros H. apply release_free_inv in H.
    apply (NoDup_app_disjoint _ _ Hnd x H).
    apply in_or_app. left. exact Hx.
  - intros x Hx. split; [apply release_frees_blocks, Hx |].
    intros H. apply in_app_or in H as [H | H].
    + apply release_free_inv in H.
      apply (NoDup_app_disjoint _ _ Hnd x H).
      apply in_or_app. right. right. exact Hx.
    + apply NoDup_app_remove_l in Hnd.
      apply (NoDup_app_disjoint _ (e :: blocks below) Hnd x).
      * apply in_app_or in H as [H | [H | []]].
        -- apply release_free_inv in H. exact H.
        -- inversion H. subst.
           apply NoDup_app_remove_l, NoDup_cons_iff, proj1 in Hnd. contradiction.
      * right. exact Hx.
Qed.

Lemma footprint_entry_of op e s :
  footprint (entry_of op e s) = block (op, e) ++ footprint s.
Proof. destruct op; reflexivity. Qed.

Lemma release_entry_of a op e s :
  release a (entry_of op e s) = released_entry a (op, e) ++ release a s.
Proof.
  destruct op; unfold released_entry; simpl; try reflexivity.
  rewrite <- app_assoc. reflexivity.
Qed.

Lemma need_entry_of op e s : (need (entry_of op e s) <= 3 + need s)%nat.
Proof. destruct op; simpl; lia. Qed.

Lemma release_pushed a pe :
  forall s, release a (pushed pe s) =
            flat_map (released_entry a) (rev pe) ++ release a s.
Proof.
  induction pe as [| [op e] rest IH]; intros s; simpl.
  - reflexivity.
  - unfold pushed in *. simpl. rewrite IH, flat_map_app. simpl.
    rewrite release_entry_of, app_nil_r, <- app_assoc. reflexivity.
Qed.

Lemma need_pushed pe :
  forall s, (need (pushed pe s) <= need s + 3 * List.length pe)%nat.
Proof.
  induction pe as [| [op e] rest IH]; intros s; simpl.
  - lia.
  - unfold pushed in *. simpl. specialize (IH (entry_of op e s)).
    pose proof (need_entry_of op e s). lia.
Qed.

Lemma block_NoDup x : NoDup (block x).
Proof.
  destruct x as [[n | h f |] e]; unfold block; simpl;
    repeat constructor; simpl; lia.
Qed.

Lemma push_node c a parent s fuel op e o st :
  node (mem st) c a parent s ->
  oracle st = e :: o -> e <> 0 -> aligned e ->
  disjoint (block (op, e)) (c :: c + 8 :: c + 16 :: footprint s) ->
  exists st',
    push fuel c op st = Done tt st' /\
    oracle st' = o /\
    node (mem st') c a parent (entry_of op e s).
Proof.
  intros Hnode Hor He Hal Hfresh. destruct op as [n | h f |]; simpl.
  - destruct (custodian_alloc_push c a parent s fuel e o st Hnode Hor He Hal n Hfresh)
      as (st' & Hrun & _ & Ho & Hn & _).
    exists st'. rewrite (bind_done _ _ _ _ _ Hrun). auto.
  - destruct (custodian_defer_push c a parent s fuel e o st Hnode Hor He Hal h f Hfresh)
      as (st' & Hrun & _ & Ho & Hn & _).
    exists st'. auto.
  - destruct (custodian_child_create_push c a parent s fuel e o st Hnode Hor He Hal Hfresh)
      as (st' & Hrun & _ & Ho & Hn & _).
    exists st'. rewrite (bind_done _ _ _ _ _ Hrun). auto.
Qed.

Lemma pushes_node c a parent fuel pe :
  forall s o st,
    node (mem st) c a parent s ->
    oracle st = map snd pe ++ o ->
    Forall (fun x => snd x <> 0 /\ aligned (snd x)) pe ->
    NoDup (c :: c + 8 :: c + 16 :: footprint s ++ flat_map block pe) ->
    exists st',
      pushes fuel c (map fst pe) st = Done tt st' /\
      oracle st' = o /\
      node (mem st') c a parent (pushed pe s).
Proof.
  induction pe as [| [op e] rest IH]; intros s o st Hnode Hor Hall Hnd.
  - exists st. simpl. auto.
  - simpl in Hor, Hnd. inversion Hall as [| ? ? [He Hal] Hall']; subst.
    simpl in He, Hal.
    assert (Hperm : Permutation
              (c :: c + 8 :: c + 16 :: footprint s ++ block (op, e) ++ flat_map block rest)
              (block (op, e) ++
                 (c :: c + 8 :: c + 16 :: footprint s) ++ flat_map block rest)).
    { change (c :: c + 8 :: c + 16 :: footprint s ++ block (op, e) ++ flat_map block rest)
        with ((c :: c + 8 :: c + 16 :: footprint s) ++ block (op, e) ++ flat_map block rest).
      apply Permutation_app_swap_app. }
    pose proof (Permutation_NoDup Hperm Hnd) as Hnd'.
    assert (Hfresh : disjoint (block (op, e)) (c :: c + 8 :: c + 16 :: footprint s)).
    { intros q Hq Hq'. apply (NoDup_app_disjoint _ _ Hnd' q Hq).
      apply in_or_app. left. exact Hq'. }
    destruct (push_node c a parent s fuel op e _ st Hnode Hor He Hal Hfresh)
      as (st1 & Hrun1 & Ho1 & Hn1).
    destruct (IH (entry_of op e s) o st1 Hn1 Ho1 Hall') as (st' & Hrun & Ho & Hn).
    + rewrite footprint_entry_of.
      apply Permutation_NoDup with
        (l := block (op, e) ++
                (c :: c + 8 :: c + 16 :: footprint s) ++ flat_map block rest);
        [| exact Hnd'].
      change (c :: c + 8 :: c + 16 :: (block (op, e) ++ footprint s) ++ flat_map block rest)
        with ([c; c + 8; c + 16] ++ (block (op, e) ++ footprint s) ++ flat_map block rest).
      change ((c :: c + 8 :: c + 16 :: footprint s) ++ flat_map block rest)
        with ([c; c + 8; c + 16] ++ footprint s ++ flat_map block rest).
      rewrite <- app_assoc. apply Permutation_app_swap_app.
    + exists st'. simpl. rewrite (bind_done _ _ _ _ _ Hrun1). auto.
Qed.

(** C3. Entries pushed on a node by [custodian_alloc], [custodian_defer] or
    [custodian_child_create], in any number and mix, are released by
    [custodian_shutdown] in the reverse of the order they were pushed in,
    and before everything that was on the stack already.  The custodian,
    the entries it holds and the blocks it is given are word-aligned and
    their words distinct, so that no two of them share a byte. *)
Theorem shutdown_releases_lifo c a parent s fuel (pe : list (Push * Z)) o st :
  node (mem st) c a parent s ->
  oracle st = map snd pe ++ o ->
  Forall (fun x => snd x <> 0 /\ aligned (snd x)) pe ->
  Forall word_aligned (c :: blocks s ++ map snd pe) ->
  NoDup (c :: c + 8 :: c + 16 :: footprint s ++ flat_map block pe) ->
  (S (need s) + 3 * List.length pe <= fuel)%nat ->
  exists st1 st2,
    pushes fuel c (map fst pe) st = Done tt st1 /\
    custodian_shutdown fuel c st1 = Done tt st2 /\
    trace st2 = trace st1 ++ flat_map (released_entry a) (rev pe) ++ release a s.
Proof.
  intros Hnode Hor Hall _ Hnd Hfuel.
  destruct (pushes_node c a parent fuel pe s o st Hnode Hor Hall Hnd)
    as (st1 & Hrun1 & _ & Hn1).
  destruct (custodian_shutdown_node c a parent _ fuel st1 Hn1)
    as (st2 & Hrun2 & Ht2 & _).
  { pose proof (need_pushed pe s). lia. }
  exists st1, st2. splits; auto.
  rewrite Ht2, release_pushed. reflexivity.
Qed.

Lemma accesses_entry_of op e s :
  accesses (entry_of op e s) = touched_entry (op, e) ++ accesses s.
Proof.
  destruct op as [n | h f |]; unfold touched_entry; simpl; try reflexivity.
  destruct (f =? 0); reflexivity.
Qed.

Lemma accesses_pushed pe :
  forall s, accesses (pushed pe s) =
            flat_map touched_entry (rev pe) ++ accesses s.
Proof.
  induction pe as [| [op e] rest IH]; intros s; simpl.
  - reflexivity.
  - unfold pushed in *. simpl. rewrite IH, flat_map_app. simpl.
    rewrite accesses_entry_of, app_nil_r, <- app_assoc. reflexivity.
Qed.

Lemma touched_entries_in_blocks pe q :
  In q (flat_map touched_entry (rev pe)) -> In q (flat_map block pe).
Proof.
  intros H. apply in_flat_map in H as (x & Hx & Hq).
  apply in_flat_map. exists x. split; [apply in_rev, Hx |].
  apply accesses_footprint, Hq.
Qed.

(** A defer, then more pushes on the same node, then its shutdown. *)
Lemma defer_pushes_shutdown c a parent s fuel p h f pe o st :
  node (mem st) c a parent s ->
  oracle st = p :: map snd pe ++ o ->
  p <> 0 -> aligned p ->
  Forall (fun x => snd x <> 0 /\ aligned (snd x)) pe ->
  NoDup (c :: c + 8 :: c + 16 ::
         footprint s ++ [p; p + 8; p + 16] ++ flat_map block pe) ->
  (S (S (need s)) + 3 * List.length pe <= fuel)%nat ->
  exists st1 st2 st3,
    custodian_defer fuel c h f st = Done tt st1 /\
    pushes fuel c (map fst pe) st1 = Done tt st2 /\
    custodian_shutdown fuel c st2 = Done tt st3 /\
    trace st3 = trace st2 ++ release a (pushed pe (Resource p h f s)) /\
    touched st3 =
    touched st2 ++ c :: c + 8 :: accesses (pushed pe (Resource p h f s)) ++ [c].
Proof.
  intros Hnode Hor Hp0 Hal Hall Hnd Hfuel.
  destruct (pushes_node c a parent fuel ((PushDefer h f, p) :: pe) s o st)
    as (st2 & Hrun & _ & Hn2); auto.
  simpl in Hrun. unfold bind in Hrun.
  destruct (custodian_defer fuel c h f st) as [[] st1 | |] eqn:Hdefer;
    try discriminate.
  destruct (custodian_shutdown_node c a parent _ fuel st2 Hn2)
    as (st3 & Hrun3 & Ht3 & _ & Hto3 & _).
  { change (pushed ((PushDefer h f, p) :: pe) s)
      with (pushed pe (Resource p h f s)).
    pose proof (need_pushed pe (Resource p h f s)) as Hneed.
    cbn [need] in Hneed. lia. }
  exists st1, st2, st3. splits; auto.
Qed.

(** C5. A defer with a NULL cleanup, whatever is pushed on the node after
    it: shutdown makes no cleanup call for the entry and gives its block back
    to the node's allocator, in its turn.  Of the entry it reads the header
    and the cleanup field only; the word that holds the handle is never
    loaded, and the handle is not touched unless it is the address of one of
    the custodian's own words; no access covers the byte the handle points
    to unless one of those words does.  The custodian, its entries and the
    blocks it is given are word-aligned and their words distinct. *)
Theorem defer_null_cleanup c a parent s fuel p h pe o st :
  node (mem st) c a parent s ->
  oracle st = p :: map snd pe ++ o ->
  p <> 0 -> aligned p ->
  Forall (fun x => snd x <> 0 /\ aligned (snd x)) pe ->
  Forall word_aligned (c :: blocks s ++ p :: map snd pe) ->
  NoDup (c :: c + 8 :: c + 16 ::
         footprint s ++ [p; p + 8; p + 16] ++ flat_map block pe) ->
  (S (S (need s)) + 3 * List.length pe <= fuel)%nat ->
  exists st1 st2 st3 reads,
    custodian_defer fuel c h 0 st = Done tt st1 /\
    pushes fuel c (map fst pe) st1 = Done tt st2 /\
    custodian_shutdown fuel c st2 = Done tt st3 /\
    trace st3 = trace st2 ++ flat_map (released_entry a) (rev pe)
                          ++ EvFree a p :: release a s /\
    touched st3 = touched st2 ++ reads /\
    reads = c :: c + 8 ::
            (flat_map touched_entry (rev pe)
               ++ p :: p :: p + 16 :: accesses s) ++ [c] /\
    ~ In (p + 8) reads /\
    (~ In h (c :: c + 8 :: footprint s ++ [p; p + 16] ++ flat_map block pe) ->
     ~ In h reads) /\
    ((forall w,
        In w (c :: c + 8 :: footprint s ++ [p; p + 16] ++ flat_map block pe) ->
        ~ (w <= h < w + 8)) ->
     forall q, In q reads -> ~ (q <= h < q + 8)).
Proof.
  intros Hnode Hor Hp0 Hal Hall _ Hnd Hfuel.
  destruct (defer_pushes_shutdown c a parent s fuel p h 0 pe o st)
    as (st1 & st2 & st3 & H1 & H2 & H3 & Ht & Hto); auto.
  rewrite release_pushed in Ht. rewrite accesses_pushed in Hto.
  simpl in Ht, Hto.
  exists st1, st2, st3,
    (c :: c + 8 ::
       (flat_map touched_entry (rev pe) ++ p :: p :: p + 16 :: accesses s)
       ++ [c]).
  assert (Hin : forall q,
            In q (c :: c + 8 ::
                    (flat_map touched_entry (rev pe)
                       ++ p :: p :: p + 16 :: accesses s) ++ [c]) ->
            In q (c :: c + 8 :: footprint s ++ [p; p + 16] ++ flat_map block pe)).
  { intros q [Hq | [Hq | Hq]]; [left; exact Hq | right; left; exact Hq |].
    apply in_app_or in Hq as [Hq | [Hq | []]]; [| left; exact Hq].
    do 2 right. apply in_or_app.
    apply in_app_or in Hq as [Hq | [Hq | [Hq | [Hq | Hq]]]].
    - right. do 2 right. apply touched_entries_in_blocks, Hq.
    - right. left. exact Hq.
    - right. left. exact Hq.
    - right. right. left. exact Hq.
    - left. apply accesses_footprint, Hq. }
  splits; auto.
  - intros Hq. apply Hin in Hq.
    change (c :: c + 8 :: c + 16 ::
            footprint s ++ [p; p + 8; p + 16] ++ flat_map block pe)
      with ([c; c + 8; c + 16] ++
            footprint s ++ [p] ++ (p + 8) :: [p + 16] ++ flat_map block pe) in Hnd.
    rewrite !app_assoc in Hnd. apply NoDup_remove_2 in Hnd.
    apply Hnd. rewrite <- !app_assoc.
    destruct Hq as [Hq | [Hq | Hq]];
      [left; exact Hq | right; left; exact Hq | do 3 right; exact Hq].
Qed.

(** C9. A defer with a cleanup [f] that is not NULL, whatever is pushed on
    the node after it: shutdown calls [f] with the stored handle [h],
    whatever [h] is (NULL included), right before freeing the entry; that is
    one call more than without the entry, and the calls [f'(h')] made by the
    whole shutdown are as many as the deferred entries that hold the pair.
    The custodian, its entries and the blocks it is given are word-aligned
    and their words distinct. *)
Theorem deferred_cleanup_invoked_once c a parent s fuel p h f pe o st :
  node (mem st) c a parent s ->
  oracle st = p :: map snd pe ++ o ->
  p <> 0 -> aligned p ->
  Forall (fun x => snd x <> 0 /\ aligned (snd x)) pe ->
  Forall word_aligned (c :: blocks s ++ p :: map snd pe) ->
  NoDup (c :: c + 8 :: c + 16 ::
         footprint s ++ [p; p + 8; p + 16] ++ flat_map block pe) ->
  f <> 0 ->
  (S (S (need s)) + 3 * List.length pe <= fuel)%nat ->
  exists st1 st2 st3 calls,
    custodian_defer fuel c h f st = Done tt st1 /\
    pushes fuel c (map fst pe) st1 = Done tt st2 /\
    custodian_shutdown fuel c st2 = Done tt st3 /\
    trace st3 = trace st2 ++ calls /\
    calls = flat_map (released_entry a) (rev pe)
              ++ EvCleanup f h :: EvFree a p :: release a s /\
    count_occ Event_eq_dec calls (EvCleanup f h) =
    S (count_occ Event_eq_dec
         (flat_map (released_entry a) (rev pe) ++ release a s)
         (EvCleanup f h)) /\
    (forall h' f', f' <> 0 ->
       count_occ Event_eq_dec calls (EvCleanup f' h') =
       count_deferred h' f' (pushed pe (Resource p h f s))).
Proof.
  intros Hnode Hor Hp0 Hal Hall _ Hnd Hf Hfuel.
  destruct (defer_pushes_shutdown c a parent s fuel p h f pe o st)
    as (st1 & st2 & st3 & H1 & H2 & H3 & Ht & _); auto.
  assert (Hrel : release a (pushed pe (Resource p h f s)) =
                 flat_map (released_entry a) (rev pe)
                   ++ EvCleanup f h :: EvFree a p :: release a s).
  { rewrite release_pushed. simpl. apply Z.eqb_neq in Hf. rewrite Hf.
    reflexivity. }
  exists st1, st2, st3,
    (flat_map (released_entry a) (rev pe)
       ++ EvCleanup f h :: EvFree a p :: release a s).
  splits; auto.
  - rewrite Ht, Hrel. reflexivity.
  - rewrite !count_occ_app, count_occ_cons_eq by reflexivity.
    rewrite count_occ_cons_neq by discriminate. lia.
  - intros h' f' Hf'. rewrite <- Hrel. apply count_release, Hf'.
Qed.

(** ** Abort *)

Lemma abort_walk_S fuel cur :
  abort_walk (S fuel) cur =
  (p <- load (f_parent cur) ;; if p =? 0 then ret cur else abort_walk fuel p).
Proof. reflexivity. Qed.

Lemma height_lt_need s : (height s < need s)%nat.
Proof. induction s; cbn [height need]; lia. Qed.

Section Walk.
Variables (m : Z -> Z) (a root : Z).

Lemma reaches_child e owner k :
  m (e + 24) = owner -> owner <> 0 ->
  reaches m root owner k -> reaches m root (e + 8) (S k).
Proof.
  intros Hpar Hn Hreach fuel st Hfuel Hm.
  destruct fuel as [| fuel]; [lia |].
  rewrite abort_walk_S. unfold f_parent. rewrite bind_load.
  replace (e + 8 + 16) with (e + 24) by lia.
  assert (Hl : mem st (e + 24) = owner) by (rewrite Hm; exact Hpar).
  rewrite Hl.
  apply Z.eqb_neq in Hn. rewrite Hn.
  destruct (Hreach fuel
              (mkState (mem st) (oracle st) (trace st) (touched st ++ [e + 24])))
    as (st' & Hrun & H1 & H2 & H3); [lia | exact Hm |].
  cbn [mem oracle trace touched] in *. exists st'. auto.
Qed.

Lemma reaches_descendant s :
  forall owner c k,
    repr m a owner s -> owner <> 0 -> descendant s c ->
    reaches m root owner k -> reaches m root c (height s + k).
Proof.
  induction s as [| e b IHb | e p f b IHb | e ch IHch b IHb];
    intros owner c k Hr Hown Hd Hreach; simpl in Hr, Hd; cbn [height].
  - contradiction.
  - apply (IHb owner); tauto.
  - apply (IHb owner); tauto.
  - destruct Hr as (He & (Hrange & _) & _ & _ & _ & Hpar & Hch & Hb).
    assert (Hk : reaches m root (e + 8) (S k)) by (apply (reaches_child e owner); auto).
    destruct Hd as [-> | [Hd | Hd]].
    + intros fuel st Hfuel. apply Hk. lia.
    + assert (H8 : e + 8 <> 0) by lia.
      pose proof (IHch (e + 8) c (S k) Hch H8 Hd Hk) as Hc.
      intros fuel st Hfuel. apply Hc. lia.
    + pose proof (IHb owner c k Hb Hown Hd Hreach) as Hc.
      intros fuel st Hfuel. apply Hc. lia.
Qed.

Lemma reaches_root : m (root + 16) = 0 -> reaches m root root 1.
Proof.
  intros Hpar fuel st Hfuel Hm. destruct fuel as [| fuel]; [lia |].
  rewrite abort_walk_S. unfold f_parent. rewrite bind_load.
  assert (Hl : mem st (root + 16) = 0) by (rewrite Hm; exact Hpar).
  rewrite Hl.
  eexists; split; [reflexivity |]. cbn [mem oracle trace touched]. auto.
Qed.

Lemma abort_walk_in_tree s c fuel st :
  node m root a 0 s -> root <> 0 -> c = root \/ descendant s c ->
  (S (height s) <= fuel)%nat -> mem st = m ->
  exists st', abort_walk fuel c st = Done root st' /\
              mem st' = m /\ trace st' = trace st /\ oracle st' = oracle st.
Proof.
  intros (_ & _ & Hpar & Hr & _) Hroot Hc Hfuel Hm.
  pose proof (reaches_root Hpar) as H1.
  destruct Hc as [-> | Hd].
  - apply H1; [lia | exact Hm].
  - apply (reaches_descendant s root c 1 Hr Hroot Hd H1); [lia | exact Hm].
Qed.
End Walk.

Lemma descendant_allocator m a s :
  forall owner c, repr m a owner s -> descendant s c -> m (c + 8) = a.
Proof.
  induction s as [| e b IHb | e p f b IHb | e ch IHch b IHb];
    intros owner c Hr Hd; simpl in Hr, Hd.
  - contradiction.
  - apply (IHb owner); tauto.
  - apply (IHb owner); tauto.
  - destruct Hr as (_ & _ & _ & _ & Ha & _ & Hch & Hb).
    destruct Hd as [-> | [Hd | Hd]].
    + replace (e + 8 + 8) with (e + 16) by lia. exact Ha.
    + apply (IHch (e + 8)); assumption.
    + apply (IHb owner); assumption.
Qed.

Lemma custodian_abort_never_returns fuel c st x st' :
  custodian_abort fuel c st <> Done x st'.
Proof.
  unfold custodian_abort, bind, abort.
  destruct (abort_walk fuel c st) as [r s1 | |]; try discriminate.
  destruct (custodian_shutdown fuel r s1); discriminate.
Qed.

Lemma custodian_abort_in_tree root a s c fuel st :
  node (mem st) root a 0 s -> root <> 0 -> c = root \/ descendant s c ->
  (S (need s) <= fuel)%nat ->
  exists st',
    custodian_abort fuel c st = Aborted st' /\
    trace st' = trace st ++ release a s /\
    mem st' (f_stack root) = 0.
Proof.
  intros Hnode Hroot Hc Hfuel. unfold custodian_abort.
  pose proof (height_lt_need s) as Hh.
  destruct (abort_walk_in_tree (mem st) a root s c fuel st Hnode Hroot Hc)
    as (st1 & Hrun1 & Hm1 & Ht1 & Ho1); [lia | reflexivity |].
  rewrite (bind_done _ _ _ _ _ Hrun1).
  rewrite <- Hm1 in Hnode.
  destruct (custodian_shutdown_node root a 0 s fuel st1 Hnode Hfuel)
    as (st2 & Hrun2 & Ht2 & _ & _ & _ & (H0 & _)).
  rewrite (bind_done _ _ _ _ _ Hrun2). unfold abort.
  exists st2. splits; [reflexivity | congruence | exact H0].
Qed.

(** C6. When the allocator answers NULL inside [custodian_alloc],
    [custodian_defer] or [custodian_child_create] on a node of a tree, the
    call ends in [abort()]: the parent links lead from the node to the root,
    the root's whole stack is released, and the process is gone.  None of the
    three can return, with whatever fuel, and [custodian_abort] itself never
    returns. *)
Theorem allocation_failure_aborts root a s c fuel st :
  node (mem st) root a 0 s -> root <> 0 ->
  c = root \/ descendant s c ->
  hd 0 (oracle st) = 0 ->
  (S (need s) <= fuel)%nat ->
  (forall st0, mem st0 = mem st ->
     exists st1, abort_walk fuel c st0 = Done root st1) /\
  (forall n, exists st',
      custodian_alloc fuel c n st = Aborted st' /\
      trace st' = trace st ++ EvAlloc a n 0 :: release a s /\
      mem st' (f_stack root) = 0) /\
  (forall h f, exists st',
      custodian_defer fuel c h f st = Aborted st' /\
      trace st' = trace st ++ EvAlloc a 24 0 :: release a s /\
      mem st' (f_stack root) = 0) /\
  (exists st',
      custodian_child_create fuel c st = Aborted st' /\
      trace st' = trace st ++ EvAlloc a 32 0 :: release a s /\
      mem st' (f_stack root) = 0) /\
  (forall k n r st', custodian_alloc k c n st <> Done r st') /\
  (forall k h f r st', custodian_defer k c h f st <> Done r st') /\
  (forall k r st', custodian_child_create k c st <> Done r st') /\
  (forall k c' st0 r st', custodian_abort k c' st0 <> Done r st').
Proof.
  intros Hnode Hroot Hc Hnull Hfuel.
  assert (Ha : mem st (c + 8) = a).
  { destruct Hnode as (_ & Ha & _ & Hr & _). destruct Hc as [-> | Hd];
      [exact Ha | exact (descendant_allocator _ _ _ _ _ Hr Hd)]. }
  assert (Habort : forall e,
            exists st',
              custodian_abort fuel c
                (mkState (mem st) (tl (oracle st)) (trace st ++ [e])
                         (touched st ++ [c + 8])) = Aborted st' /\
              trace st' = trace st ++ e :: release a s /\
              mem st' (f_stack root) = 0).
  { intros e.
    destruct (custodian_abort_in_tree root a s c fuel
                (mkState (mem st) (tl (oracle st)) (trace st ++ [e])
                         (touched st ++ [c + 8])) Hnode Hroot Hc Hfuel)
      as (st' & Hrun & Ht & H0).
    exists st'. cbn [trace] in Ht. rewrite <- app_assoc in Ht. auto. }
  assert (Hnever : forall k (B : Type) (x : B) e r st',
            bind (custodian_abort k c) (fun _ => ret x)
              (mkState (mem st) (tl (oracle st)) (trace st ++ [e])
                       (touched st ++ [c + 8])) <> Done r st').
  { intros k B x e r st'. unfold bind.
    destruct (custodian_abort k c _) eqn:E; try discriminate.
    exfalso. exact (custodian_abort_never_returns _ _ _ _ _ E). }
  splits.
  - intros st0 Hm.
    pose proof (height_lt_need s) as Hh. rewrite <- Hm in Hnode.
    destruct (abort_walk_in_tree (mem st0) a root s c fuel st0 Hnode Hroot Hc)
      as (st1 & Hrun & _); [lia | reflexivity |]. eauto.
  - intros n. unfold custodian_alloc, f_a. rewrite bind_load, bind_alloc.
    cbn [mem oracle trace touched]. rewrite Hnull, Ha. simpl (0 =? 0).
    destruct (Habort (EvAlloc a n 0)) as (st' & Hrun & Ht & H0).
    exists st'. unfold bind at 1. rewrite Hrun. auto.
  - intros h f. unfold custodian_defer, f_a. rewrite bind_load, bind_alloc.
    change (sizeof_CustodianEntry + sizeof_CustodianResource) with 24.
    cbn [mem oracle trace touched]. rewrite Hnull, Ha. simpl (0 =? 0).
    destruct (Habort (EvAlloc a 24 0)) as (st' & Hrun & Ht & H0).
    exists st'. unfold bind at 1. rewrite Hrun. auto.
  - unfold custodian_child_create, f_a. rewrite bind_load, bind_alloc.
    change (sizeof_CustodianEntry + sizeof_Custodian) with 32.
    cbn [mem oracle trace touched]. rewrite Hnull, Ha. simpl (0 =? 0).
    destruct (Habort (EvAlloc a 32 0)) as (st' & Hrun & Ht & H0).
    exists st'. unfold bind at 1. rewrite Hrun. auto.
  - intros k n r st'. unfold custodian_alloc, f_a. rewrite bind_load, bind_alloc.
    cbn [mem oracle trace touched]. rewrite Hnull. simpl (0 =? 0). apply Hnever.
  - intros k h f r st'. unfold custodian_defer, f_a. rewrite bind_load, bind_alloc.
    cbn [mem oracle trace touched]. rewrite Hnull. simpl (0 =? 0). apply Hnever.
  - intros k r st'. unfold custodian_child_create, f_a.
    rewrite bind_load, bind_alloc.
    cbn [mem oracle trace touched]. rewrite Hnull. simpl (0 =? 0). apply Hnever.
  - intros. apply custodian_abort_never_returns.
Qed.

(** ** The runner *)

Open Scope string_scope.

Lemma read_line_nl_only_last k :
  forall input, nl_only_last (fst (read_line k input)) = true.
Proof.
  induction k as [| k IH]; intros input; simpl.
  - reflexivity.
  - destruct input as [| ch rest]; [reflexivity |].
    destruct (is_nl ch) eqn:Hch; [reflexivity |].
    specialize (IH rest). destruct (read_line k rest) as [l r]. simpl in IH |- *.
    destruct l; [reflexivity |]. rewrite Hch. exact IH.
Qed.

Lemma c_str_nl_only_last s : nl_only_last s = true -> nl_only_last (c_str s) = true.
Proof.
  induction s as [| ch rest IH]; simpl; [reflexivity |].
  destruct (is_nul ch); [reflexivity |].
  destruct rest as [| c2 r]; [reflexivity |].
  intros H. apply andb_true_iff in H as [H1 H2]. specialize (IH H2).
  simpl in IH |- *. destruct (is_nul c2); [reflexivity |].
  rewrite H1. exact IH.
Qed.

Lemma only_diag_lines_app s t :
  nl_only_last s = true ->
  only_diag_lines false (s ++ t) = only_diag_lines (ends_with_nl s) t.
Proof.
  induction s as [| ch rest IH]; [reflexivity |].
  destruct rest as [| c2 r]; [reflexivity |].
  intros H. cbn [nl_only_last] in H. apply andb_true_iff in H as [H1 H2].
  apply negb_true_iff in H1.
  change ((String ch (String c2 r)) ++ t) with (String ch ((String c2 r) ++ t)).
  cbn [only_diag_lines ends_with_nl]. rewrite H1. apply IH, H2.
Qed.

Lemma diag_loop_only_diag fuel :
  forall input fresh, only_diag_lines fresh (diag_loop fuel input fresh) = true.
Proof.
  induction fuel as [| fuel IH]; intros input fresh; [reflexivity |].
  cbn [diag_loop].
  pose proof (read_line_nl_only_last (BUFLEN - 1) input) as Hbuf.
  unfold fgets. destruct (read_line (BUFLEN - 1) input) as [buf rest].
  cbn [fst] in Hbuf. destruct buf as [| b0 buf']; [reflexivity |].
  apply c_str_nl_only_last in Hbuf.
  set (line_buf := c_str (String b0 buf')) in *.
  assert (Hmid : only_diag_lines false
            (line_buf ++
             (if ends_with_nl line_buf then diag_loop fuel rest true
              else if (String.length line_buf <? BUFLEN - 1)%nat
                   then nl ++ diag_loop fuel rest true
                   else diag_loop fuel rest false)) = true).
  { rewrite only_diag_lines_app by exact Hbuf.
    destruct (ends_with_nl line_buf); [apply IH |].
    destruct (String.length line_buf <? BUFLEN - 1)%nat; [| apply IH].
    change (nl ++ diag_loop fuel rest true)
      with (String "010" (diag_loop fuel rest true)).
    cbn [only_diag_lines]. apply IH. }
  destruct fresh; [| exact Hmid].
  change ("#: " ++ ?x) with (String "#" (String ":" (String " " x))).
  exact Hmid.
Qed.

Lemma replay_only_diag env : only_diag_lines true (replay env) = true.
Proof.
  unfold replay, diagnostics. destruct (fdopen_ok env); [| reflexivity].
  apply diag_loop_only_diag.
Qed.

(** With the Linux encoding a status is never both an exit and a kill, so
    the signal cases below need no side condition there. *)
Lemma linux_signaled_not_exited status :
  WIFSIGNALED linux status = true -> WIFEXITED linux status = false.
Proof.
  unfold linux; simpl. intros H. apply andb_true_iff in H as [_ H].
  apply negb_true_iff in H. exact H.
Qed.

(** C7. How the runner words a child's wait status, for the test with
    index [i] and display name [display]: one line, chosen by the five cases,
    and after it nothing but '#' lines (none at all for a pass). *)
Theorem wait_status_classification W i display env :
  mkstemp_fd env <> (-1)%Z -> (0 < fork_pid env)%Z ->
  let status := wait_status env in
  (WIFEXITED W status = true -> WEXITSTATUS W status = 0%Z ->
   test_block W i display env = "ok " ++ dec i ++ " - " ++ display ++ nl) /\
  (WIFEXITED W status = true -> WEXITSTATUS W status <> 0%Z ->
   test_block W i display env =
   ("not ok " ++ dec i ++ " - " ++ display ++
      " (exit code: " ++ dec (WEXITSTATUS W status) ++ ")" ++ nl)
   ++ replay env) /\
  (WIFEXITED W status = false -> WIFSIGNALED W status = true ->
   WTERMSIG W status = SIGALRM W ->
   test_block W i display env =
   ("not ok " ++ dec i ++ " - " ++ display ++ " (timeout after 10s)" ++ nl)
   ++ replay env) /\
  (WIFEXITED W status = false -> WIFSIGNALED W status = true ->
   WTERMSIG W status <> SIGALRM W ->
   test_block W i display env =
   ("not ok " ++ dec i ++ " - " ++ display ++
      " (killed by signal " ++ dec (WTERMSIG W status) ++ ")" ++ nl)
   ++ replay env) /\
  (WIFEXITED W status = false -> WIFSIGNALED W status = false ->
   test_block W i display env =
   ("not ok " ++ dec i ++ " - " ++ display ++ " (unknown failure)" ++ nl)
   ++ replay env) /\
  only_diag_lines true (replay env) = true.
Proof.
  intros Hfd Hpid status.
  assert (Hblock : test_block W i display env = parent_block W i display env).
  { unfold test_block. apply Z.eqb_neq in Hfd.
    assert (Hnz : (fork_pid env =? 0)%Z = false) by (apply Z.eqb_neq; lia).
    apply Z.ltb_lt in Hpid. rewrite Hfd, Hnz, Hpid. reflexivity. }
  rewrite Hblock. unfold parent_block, failure_line. fold status.
  repeat split.
  - intros He Hs. rewrite He, Hs. reflexivity.
  - intros He Hs. apply Z.eqb_neq in Hs. rewrite He, Hs. reflexivity.
  - intros He Hsig Ht. apply Z.eqb_eq in Ht. rewrite He, Hsig, Ht. reflexivity.
  - intros He Hsig Ht. apply Z.eqb_neq in Ht. rewrite He, Hsig, Ht. reflexivity.
  - intros He Hsig. rewrite He, Hsig. reflexivity.
  - apply replay_only_diag.
Qed.

Close Scope string_scope.

(** ** Where the code falls short *)

Lemma custodian_alloc_request fuel c n p o st :
  oracle st = p :: o -> p <> 0 ->
  exists st',
    custodian_alloc fuel c n st = Done (p + sizeof_CustodianEntry) st' /\
    trace st' = trace st ++ [EvAlloc (mem st (f_a c)) n p].
Proof.
  intros Hor Hp. unfold custodian_alloc. rewrite bind_load, bind_alloc.
  cbn [mem oracle trace touched]. rewrite Hor. cbn [hd tl].
  apply Z.eqb_neq in Hp. rewrite Hp. steps.
  eexists; split; reflexivity.
Qed.

(** C1, at [custodian_alloc(c, 100)] (the first call of [test_program]) with
    the allocator answering 0x1000: the allocator is asked for 100 bytes, not
    for header plus 100, and the caller gets 0x1008; the 100 bytes promised
    from there end 8 bytes past the block.  [custodian_defer] next to it asks
    for header plus payload.  With size 0 the header itself is written into
    an empty block. *)
Theorem custodian_alloc_block_lacks_header_room :
  (exists st',
     custodian_alloc 100 root0 100 (boot [0x1000]) = Done (0x1000 + 8) st' /\
     trace st' = [EvAlloc alloc0 100 0x1000] /\
     0x1000 + 100 < (0x1000 + 8) + 100) /\
  (exists st',
     custodian_defer 100 root0 0 cleaner (boot [0x1000]) = Done tt st' /\
     trace st' =
     [EvAlloc alloc0 (sizeof_CustodianEntry + sizeof_CustodianResource) 0x1000]) /\
  (exists st',
     custodian_alloc 100 root0 0 (boot [0x1000]) = Done (0x1000 + 8) st' /\
     trace st' = [EvAlloc alloc0 0 0x1000] /\
     In 0x1000 (touched st')).
Proof.
  splits.
  - eexists. splits; [vm_compute; reflexivity | reflexivity | reflexivity].
  - eexists. splits; [vm_compute; reflexivity | reflexivity].
  - eexists. splits; [vm_compute; reflexivity | reflexivity |].
    vm_compute. tauto.
Qed.

Open Scope string_scope.

(** C8, at a capture of 1023 bytes with no newline (one full read buffer):
    the diagnostics are the prefix and the 1023 bytes, and no newline is
    added, so the block does not end its last line and the result line of
    the next test is glued to it.  One byte less and the newline is there. *)
Theorem full_buffer_last_line_gets_no_newline :
  let full := repeat_char "a" 1023 in
  let failed := mkEnv 3 4711 6 true full in
  let passed := mkEnv 3 4711 0 true "" in
  diagnostics full = "#: " ++ full /\
  ends_with_nl (diagnostics full) = false /\
  ends_with_nl (test_block linux 1 "test_program()" failed) = false /\
  main linux failed passed passed passed passed =
    "TAP version 14" ++ nl ++ "1..5" ++ nl ++
    "not ok 1 - test_program() (killed by signal 6)" ++ nl ++
    "#: " ++ full ++ "ok 2 - test_add(2, 3, 5)" ++ nl ++
    "ok 3 - test_segfault()" ++ nl ++
    "ok 4 - test_add(2, 3, 6)" ++ nl ++
    "ok 5 - test_add(4, 8, 12)" ++ nl /\
  diagnostics (repeat_char "a" 1022) = "#: " ++ repeat_char "a" 1022 ++ nl.
Proof. vm_compute. repeat split. Qed.

Close Scope string_scope.

(** ** The theorems at a concrete run *)

Ltac concrete_nodup :=
  repeat (apply NoDup_cons;
          [ simpl; intros Hin;
            repeat (destruct Hin as [Hin | Hin]; [discriminate Hin |]);
            exact Hin
          | ]);
  apply NoDup_nil.

Ltac concrete_node :=
  unfold node; cbn [repr top footprint app];
  repeat match goal with
    | |- _ /\ _ => split
    | |- True => exact I
    | |- aligned _ => vm_compute; intuition congruence
    | |- _ <> _ => discriminate
    | |- @eq Z _ _ => vm_compute; reflexivity
    | |- NoDup _ => vm_compute; concrete_nodup
    end.

Lemma busy_node more : node (mem (busy more)) root0 alloc0 0 busy_stack.
Proof. unfold busy_stack. concrete_node. Qed.

Ltac concrete_word_aligned :=
  let q := fresh "q" in
  let Hq := fresh "Hq" in
  apply Forall_forall; intros q Hq; vm_compute in Hq;
  repeat (destruct Hq as [Hq | Hq]; [subst q; vm_compute; reflexivity |]);
  destruct Hq.

Ltac concrete_disjoint :=
  let x := fresh "x" in
  let H1 := fresh "H" in
  let H2 := fresh "H" in
  intros x H1 H2; vm_compute in H1, H2;
  repeat (destruct H1 as [H1 | H1];
          [ subst x;
            repeat (destruct H2 as [H2 | H2]; [discriminate H2 |]);
            exact H2
          | ]);
  exact H1.

Lemma custodian_shutdown_idempotent_witness :
  node (mem (busy [])) root0 alloc0 0 busy_stack /\
  (S (need busy_stack) <= 100)%nat /\ (2 <= 2)%nat /\
  exists st1 st2,
    custodian_shutdown 100 root0 (busy []) = Done tt st1 /\
    mem st1 (f_stack root0) = 0 /\
    mem st1 (f_a root0) = alloc0 /\
    mem st1 (f_parent root0) = 0 /\
    custodian_shutdown 2 root0 st1 = Done tt st2 /\
    trace st2 = trace st1.
Proof.
  assert (Hfuel : (S (need busy_stack) <= 100)%nat) by (simpl; lia).
  splits; [apply busy_node | exact Hfuel | lia |].
  destruct (custodian_shutdown_idempotent root0 alloc0 0 busy_stack 100 2
              (busy []) (busy_node []) Hfuel (le_n 2))
    as (st1 & st2 & H1 & H2 & H3 & H4 & _ & H5 & H6 & _).
  exists st1, st2. splits; assumption.
Defined.

Lemma shutdown_releases_lifo_witness :
  let pe := [(PushAlloc 64, 0x2000); (PushDefer 0 cleaner, 0x2100);
             (PushChild, 0x2200)] in
  let st := busy [0x2000; 0x2100; 0x2200] in
  node (mem st) root0 alloc0 0 busy_stack /\
  oracle st = map snd pe ++ [] /\
  Forall (fun x => snd x <> 0 /\ aligned (snd x)) pe /\
  Forall word_aligned (root0 :: blocks busy_stack ++ map snd pe) /\
  NoDup (root0 :: root0 + 8 :: root0 + 16 ::
         footprint busy_stack ++ flat_map block pe) /\
  (S (need busy_stack) + 3 * List.length pe <= 100)%nat /\
  exists st1 st2,
    pushes 100 root0 (map fst pe) st = Done tt st1 /\
    custodian_shutdown 100 root0 st1 = Done tt st2 /\
    trace st2 =
    trace st1 ++
      [EvFree alloc0 0x2200;
       EvCleanup cleaner 0; EvFree alloc0 0x2100;
       EvFree alloc0 0x2000] ++ release alloc0 busy_stack.
Proof.
  intros pe st.
  assert (Hor : oracle st = map snd pe ++ []) by (vm_compute; reflexivity).
  assert (Hall : Forall (fun x => snd x <> 0 /\ aligned (snd x)) pe).
  { repeat constructor; try discriminate; vm_compute; intuition congruence. }
  assert (Hnd : NoDup (root0 :: root0 + 8 :: root0 + 16 ::
                       footprint busy_stack ++ flat_map block pe))
    by (vm_compute; concrete_nodup).
  assert (Hfuel : (S (need busy_stack) + 3 * List.length pe <= 100)%nat)
    by (simpl; lia).
  assert (Hwa : Forall word_aligned
                        (root0 :: blocks busy_stack ++ map snd pe))
    by concrete_word_aligned.
  splits; [apply busy_node | exact Hor | exact Hall | exact Hwa | exact Hnd
          | exact Hfuel |].
  exact (shutdown_releases_lifo root0 alloc0 0 busy_stack 100 pe [] st
           (busy_node _) Hor Hall Hwa Hnd Hfuel).
Defined.

Lemma child_released_when_reached_witness :
  let above := Allocation 0x1600 Empty in
  let ch := Allocation 0x1500 (Allocation 0x1400 Empty) in
  let below :=
    Allocation 0x1200 (Resource 0x1100 0 cleaner (Allocation 0x1000 Empty)) in
  node (mem (busy [])) root0 alloc0 0
       (stack_app above (ChildScope 0x1300 ch below)) /\
  (S (need (stack_app above (ChildScope 0x1300 ch below))) <= 100)%nat /\
  exists st',
    custodian_shutdown 100 root0 (busy []) = Done tt st' /\
    trace st' =
    trace (busy []) ++
      [EvFree alloc0 0x1600] ++
      [EvFree alloc0 0x1500; EvFree alloc0 0x1400] ++
      EvFree alloc0 0x1300 ::
      [EvFree alloc0 0x1200; EvCleanup cleaner 0; EvFree alloc0 0x1100;
       EvFree alloc0 0x1000].
Proof.
  intros above ch below.
  assert (Hfuel : (S (need (stack_app above (ChildScope 0x1300 ch below)))
                   <= 100)%nat) by (simpl; lia).
  splits; [apply (busy_node []) | exact Hfuel |].
  destruct (child_released_when_reached root0 alloc0 0 above 0x1300 ch below
              100 (busy []) (busy_node []) Hfuel) as (st' & Hrun & Ht & _).
  exists st'. split; [exact Hrun | exact Ht].
Defined.

Lemma defer_null_cleanup_witness :
  let st := busy [0x2000; 0x2100] in
  let pe := [(PushAlloc 64, 0x2100)] in
  let h := 0xdead in
  node (mem st) root0 alloc0 0 busy_stack /\
  oracle st = 0x2000 :: map snd pe ++ [] /\ 0x2000 <> 0 /\ aligned 0x2000 /\
  Forall (fun x => snd x <> 0 /\ aligned (snd x)) pe /\
  Forall word_aligned (root0 :: blocks busy_stack ++ 0x2000 :: map snd pe) /\
  NoDup (root0 :: root0 + 8 :: root0 + 16 ::
         footprint busy_stack ++ [0x2000; 0x2000 + 8; 0x2000 + 16]
         ++ flat_map block pe) /\
  (S (S (need busy_stack)) + 3 * List.length pe <= 100)%nat /\
  exists st1 st2 st3 reads,
    custodian_defer 100 root0 h 0 st = Done tt st1 /\
    pushes 100 root0 (map fst pe) st1 = Done tt st2 /\
    custodian_shutdown 100 root0 st2 = Done tt st3 /\
    trace st3 = trace st2 ++ [EvFree alloc0 0x2100]
                          ++ EvFree alloc0 0x2000 :: release alloc0 busy_stack /\
    touched st3 = touched st2 ++ reads /\
    ~ In (0x2000 + 8) reads /\
    ~ In h reads.
Proof.
  intros st pe h.
  assert (Hor : oracle st = 0x2000 :: map snd pe ++ []) by (vm_compute; reflexivity).
  assert (Hp0 : 0x2000 <> 0) by discriminate.
  assert (Hal : aligned 0x2000) by (vm_compute; intuition congruence).
  assert (Hall : Forall (fun x => snd x <> 0 /\ aligned (snd x)) pe).
  { repeat constructor; try discriminate; vm_compute; intuition congruence. }
  assert (Hnd : NoDup (root0 :: root0 + 8 :: root0 + 16 ::
                       footprint busy_stack ++ [0x2000; 0x2000 + 8; 0x2000 + 16]
                       ++ flat_map block pe))
    by (vm_compute; concrete_nodup).
  assert (Hfuel : (S (S (need busy_stack)) + 3 * List.length pe <= 100)%nat)
    by (simpl; lia).
  assert (Hwa : Forall word_aligned
                        (root0 :: blocks busy_stack ++ 0x2000 :: map snd pe))
    by concrete_word_aligned.
  splits; [apply busy_node | exact Hor | exact Hp0 | exact Hal | exact Hall
          | exact Hwa | exact Hnd | exact Hfuel |].
  destruct (defer_null_cleanup root0 alloc0 0 busy_stack 100 0x2000 h pe [] st
              (busy_node _) Hor Hp0 Hal Hall Hwa Hnd Hfuel)
    as (st1 & st2 & st3 & reads & H1 & H2 & H3 & H4 & H5 & _ & H7 & H8 & _).
  exists st1, st2, st3, reads. splits; try assumption.
  apply H8. vm_compute.
  intros Hin; repeat (destruct Hin as [Hin | Hin]; [discriminate Hin |]);
    exact Hin.
Defined.

Lemma deferred_cleanup_invoked_once_witness :
  let st := busy [0x2000; 0x2100] in
  let pe := [(PushAlloc 64, 0x2100)] in
  node (mem st) root0 alloc0 0 busy_stack /\
  oracle st = 0x2000 :: map snd pe ++ [] /\ 0x2000 <> 0 /\ aligned 0x2000 /\
  Forall (fun x => snd x <> 0 /\ aligned (snd x)) pe /\
  Forall word_aligned (root0 :: blocks busy_stack ++ 0x2000 :: map snd pe) /\
  NoDup (root0 :: root0 + 8 :: root0 + 16 ::
         footprint busy_stack ++ [0x2000; 0x2000 + 8; 0x2000 + 16]
         ++ flat_map block pe) /\
  cleaner <> 0 /\
  (S (S (need busy_stack)) + 3 * List.length pe <= 100)%nat /\
  exists st1 st2 st3 calls,
    custodian_defer 100 root0 0 cleaner st = Done tt st1 /\
    pushes 100 root0 (map fst pe) st1 = Done tt st2 /\
    custodian_shutdown 100 root0 st2 = Done tt st3 /\
    trace st3 = trace st2 ++ calls /\
    calls = [EvFree alloc0 0x2100] ++
            EvCleanup cleaner 0 :: EvFree alloc0 0x2000 ::
            release alloc0 busy_stack /\
    count_occ Event_eq_dec calls (EvCleanup cleaner 0) = 2%nat.
Proof.
  intros st pe.
  assert (Hor : oracle st = 0x2000 :: map snd pe ++ []) by (vm_compute; reflexivity).
  assert (Hp0 : 0x2000 <> 0) by discriminate.
  assert (Hal : aligned 0x2000) by (vm_compute; intuition congruence).
  assert (Hall : Forall (fun x => snd x <> 0 /\ aligned (snd x)) pe).
  { repeat constructor; try discriminate; vm_compute; intuition congruence. }
  assert (Hnd : NoDup (root0 :: root0 + 8 :: root0 + 16 ::
                       footprint busy_stack ++ [0x2000; 0x2000 + 8; 0x2000 + 16]
                       ++ flat_map block pe))
    by (vm_compute; concrete_nodup).
  assert (Hf : cleaner <> 0) by discriminate.
  assert (Hfuel : (S (S (need busy_stack)) + 3 * List.length pe <= 100)%nat)
    by (simpl; lia).
  assert (Hwa : Forall word_aligned
                        (root0 :: blocks busy_stack ++ 0x2000 :: map snd pe))
    by concrete_word_aligned.
  splits; [apply busy_node | exact Hor | exact Hp0 | exact Hal | exact Hall
          | exact Hwa | exact Hnd | exact Hf | exact Hfuel |].
  destruct (deferred_cleanup_invoked_once root0 alloc0 0 busy_stack 100 0x2000
              0 cleaner pe [] st (busy_node _) Hor Hp0 Hal Hall Hwa Hnd Hf
              Hfuel)
    as (st1 & st2 & st3 & calls & H1 & H2 & H3 & H4 & H5 & H6 & _).
  exists st1, st2, st3, calls. splits; try assumption.
Defined.

Lemma custodian_ops_keep_allocator_and_parent_witness :
  let st := busy [0x2000] in
  node (mem st) root0 alloc0 0 busy_stack /\
  oracle st = [0x2000] /\ 0x2000 <> 0 /\ aligned 0x2000 /\
  Forall word_aligned (root0 :: 0x2000 :: blocks busy_stack) /\
  disjoint [0x2000; 0x2000 + 8; 0x2000 + 16; 0x2000 + 24]
           (root0 :: root0 + 8 :: root0 + 16 :: footprint busy_stack) /\
  (S (need busy_stack) <= 100)%nat /\
  (exists r st',
      custodian_alloc 100 root0 64 st = Done r st' /\
      mem st' (f_a root0) = alloc0 /\ mem st' (f_parent root0) = 0) /\
  (exists st',
      custodian_shutdown 100 root0 st = Done tt st' /\
      mem st' (f_a root0) = alloc0 /\ mem st' (f_parent root0) = 0).
Proof.
  intros st.
  assert (Hor : oracle st = [0x2000]) by (vm_compute; reflexivity).
  assert (Hp0 : 0x2000 <> 0) by discriminate.
  assert (Hal : aligned 0x2000) by (vm_compute; intuition congruence).
  assert (Hfresh : disjoint [0x2000; 0x2000 + 8; 0x2000 + 16; 0x2000 + 24]
            (root0 :: root0 + 8 :: root0 + 16 :: footprint busy_stack))
    by concrete_disjoint.
  assert (Hfuel : (S (need busy_stack) <= 100)%nat) by (simpl; lia).
  assert (Hwa : Forall word_aligned (root0 :: 0x2000 :: blocks busy_stack))
    by concrete_word_aligned.
  splits; [apply busy_node | exact Hor | exact Hp0 | exact Hal | exact Hwa
          | exact Hfresh | exact Hfuel | |];
    destruct (custodian_ops_keep_allocator_and_parent root0 alloc0 0 busy_stack
                100 0x2000 [] st (busy_node _) Hor Hp0 Hal Hwa Hfresh Hfuel)
      as (Halloc & _ & _ & Hshut).
  - destruct (Halloc 64) as (r & st' & H1 & H2 & H3 & _).
    exists r, st'. splits; [exact H1 | rewrite H2 | rewrite H3];
      vm_compute; reflexivity.
  - destruct Hshut as (st' & H1 & H2 & H3 & _).
    exists st'. splits; [exact H1 | rewrite H2 | rewrite H3];
      vm_compute; reflexivity.
Defined.

Lemma allocation_failure_aborts_witness :
  let st := busy [] in
  let child := 0x1300 + 8 in
  node (mem st) root0 alloc0 0 busy_stack /\ root0 <> 0 /\
  (child = root0 \/ descendant busy_stack child) /\
  hd 0 (oracle st) = 0 /\
  (S (need busy_stack) <= 100)%nat /\
  (exists st1, abort_walk 100 child st = Done root0 st1) /\
  (exists st',
      custodian_alloc 100 child 300 st = Aborted st' /\
      trace st' = trace st ++ EvAlloc alloc0 300 0 :: release alloc0 busy_stack /\
      mem st' (f_stack root0) = 0).
Proof.
  intros st child.
  assert (Hroot : root0 <> 0) by discriminate.
  assert (Hc : child = root0 \/ descendant busy_stack child)
    by (right; vm_compute; left; reflexivity).
  assert (Hnull : hd 0 (oracle st) = 0) by (vm_compute; reflexivity).
  assert (Hfuel : (S (need busy_stack) <= 100)%nat) by (simpl; lia).
  splits; [apply busy_node | exact Hroot | exact Hc | exact Hnull | exact Hfuel
          | |];
    destruct (allocation_failure_aborts root0 alloc0 busy_stack child 100 st
                (busy_node _) Hroot Hc Hnull Hfuel)
      as (Hwalk & Halloc & _).
  - exact (Hwalk st eq_refl).
  - exact (Halloc 300).
Defined.

Open Scope string_scope.

Lemma wait_status_classification_witness :
  let env := mkEnv 3 4711 6 true ("Assertion failed" ++ nl) in
  mkstemp_fd env <> (-1)%Z /\ (0 < fork_pid env)%Z /\
  test_block linux 4 "test_add(2, 3, 6)" env =
  "not ok 4 - test_add(2, 3, 6) (killed by signal 6)" ++ nl ++
  "#: Assertion failed" ++ nl.
Proof.
  intros env.
  assert (Hfd : mkstemp_fd env <> (-1)%Z) by discriminate.
  assert (Hpid : (0 < fork_pid env)%Z) by reflexivity.
  splits; [exact Hfd | exact Hpid |].
  destruct (wait_status_classification linux 4 "test_add(2, 3, 6)" env Hfd Hpid)
    as (_ & _ & _ & Hsig & _).
  rewrite Hsig; [reflexivity | reflexivity | reflexivity | discriminate].
Defined.

Close Scope string_scope.

(** * Further properties of the code *)

(** ** custodian.c: the tag in the link word *)

Lemma land_low_bits p t :
  p mod 4 = 0 -> 0 <= t < 4 -> Z.land p t = 0.
Proof.
  intros Hp Ht. apply Z.bits_inj'. intros n Hn.
  rewrite Z.land_spec, Z.bits_0.
  destruct (Z.ltb_spec n 2) as [Hlt | Hge].
  - replace (Z.testbit p n) with false; [reflexivity |].
    symmetry. rewrite <- (Z.mod_pow2_bits_low p 2 n) by lia.
    change (2 ^ 2) with 4. rewrite Hp. apply Z.bits_0.
  - replace (Z.testbit t n) with false; [apply andb_false_r |].
    symmetry. rewrite <- (Z.mod_small t (2 ^ 2)) by (change (2 ^ 2) with 4; lia).
    apply Z.mod_pow2_bits_high. lia.
Qed.

Lemma ptr_tag_add p t :
  p mod 4 = 0 -> 0 <= t < 4 -> ptr_tag p t = p + t.
Proof.
  intros Hp Ht. unfold ptr_tag. rewrite (land_tag_small t Ht).
  pose proof (Zbitwise.Z.add_lor_land p t) as H.
  rewrite (land_low_bits p t Hp Ht) in H. lia.
Qed.

(** X1. Tagging a 4-aligned pointer and taking the word apart again gives
    the pointer back and the tag reduced to its two low bits, whatever [int]
    is passed as the tag. *)
Theorem ptr_tag_round_trip p tag :
  aligned p ->
  ptr_untag (ptr_tag p tag) = p /\
  ptr_tag_get (ptr_tag p tag) = tag mod 4.
Proof.
  intros Hal.
  assert (Hmask : Z.land tag TAG_MASK = tag mod 4).
  { unfold TAG_MASK. change 3 with (Z.ones 2). rewrite Z.land_ones by lia.
    reflexivity. }
  assert (Ht : 0 <= tag mod 4 < 4) by (apply Z.mod_pos_bound; lia).
  assert (Hsame : ptr_tag p tag = ptr_tag p (tag mod 4)).
  { unfold ptr_tag. rewrite Hmask, (land_tag_small _ Ht). reflexivity. }
  rewrite Hsame. split.
  - apply ptr_untag_tag; assumption.
  - apply ptr_tag_get_tag; assumption.
Qed.

Lemma ptr_tag_round_trip_witness :
  aligned 0x1300 /\
  ptr_untag (ptr_tag 0x1300 6) = 0x1300 /\
  ptr_tag_get (ptr_tag 0x1300 6) = 2.
Proof.
  assert (Hal : aligned 0x1300) by (vm_compute; intuition congruence).
  split; [exact Hal |].
  exact (ptr_tag_round_trip 0x1300 6 Hal).
Defined.

(** X2. Every 64-bit link word splits into its two parts: [ptr_untag]
    clears the two low bits (the result is 4-aligned), [ptr_tag_get] keeps
    only them, and tagging the one with the other gives the word back. *)
Theorem link_word_splits x :
  0 <= x < 2^64 ->
  ptr_untag x = x - x mod 4 /\
  ptr_tag_get x = x mod 4 /\
  aligned (ptr_untag x) /\
  ptr_tag (ptr_untag x) (ptr_tag_get x) = x.
Proof.
  intros Hx.
  assert (Ht : 0 <= x mod 4 < 4) by (apply Z.mod_pos_bound; lia).
  assert (Hp : aligned (x - x mod 4)).
  { pose proof (Z.mod_le x 4 ltac:(lia) ltac:(lia)) as Hle.
    split; [destruct Hx; split; lia |].
    rewrite Zminus_mod, Zmod_mod, Z.sub_diag. reflexivity. }
  assert (Hx' : x = ptr_tag (x - x mod 4) (x mod 4)).
  { rewrite ptr_tag_add; [lia | apply Hp | exact Ht]. }
  assert (Hu : ptr_untag x = x - x mod 4).
  { rewrite Hx' at 1. apply ptr_untag_tag; assumption. }
  assert (Hg : ptr_tag_get x = x mod 4).
  { rewrite Hx' at 1. apply ptr_tag_get_tag; assumption. }
  rewrite Hu, Hg. splits; auto.
Qed.

Lemma link_word_splits_witness :
  0 <= 0x1302 < 2^64 /\
  ptr_untag 0x1302 = 0x1300 /\ ptr_tag_get 0x1302 = 2 /\
  ptr_tag (ptr_untag 0x1302) (ptr_tag_get 0x1302) = 0x1302.
Proof.
  assert (Hx : 0 <= 0x1302 < 2^64) by (vm_compute; intuition congruence).
  split; [exact Hx |].
  destruct (link_word_splits 0x1302 Hx) as (H1 & H2 & _ & H4).
  splits; [rewrite H1 | rewrite H2 | exact H4]; reflexivity.
Defined.

(** ** custodian.c: init and shutdown *)


Lemma release_events a s ev :
  In ev (release a s) ->
  (exists e, ev = EvFree a e /\ In e (blocks s)) \/
  (exists f h, ev = EvCleanup f h /\ f <> 0).
Proof.
  induction s as [| e b IHb | e p f b IHb | e ch IHch b IHb]; simpl.
  - tauto.
  - intros [<- | H].
    + left. exists e. auto.
    + destruct (IHb H) as [(x & -> & Hx) | Hc]; [left; exists x; auto | right; exact Hc].
  - intros H. apply in_app_or in H as [H | [<- | H]].
    + destruct (f =? 0) eqn:Hf; simpl in H; [tauto |].
      destruct H as [<- | []]. right. exists f, p. split; [reflexivity |].
      apply Z.eqb_neq, Hf.
    + left. exists e. auto.
    + destruct (IHb H) as [(x & -> & Hx) | Hc]; [left; exists x; auto | right; exact Hc].
  - intros H. apply in_app_or in H as [H | [<- | H]].
    + destruct (IHch H) as [(x & -> & Hx) | Hc]; [| right; exact Hc].
      left. exists x. split; [reflexivity |]. apply in_or_app. auto.
    + left. exists e. split; [reflexivity |]. apply in_or_app. simpl. auto.
    + destruct (IHb H) as [(x & -> & Hx) | Hc]; [| right; exact Hc].
      left. exists x. split; [reflexivity |]. apply in_or_app. simpl. auto.
Qed.

Lemma count_free_release a s e :
  count_occ Event_eq_dec (release a s) (EvFree a e) =
  count_occ Z.eq_dec (blocks s) e.
Proof.
  induction s as [| e0 b IHb | e0 p f b IHb | e0 ch IHch b IHb];
    cbn [release blocks].
  - reflexivity.
  - destruct (Z.eq_dec e0 e) as [-> | Hne].
    + rewrite !count_occ_cons_eq by reflexivity. rewrite IHb. reflexivity.
    + rewrite !count_occ_cons_neq by congruence. exact IHb.
  - rewrite count_occ_app.
    replace (count_occ Event_eq_dec (if f =? 0 then [] else [EvCleanup f p])
               (EvFree a e)) with 0%nat.
    2:{ destruct (f =? 0); [reflexivity |].
        rewrite count_occ_cons_neq by discriminate. reflexivity. }
    destruct (Z.eq_dec e0 e) as [-> | Hne].
    + rewrite !count_occ_cons_eq by reflexivity. rewrite IHb. reflexivity.
    + rewrite !count_occ_cons_neq by congruence. exact IHb.
  - rewrite !count_occ_app, IHch. f_equal.
    destruct (Z.eq_dec e0 e) as [-> | Hne].
    + rewrite !count_occ_cons_eq by reflexivity. rewrite IHb. reflexivity.
    + rewrite !count_occ_cons_neq by congruence. exact IHb.
Qed.

(** X4. A shutdown gives every block of the node's stack (nested children
    included) back exactly once, through the node's allocator; it frees
    nothing else, allocates nothing, and its only other calls are the
    non-NULL cleanups. *)
Theorem shutdown_frees_each_block_once c a parent s fuel st :
  node (mem st) c a parent s -> (S (need s) <= fuel)%nat ->
  exists st' calls,
    custodian_shutdown fuel c st = Done tt st' /\
    trace st' = trace st ++ calls /\
    oracle st' = oracle st /\
    (forall e, In e (blocks s) ->
               count_occ Event_eq_dec calls (EvFree a e) = 1%nat) /\
    (forall a' e, In (EvFree a' e) calls -> a' = a /\ In e (blocks s)) /\
    (forall a' n r, ~ In (EvAlloc a' n r) calls) /\
    (forall f h, In (EvCleanup f h) calls -> f <> 0).
Proof.
  intros Hnode Hfuel.
  destruct (custodian_shutdown_node c a parent s fuel st Hnode Hfuel)
    as (st' & Hrun & Ht & Ho & _).
  destruct Hnode as (_ & _ & _ & _ & Hnd).
  do 3 apply NoDup_cons_iff, proj2 in Hnd. apply blocks_NoDup in Hnd.
  exists st', (release a s). splits; auto.
  - intros e He. rewrite count_free_release.
    pose proof (proj1 (NoDup_count_occ Z.eq_dec (blocks s)) Hnd e) as Hle.
    pose proof (proj1 (count_occ_In Z.eq_dec (blocks s) e) He) as Hgt. lia.
  - intros a' e H. destruct (release_events a s _ H) as [(x & Hx & Hin) | (f & h & Hx & _)];
      [inversion Hx; subst; auto | discriminate].
  - intros a' n r H. destruct (release_events a s _ H) as [(x & Hx & _) | (f & h & Hx & _)];
      discriminate.
  - intros f h H. destruct (release_events a s _ H) as [(x & Hx & _) | (f' & h' & Hx & Hf)];
      [discriminate | inversion Hx; subst; exact Hf].
Qed.

Lemma shutdown_frees_each_block_once_witness :
  node (mem (busy [])) root0 alloc0 0 busy_stack /\
  (S (need busy_stack) <= 100)%nat /\
  exists st' calls,
    custodian_shutdown 100 root0 (busy []) = Done tt st' /\
    trace st' = trace (busy []) ++ calls /\
    count_occ Event_eq_dec calls (EvFree alloc0 0x1400) = 1%nat /\
    (forall a' n r, ~ In (EvAlloc a' n r) calls).
Proof.
  assert (Hfuel : (S (need busy_stack) <= 100)%nat) by (simpl; lia).
  splits; [apply busy_node | exact Hfuel |].
  destruct (shutdown_frees_each_block_once root0 alloc0 0 busy_stack 100
              (busy []) (busy_node []) Hfuel)
    as (st' & calls & H1 & H2 & _ & H4 & _ & H6 & _).
  exists st', calls. splits; auto.
  apply H4. vm_compute. tauto.
Defined.

(** X5. A shutdown reads and writes only words of the node and of its
    entries; the node's own [parent] link is not among them. *)
Theorem shutdown_touches_own_words c a parent s fuel st :
  node (mem st) c a parent s -> (S (need s) <= fuel)%nat ->
  exists st' reads,
    custodian_shutdown fuel c st = Done tt st' /\
    touched st' = touched st ++ reads /\
    incl reads (f_stack c :: f_a c :: footprint s) /\
    ~ In (f_parent c) reads.
Proof.
  intros Hnode Hfuel.
  destruct (custodian_shutdown_node c a parent s fuel st Hnode Hfuel)
    as (st' & Hrun & _ & _ & Hto & _).
  destruct Hnode as (_ & _ & _ & _ & Hnd).
  unfold f_stack, f_a, f_parent.
  assert (Hincl : incl (c :: c + 8 :: accesses s ++ [c])
                       (c :: c + 8 :: footprint s)).
  { intros q [Hq | [Hq | Hq]]; [left; exact Hq | right; left; exact Hq |].
    apply in_app_or in Hq as [Hq | [Hq | []]]; [| left; exact Hq].
    do 2 right. apply accesses_footprint, Hq. }
  exists st', (c :: c + 8 :: accesses s ++ [c]). splits; auto.
  intros Hq. apply Hincl in Hq.
  apply NoDup_cons_iff in Hnd as [_ Hnd].
  apply NoDup_cons_iff in Hnd as [_ Hnd].
  apply NoDup_cons_iff in Hnd as [H16 _].
  destruct Hq as [Hq | [Hq | Hq]]; [lia | lia | contradiction].
Qed.

Lemma shutdown_touches_own_words_witness :
  node (mem (busy [])) root0 alloc0 0 busy_stack /\
  (S (need busy_stack) <= 100)%nat /\
  exists st' reads,
    custodian_shutdown 100 root0 (busy []) = Done tt st' /\
    touched st' = touched (busy []) ++ reads /\
    ~ In (f_parent root0) reads.
Proof.
  assert (Hfuel : (S (need busy_stack) <= 100)%nat) by (simpl; lia).
  splits; [apply busy_node | exact Hfuel |].
  destruct (shutdown_touches_own_words root0 alloc0 0 busy_stack 100
              (busy []) (busy_node []) Hfuel)
    as (st' & reads & H1 & H2 & _ & H4).
  exists st', reads. splits; assumption.
Defined.

(** ** custodian.c: abort when the parent links never end *)

(** X7. [custodian_abort] has no guard against parent links that never
    reach NULL: started inside a set of nodes that is closed under [parent]
    and holds no root, the walk does not end, so neither the shutdown nor
    [abort()] is ever reached. *)
Theorem abort_walk_never_ends (P : Z -> Prop) c st :
  (forall x, P x -> mem st (f_parent x) <> 0 /\ P (mem st (f_parent x))) ->
  P c ->
  forall fuel,
    abort_walk fuel c st = OutOfFuel /\
    custodian_abort fuel c st = OutOfFuel.
Proof.
  intros Hclosed Hc fuel.
  assert (Hwalk : forall k x st0, P x -> mem st0 = mem st ->
                                  abort_walk k x st0 = OutOfFuel).
  { induction k as [| k IH]; intros x st0 Hx Hm; [reflexivity |].
    rewrite abort_walk_S, bind_load.
    destruct (Hclosed x Hx) as (Hn & Hp). rewrite Hm.
    apply Z.eqb_neq in Hn. rewrite Hn. apply IH; [exact Hp | reflexivity]. }
  split; [apply Hwalk; auto |].
  unfold custodian_abort, bind. rewrite Hwalk; auto.
Qed.

Lemma abort_walk_never_ends_witness :
  let st := mkState (fun q => if q =? 0x7010 then 0x7000 else 0) [] [] [] in
  (forall x, x = 0x7000 ->
             mem st (f_parent x) <> 0 /\ mem st (f_parent x) = 0x7000) /\
  custodian_abort 1000 0x7000 st = OutOfFuel.
Proof.
  intros st.
  assert (Hclosed : forall x, x = 0x7000 ->
            mem st (f_parent x) <> 0 /\ mem st (f_parent x) = 0x7000).
  { intros x ->. split; [discriminate | reflexivity]. }
  split; [exact Hclosed |].
  exact (proj2 (abort_walk_never_ends (fun x => x = 0x7000) 0x7000 st
                  Hclosed eq_refl 1000)).
Defined.

(** ** custodian.c: what is allocated is what is freed *)

Lemma push_node_trace c a parent s fuel op e o st :
  node (mem st) c a parent s ->
  oracle st = e :: o -> e <> 0 -> aligned e ->
  disjoint (block (op, e)) (c :: c + 8 :: c + 16 :: footprint s) ->
  exists st',
    push fuel c op st = Done tt st' /\
    oracle st' = o /\
    trace st' = trace st ++ [alloc_event a (op, e)] /\
    node (mem st') c a parent (entry_of op e s) /\
    (forall q, q <> c -> ~ In q (block (op, e)) -> mem st' q = mem st q).
Proof.
  intros Hnode Hor He Hal Hfresh. destruct op as [n | h f |]; simpl.
  - destruct (custodian_alloc_push c a parent s fuel e o st Hnode Hor He Hal n Hfresh)
      as (st' & Hrun & Ht & Ho & Hn & Hfr).
    exists st'. rewrite (bind_done _ _ _ _ _ Hrun). auto.
  - destruct (custodian_defer_push c a parent s fuel e o st Hnode Hor He Hal h f Hfresh)
      as (st' & Hrun & Ht & Ho & Hn & Hfr).
    exists st'. auto.
  - destruct (custodian_child_create_push c a parent s fuel e o st Hnode Hor He Hal Hfresh)
      as (st' & Hrun & Ht & Ho & Hn & _ & Hfr).
    exists st'. rewrite (bind_done _ _ _ _ _ Hrun). auto.
Qed.

Lemma fresh_blocks_step c s op e rest :
  NoDup (c :: c + 8 :: c + 16 ::
         footprint s ++ flat_map block ((op, e) :: rest)) ->
  disjoint (block (op, e)) (c :: c + 8 :: c + 16 :: footprint s) /\
  NoDup (c :: c + 8 :: c + 16 ::
         footprint (entry_of op e s) ++ flat_map block rest).
Proof.
  intros Hnd. simpl in Hnd.
  assert (Hperm : Permutation
            (c :: c + 8 :: c + 16 :: footprint s ++ block (op, e) ++ flat_map block rest)
            (block (op, e) ++
               (c :: c + 8 :: c + 16 :: footprint s) ++ flat_map block rest)).
  { change (c :: c + 8 :: c + 16 :: footprint s ++ block (op, e) ++ flat_map block rest)
      with ((c :: c + 8 :: c + 16 :: footprint s) ++ block (op, e) ++ flat_map block rest).
    apply Permutation_app_swap_app. }
  pose proof (Permutation_NoDup Hperm Hnd) as Hnd'.
  split.
  - intros q Hq Hq'. apply (NoDup_app_disjoint _ _ Hnd' q Hq).
    apply in_or_app. left. exact Hq'.
  - rewrite footprint_entry_of.
    apply Permutation_NoDup with
      (l := block (op, e) ++
              (c :: c + 8 :: c + 16 :: footprint s) ++ flat_map block rest);
      [| exact Hnd'].
    change (c :: c + 8 :: c + 16 :: (block (op, e) ++ footprint s) ++ flat_map block rest)
      with ([c; c + 8; c + 16] ++ (block (op, e) ++ footprint s) ++ flat_map block rest).
    change ((c :: c + 8 :: c + 16 :: footprint s) ++ flat_map block rest)
      with ([c; c + 8; c + 16] ++ footprint s ++ flat_map block rest).
    rewrite <- app_assoc. apply Permutation_app_swap_app.
Qed.

Lemma pushes_node_trace c a parent fuel pe :
  forall s o st,
    node (mem st) c a parent s ->
    oracle st = map snd pe ++ o ->
    Forall (fun x => snd x <> 0 /\ aligned (snd x)) pe ->
    NoDup (c :: c + 8 :: c + 16 :: footprint s ++ flat_map block pe) ->
    exists st',
      pushes fuel c (map fst pe) st = Done tt st' /\
      oracle st' = o /\
      trace st' = trace st ++ map (alloc_event a) pe /\
      node (mem st') c a parent (pushed pe s).
Proof.
  induction pe as [| [op e] rest IH]; intros s o st Hnode Hor Hall Hnd.
  - exists st. simpl. rewrite app_nil_r. auto.
  - simpl in Hor. inversion Hall as [| ? ? [He Hal] Hall']; subst.
    simpl in He, Hal.
    destruct (fresh_blocks_step c s op e rest Hnd) as (Hfresh & Hnd').
    destruct (push_node_trace c a parent s fuel op e _ st Hnode Hor He Hal Hfresh)
      as (st1 & Hrun1 & Ho1 & Ht1 & Hn1 & _).
    destruct (IH (entry_of op e s) o st1 Hn1 Ho1 Hall' Hnd')
      as (st' & Hrun & Ho & Ht & Hn).
    exists st'. simpl. rewrite (bind_done _ _ _ _ _ Hrun1).
    splits; auto. rewrite Ht, Ht1, <- app_assoc. reflexivity.
Qed.

Lemma blocks_pushed pe :
  forall s, blocks (pushed pe s) = rev (map snd pe) ++ blocks s.
Proof.
  induction pe as [| [op e] rest IH]; intros s; simpl; [reflexivity |].
  unfold pushed in *. simpl. rewrite IH, <- app_assoc.
  destruct op; reflexivity.
Qed.

(** X8. Pushes followed by a shutdown are balanced: each push asks the
    node's allocator once, for the size [request] gives (the caller's own
    size for [custodian_alloc], header plus payload for the other two), and
    the shutdown hands every block so obtained back to that allocator
    exactly once.  The custodian, its entries and the blocks it is given
    are word-aligned and their words distinct, and the entries are
    word-aligned afterwards too. *)
Theorem pushed_blocks_are_freed_once c a parent s fuel (pe : list (Push * Z)) o st :
  node (mem st) c a parent s ->
  oracle st = map snd pe ++ o ->
  Forall (fun x => snd x <> 0 /\ aligned (snd x)) pe ->
  Forall word_aligned (c :: blocks s ++ map snd pe) ->
  NoDup (c :: c + 8 :: c + 16 :: footprint s ++ flat_map block pe) ->
  (S (need s) + 3 * List.length pe <= fuel)%nat ->
  exists st1 st2 calls,
    pushes fuel c (map fst pe) st = Done tt st1 /\
    trace st1 = trace st ++ map (alloc_event a) pe /\
    oracle st1 = o /\
    custodian_shutdown fuel c st1 = Done tt st2 /\
    trace st2 = trace st1 ++ calls /\
    (forall x, In x pe ->
               count_occ Event_eq_dec calls (EvFree a (snd x)) = 1%nat) /\
    (forall a' n r, ~ In (EvAlloc a' n r) calls) /\
    Forall word_aligned (blocks (pushed pe s)).
Proof.
  intros Hnode Hor Hall Hwa Hnd Hfuel.
  destruct (pushes_node_trace c a parent fuel pe s o st Hnode Hor Hall Hnd)
    as (st1 & Hrun1 & Ho1 & Ht1 & Hn1).
  destruct (custodian_shutdown_node c a parent _ fuel st1 Hn1)
    as (st2 & Hrun2 & Ht2 & _).
  { pose proof (need_pushed pe s). lia. }
  destruct Hn1 as (_ & _ & _ & _ & Hnd1).
  do 3 apply NoDup_cons_iff, proj2 in Hnd1. apply blocks_NoDup in Hnd1.
  exists st1, st2, (release a (pushed pe s)). splits; auto.
  - intros x Hx. rewrite count_free_release.
    assert (Hin : In (snd x) (blocks (pushed pe s))).
    { rewrite blocks_pushed. apply in_or_app. left.
      apply -> in_rev. apply in_map, Hx. }
    pose proof (proj1 (NoDup_count_occ Z.eq_dec _) Hnd1 (snd x)) as Hle.
    pose proof (proj1 (count_occ_In Z.eq_dec _ _) Hin) as Hgt. lia.
  - intros a' n r H.
    destruct (release_events a _ _ H) as [(y & Hy & _) | (f & h & Hy & _)];
      discriminate.
  - rewrite blocks_pushed. apply Forall_forall. intros q Hq.
    apply Forall_cons_iff, proj2 in Hwa.
    apply (proj1 (Forall_forall _ _) Hwa).
    apply in_app_or in Hq as [Hq | Hq]; apply in_or_app;
      [right; apply in_rev, Hq | left; exact Hq].
Qed.

Lemma pushed_blocks_are_freed_once_witness :
  let pe := [(PushAlloc 64, 0x2000); (PushDefer 0 cleaner, 0x2100);
             (PushChild, 0x2200)] in
  let st := busy [0x2000; 0x2100; 0x2200] in
  node (mem st) root0 alloc0 0 busy_stack /\
  oracle st = map snd pe ++ [] /\
  Forall (fun x => snd x <> 0 /\ aligned (snd x)) pe /\
  Forall word_aligned (root0 :: blocks busy_stack ++ map snd pe) /\
  NoDup (root0 :: root0 + 8 :: root0 + 16 ::
         footprint busy_stack ++ flat_map block pe) /\
  (S (need busy_stack) + 3 * List.length pe <= 100)%nat /\
  exists st1 st2 calls,
    pushes 100 root0 (map fst pe) st = Done tt st1 /\
    trace st1 = trace st ++ [EvAlloc alloc0 64 0x2000; EvAlloc alloc0 24 0x2100;
                             EvAlloc alloc0 32 0x2200] /\
    custodian_shutdown 100 root0 st1 = Done tt st2 /\
    trace st2 = trace st1 ++ calls /\
    count_occ Event_eq_dec calls (EvFree alloc0 0x2100) = 1%nat.
Proof.
  intros pe st.
  assert (Hor : oracle st = map snd pe ++ []) by (vm_compute; reflexivity).
  assert (Hall : Forall (fun x => snd x <> 0 /\ aligned (snd x)) pe).
  { repeat constructor; try discriminate; vm_compute; intuition congruence. }
  assert (Hnd : NoDup (root0 :: root0 + 8 :: root0 + 16 ::
                       footprint busy_stack ++ flat_map block pe))
    by (vm_compute; concrete_nodup).
  assert (Hfuel : (S (need busy_stack) + 3 * List.length pe <= 100)%nat)
    by (simpl; lia).
  assert (Hwa : Forall word_aligned
                        (root0 :: blocks busy_stack ++ map snd pe))
    by concrete_word_aligned.
  splits; [apply busy_node | exact Hor | exact Hall | exact Hwa | exact Hnd
          | exact Hfuel |].
  destruct (pushed_blocks_are_freed_once root0 alloc0 0 busy_stack 100 pe [] st
              (busy_node _) Hor Hall Hwa Hnd Hfuel)
    as (st1 & st2 & calls & H1 & H2 & _ & H4 & H5 & H6 & _).
  exists st1, st2, calls. splits; auto.
  apply (H6 (PushDefer 0 cleaner, 0x2100)). simpl. auto.
Defined.

(** ** custodian.c: operations on a nested child, seen from the root *)

Lemma subtree_in s d chd :
  subtree s d = Some chd ->
  In d (footprint s) /\ incl (footprint chd) (footprint s).
Proof.
  induction s as [| e b IHb | e p f b IHb | e ch IHch b IHb]; simpl; intros H.
  - discriminate.
  - destruct (IHb H) as (H1 & H2). split; [right; exact H1 |].
    intros q Hq. right. apply H2, Hq.
  - destruct (IHb H) as (H1 & H2). split; [do 3 right; exact H1 |].
    intros q Hq. do 3 right. apply H2, Hq.
  - destruct (Z.eqb_spec d (e + 8)) as [-> | Hne].
    + inversion H; subst. split; [right; left; reflexivity |].
      intros q Hq. do 4 right. apply in_or_app. left. exact Hq.
    + destruct (subtree ch d) as [x |] eqn:Hch.
      * inversion H; subst. destruct (IHch eq_refl) as (H1 & H2).
        split; [do 4 right; apply in_or_app; left; exact H1 |].
        intros q Hq. do 4 right. apply in_or_app. left. apply H2, Hq.
      * destruct (IHb H) as (H1 & H2).
        split; [do 4 right; apply in_or_app; right; exact H1 |].
        intros q Hq. do 4 right. apply in_or_app. right. apply H2, Hq.
Qed.

Lemma subtree_none_not_in s d :
  ~ In d (footprint s) -> subtree s d = None.
Proof.
  intros Hn. destruct (subtree s d) as [x |] eqn:H; [| reflexivity].
  exfalso. apply Hn. exact (proj1 (subtree_in s d x H)).
Qed.

Lemma graft_none s d new : subtree s d = None -> graft d new s = s.
Proof.
  induction s as [| e b IHb | e p f b IHb | e ch IHch b IHb]; simpl; intros H.
  - reflexivity.
  - rewrite IHb by exact H. reflexivity.
  - rewrite IHb by exact H. reflexivity.
  - destruct (d =? e + 8); [discriminate |].
    destruct (subtree ch d) eqn:Hch; [discriminate |].
    rewrite IHch, IHb by auto. reflexivity.
Qed.

Lemma top_graft s d new : top (graft d new s) = top s.
Proof. destruct s; simpl; try reflexivity. destruct (d =? e + 8); reflexivity. Qed.

Lemma descendant_subtree s d :
  descendant s d -> exists chd, subtree s d = Some chd.
Proof.
  induction s as [| e b IHb | e p f b IHb | e ch IHch b IHb]; simpl; intros H.
  - contradiction.
  - auto.
  - auto.
  - destruct (Z.eqb_spec d (e + 8)) as [-> | Hne]; [eauto |].
    destruct H as [H | [H | H]]; [contradiction | |].
    + destruct (IHch H) as (x & ->). eauto.
    + destruct (subtree ch d); [eauto | auto].
Qed.

(** The four ways a stack is laid out as a list (its words, its blocks, its
    releases, its accesses) all keep a child's part in one piece, and a
    graft swaps that piece. *)
Section Segment.
Variable T : Type.
Variable part : Stack -> list T.
Variables (alloc_part : Z -> list T) (res_part : Z -> Z -> Z -> list T).
Variables (child_pre child_mid : Z -> list T).
Hypothesis part_Empty : part Empty = [].
Hypothesis part_Allocation :
  forall e b, part (Allocation e b) = alloc_part e ++ part b.
Hypothesis part_Resource :
  forall e p f b, part (Resource e p f b) = res_part e p f ++ part b.
Hypothesis part_ChildScope :
  forall e ch b,
    part (ChildScope e ch b) = child_pre e ++ part ch ++ child_mid e ++ part b.

Lemma graft_segment s :
  forall d chd,
    NoDup (footprint s) -> subtree s d = Some chd ->
    exists l1 l2,
      part s = l1 ++ part chd ++ l2 /\
      forall new, part (graft d new s) = l1 ++ part new ++ l2.
Proof.
  induction s as [| e b IHb | e p f b IHb | e ch IHch b IHb];
    intros d chd Hnd H; simpl in H.
  - discriminate.
  - simpl in Hnd. apply NoDup_cons_iff in Hnd as [_ Hnd].
    destruct (IHb d chd Hnd H) as (l1 & l2 & H1 & H2).
    exists (alloc_part e ++ l1), l2. split.
    + rewrite part_Allocation, H1, <- app_assoc. reflexivity.
    + intros new. simpl. rewrite part_Allocation, H2, <- app_assoc. reflexivity.
  - simpl in Hnd. do 3 apply NoDup_cons_iff, proj2 in Hnd.
    destruct (IHb d chd Hnd H) as (l1 & l2 & H1 & H2).
    exists (res_part e p f ++ l1), l2. split.
    + rewrite part_Resource, H1, <- app_assoc. reflexivity.
    + intros new. simpl. rewrite part_Resource, H2, <- app_assoc. reflexivity.
  - simpl in Hnd. do 4 apply NoDup_cons_iff, proj2 in Hnd.
    destruct (Z.eqb_spec d (e + 8)) as [-> | Hne].
    + inversion H; subst. exists (child_pre e), (child_mid e ++ part b). split.
      * apply part_ChildScope.
      * intros new. simpl. rewrite Z.eqb_refl. apply part_ChildScope.
    + assert (Hd : (d =? e + 8) = false) by (apply Z.eqb_neq; exact Hne).
      destruct (subtree ch d) as [x |] eqn:Hch.
      * inversion H; subst.
        destruct (IHch d chd (NoDup_app_remove_r _ _ Hnd) Hch)
          as (l1 & l2 & H1 & H2).
        assert (Hb : subtree b d = None).
        { apply subtree_none_not_in. intros Hin.
          exact (NoDup_app_disjoint _ _ Hnd d (proj1 (subtree_in _ _ _ Hch)) Hin). }
        exists (child_pre e ++ l1), (l2 ++ child_mid e ++ part b). split.
        -- rewrite part_ChildScope, H1, <- !app_assoc. reflexivity.
        -- intros new. simpl. rewrite Hd, part_ChildScope, H2.
           rewrite (graft_none b d new Hb), <- !app_assoc. reflexivity.
      * destruct (IHb d chd (NoDup_app_remove_l _ _ Hnd) H)
          as (l1 & l2 & H1 & H2).
        exists (child_pre e ++ part ch ++ child_mid e ++ l1), l2. split.
        -- rewrite part_ChildScope, H1, <- !app_assoc. reflexivity.
        -- intros new. simpl. rewrite Hd, part_ChildScope, H2.
           rewrite (graft_none ch d new Hch), <- !app_assoc. reflexivity.
Qed.
End Segment.

Lemma footprint_segment s d chd :
  NoDup (footprint s) -> subtree s d = Some chd ->
  exists l1 l2,
    footprint s = l1 ++ footprint chd ++ l2 /\
    forall new, footprint (graft d new s) = l1 ++ footprint new ++ l2.
Proof.
  apply (graft_segment Z footprint
           (fun e => [e]) (fun e _ _ => [e; e + 8; e + 16])
           (fun e => [e; e + 8; e + 16; e + 24]) (fun _ => []));
    reflexivity.
Qed.

Lemma blocks_segment s d chd :
  NoDup (footprint s) -> subtree s d = Some chd ->
  exists l1 l2,
    blocks s = l1 ++ blocks chd ++ l2 /\
    forall new, blocks (graft d new s) = l1 ++ blocks new ++ l2.
Proof.
  apply (graft_segment Z blocks
           (fun e => [e]) (fun e _ _ => [e])
           (fun _ => []) (fun e => [e]));
    reflexivity.
Qed.

Lemma release_segment a s d chd :
  NoDup (footprint s) -> subtree s d = Some chd ->
  exists l1 l2,
    release a s = l1 ++ release a chd ++ l2 /\
    forall new, release a (graft d new s) = l1 ++ release a new ++ l2.
Proof.
  apply (graft_segment Event (release a)
           (fun e => [EvFree a e])
           (fun e p f => (if f =? 0 then [] else [EvCleanup f p]) ++ [EvFree a e])
           (fun _ => []) (fun e => [EvFree a e]));
    try reflexivity.
  intros. simpl. rewrite <- app_assoc. reflexivity.
Qed.

Lemma subtree_node m a s :
  forall owner d chd,
    repr m a owner s -> NoDup (footprint s) -> subtree s d = Some chd ->
    exists owner', node m d a owner' chd.
Proof.
  induction s as [| e b IHb | e p f b IHb | e ch IHch b IHb]; simpl;
    intros owner d chd Hr Hnd H.
  - discriminate.
  - apply NoDup_cons_iff in Hnd as [_ Hnd].
    destruct Hr as (_ & _ & _ & Hb). exact (IHb owner d chd Hb Hnd H).
  - do 3 apply NoDup_cons_iff, proj2 in Hnd.
    destruct Hr as (_ & _ & _ & _ & _ & Hb). exact (IHb owner d chd Hb Hnd H).
  - destruct Hr as (_ & _ & _ & Ht & Ha & Ho & Hch & Hb).
    apply NoDup_cons_iff in Hnd as [_ Hnd].
    destruct (Z.eqb_spec d (e + 8)) as [-> | Hne].
    + injection H as ->. exists owner. unfold node.
      replace (e + 8 + 8) with (e + 16) by lia.
      replace (e + 8 + 16) with (e + 24) by lia.
      splits; auto.
      change (e + 8 :: e + 16 :: e + 24 :: footprint chd ++ footprint b)
        with ((e + 8 :: e + 16 :: e + 24 :: footprint chd) ++ footprint b) in Hnd.
      exact (NoDup_app_remove_r _ _ Hnd).
    + do 3 apply NoDup_cons_iff, proj2 in Hnd.
      destruct (subtree ch d) as [x |] eqn:Hsub.
      * injection H as ->.
        exact (IHch (e + 8) d chd Hch (NoDup_app_remove_r _ _ Hnd) Hsub).
      * exact (IHb owner d chd Hb (NoDup_app_remove_l _ _ Hnd) H).
Qed.

Lemma repr_graft m m' a d chd new s :
  forall owner,
    repr m a owner s -> NoDup (footprint s) -> subtree s d = Some chd ->
    (forall q, In q (footprint s) -> q <> d -> ~ In q (footprint chd) ->
               m' q = m q) ->
    m' d = top new -> repr m' a d new ->
    repr m' a owner (graft d new s).
Proof.
  induction s as [| e b IHb | e p f b IHb | e ch IHch b IHb];
    intros owner Hr Hnd H Hfr Htop Hnew; simpl in Hr, Hnd, H |- *.
  - discriminate.
  - destruct Hr as (He & Hal & Hm & Hb).
    apply NoDup_cons_iff in Hnd as [Hni Hnd].
    destruct (subtree_in b d chd H) as (Hd & Hsub).
    splits; auto.
    + rewrite top_graft, Hfr; [exact Hm | left; reflexivity | |].
      * intros ->. contradiction.
      * intros Hq. apply Hni, Hsub, Hq.
    + apply IHb; auto. intros q Hq. apply Hfr. right. exact Hq.
  - destruct Hr as (He & Hal & Hm & Hp & Hf & Hb).
    apply NoDup_cons_iff in Hnd as [Hn0 Hnd].
    apply NoDup_cons_iff in Hnd as [Hn8 Hnd].
    apply NoDup_cons_iff in Hnd as [Hn16 Hnd].
    destruct (subtree_in b d chd H) as (Hd & Hsub).
    simpl in Hn0, Hn8.
    assert (Hkeep : forall q, In q [e; e + 8; e + 16] -> m' q = m q).
    { intros q Hq. apply Hfr.
      - simpl in Hq |- *. tauto.
      - intros ->. simpl in Hq. destruct Hq as [<- | [<- | [<- | []]]]; tauto.
      - intros Hin. apply Hsub in Hin. simpl in Hq.
        destruct Hq as [<- | [<- | [<- | []]]]; tauto. }
    splits; auto.
    + rewrite top_graft, Hkeep by (simpl; auto). exact Hm.
    + rewrite Hkeep by (simpl; auto). exact Hp.
    + rewrite Hkeep by (simpl; auto). exact Hf.
    + apply IHb; auto. intros q Hq. apply Hfr. do 3 right. exact Hq.
  - destruct Hr as (He & Hal & Hm & Ht & Ha & Ho & Hch & Hb).
    apply NoDup_cons_iff in Hnd as [Hn0 Hnd].
    apply NoDup_cons_iff in Hnd as [Hn8 Hnd].
    apply NoDup_cons_iff in Hnd as [Hn16 Hnd].
    apply NoDup_cons_iff in Hnd as [Hn24 Hnd].
    simpl in Hn0, Hn8, Hn16.
    assert (Hsubs : In d (e + 8 :: footprint ch ++ footprint b) /\
                    incl (footprint chd) (footprint ch ++ footprint b)).
    { destruct (Z.eqb_spec d (e + 8)) as [-> | Hne].
      - injection H as ->. split; [left; reflexivity |].
        intros q Hq. apply in_or_app. left. exact Hq.
      - destruct (subtree ch d) as [x |] eqn:Hsub.
        + injection H as ->. destruct (subtree_in ch d chd Hsub) as (H1 & H2).
          split; [right; apply in_or_app; left; exact H1 |].
          intros q Hq. apply in_or_app. left. apply H2, Hq.
        + destruct (subtree_in b d chd H) as (H1 & H2).
          split; [right; apply in_or_app; right; exact H1 |].
          intros q Hq. apply in_or_app. right. apply H2, Hq. }
    destruct Hsubs as (Hd & Hsub).
    assert (Hkeep : forall q, In q [e; e + 16; e + 24] -> m' q = m q).
    { intros q Hq. apply Hfr.
      - simpl in Hq |- *. tauto.
      - intros ->. simpl in Hq.
        destruct Hd as [Hd | Hd];
          [destruct Hq as [Hq | [Hq | [Hq | []]]]; lia |].
        destruct Hq as [<- | [<- | [<- | []]]]; tauto.
      - intros Hin. apply Hsub in Hin. simpl in Hq.
        destruct Hq as [<- | [<- | [<- | []]]]; tauto. }
    destruct (Z.eqb_spec d (e + 8)) as [-> | Hne].
    + injection H as ->. simpl. splits; auto.
      * rewrite Hkeep by (simpl; auto). exact Hm.
      * rewrite Hkeep by (simpl; auto). exact Ha.
      * rewrite Hkeep by (simpl; auto). exact Ho.
      * apply repr_frame with (m := m); [| exact Hb].
        intros q Hq. apply Hfr.
        -- do 4 right. apply in_or_app. right. exact Hq.
        -- intros ->. apply Hn8. do 2 right. apply in_or_app. right. exact Hq.
        -- intros Hin. exact (NoDup_app_disjoint _ _ Hnd q Hin Hq).
    + assert (Hk8 : m' (e + 8) = m (e + 8)).
      { apply Hfr; [right; left; reflexivity | congruence |].
        intros Hin. apply Hsub in Hin. tauto. }
      destruct (subtree ch d) as [x |] eqn:Hs.
      * injection H as ->. destruct (subtree_in ch d chd Hs) as (H1 & H2).
        assert (Hbn : subtree b d = None).
        { apply subtree_none_not_in. intros Hin.
          exact (NoDup_app_disjoint _ _ Hnd d H1 Hin). }
        simpl. rewrite (graft_none b d new Hbn). splits; auto.
        -- rewrite Hkeep by (simpl; auto). exact Hm.
        -- rewrite top_graft, Hk8. exact Ht.
        -- rewrite Hkeep by (simpl; auto). exact Ha.
        -- rewrite Hkeep by (simpl; auto). exact Ho.
        -- apply IHch; auto; [exact (NoDup_app_remove_r _ _ Hnd) |].
           intros q Hq. apply Hfr. do 4 right. apply in_or_app. left. exact Hq.
        -- apply repr_frame with (m := m); [| exact Hb].
           intros q Hq. apply Hfr.
           ++ do 4 right. apply in_or_app. right. exact Hq.
           ++ intros ->. exact (NoDup_app_disjoint _ _ Hnd d H1 Hq).
           ++ intros Hin. apply H2 in Hin.
              exact (NoDup_app_disjoint _ _ Hnd q Hin Hq).
      * destruct (subtree_in b d chd H) as (H1 & H2).
        simpl. rewrite (graft_none ch d new Hs). splits; auto.
        -- rewrite top_graft, Hkeep by (simpl; auto). exact Hm.
        -- rewrite Hk8. exact Ht.
        -- rewrite Hkeep by (simpl; auto). exact Ha.
        -- rewrite Hkeep by (simpl; auto). exact Ho.
        -- apply repr_frame with (m := m); [| exact Hch].
           intros q Hq. apply Hfr.
           ++ do 4 right. apply in_or_app. left. exact Hq.
           ++ intros ->. exact (NoDup_app_disjoint _ _ Hnd d Hq H1).
           ++ intros Hin. apply H2 in Hin.
              exact (NoDup_app_disjoint _ _ Hnd q Hq Hin).
        -- apply IHb; auto; [exact (NoDup_app_remove_l _ _ Hnd) |].
           intros q Hq. apply Hfr. do 4 right. apply in_or_app. right. exact Hq.
Qed.

Lemma subtree_words s d chd :
  subtree s d = Some chd ->
  In (d + 8) (footprint s) /\ In (d + 16) (footprint s).
Proof.
  induction s as [| e b IHb | e p f b IHb | e ch IHch b IHb]; simpl; intros H.
  - discriminate.
  - destruct (IHb H). split; right; assumption.
  - destruct (IHb H). split; do 3 right; assumption.
  - destruct (Z.eqb_spec d (e + 8)) as [-> | Hne].
    + replace (e + 8 + 8) with (e + 16) by lia.
      replace (e + 8 + 16) with (e + 24) by lia. split; auto 6.
    + destruct (subtree ch d) as [x |] eqn:Hs.
      * destruct (IHch H).
        split; do 4 right; apply in_or_app; left; assumption.
      * destruct (IHb H).
        split; do 4 right; apply in_or_app; right; assumption.
Qed.

Lemma subtree_graft s d chd new :
  subtree s d = Some chd -> subtree (graft d new s) d = Some new.
Proof.
  induction s as [| e b IHb | e p f b IHb | e ch IHch b IHb]; simpl; intros H.
  - discriminate.
  - auto.
  - auto.
  - destruct (Z.eqb_spec d (e + 8)) as [-> | Hne].
    + simpl. rewrite Z.eqb_refl. reflexivity.
    + simpl. apply Z.eqb_neq in Hne. rewrite Hne.
      destruct (subtree ch d) as [x |] eqn:Hs.
      * rewrite (IHch H). reflexivity.
      * rewrite (graft_none ch d new Hs), Hs. exact (IHb H).
Qed.

Lemma NoDup_remove_middle {A} (x y z : list A) :
  NoDup (x ++ y ++ z) -> NoDup (x ++ z).
Proof.
  induction y as [| v y IH]; simpl; intros H; [exact H |].
  apply IH. exact (NoDup_remove_1 _ _ _ H).
Qed.

(** A push on a nested child, seen from the node that holds it. *)
Lemma push_in_tree root a parent s d chd fuel op e o st :
  node (mem st) root a parent s ->
  subtree s d = Some chd ->
  oracle st = e :: o -> e <> 0 -> aligned e ->
  disjoint (block (op, e)) (root :: root + 8 :: root + 16 :: footprint s) ->
  exists st',
    push fuel d op st = Done tt st' /\
    oracle st' = o /\
    trace st' = trace st ++ [alloc_event a (op, e)] /\
    node (mem st') root a parent (graft d (entry_of op e chd) s).
Proof.
  intros (H0 & H8 & H16 & Hr & Hnd) Hsub Hor He Hal Hfresh.
  assert (Hnds : NoDup (footprint s)) by (do 3 apply NoDup_cons_iff, proj2 in Hnd; exact Hnd).
  destruct (subtree_node _ _ _ _ _ _ Hr Hnds Hsub) as (owner' & Hnode).
  destruct (subtree_in s d chd Hsub) as (Hd & Hincl).
  destruct (subtree_words s d chd Hsub) as (Hd8 & Hd16).
  assert (Hfresh' : disjoint (block (op, e))
                             (d :: d + 8 :: d + 16 :: footprint chd)).
  { intros q Hq Hin. apply (Hfresh q Hq). do 3 right.
    destruct Hin as [<- | [<- | [<- | Hin]]]; auto. }
  destruct (push_node_trace d a owner' chd fuel op e o st Hnode Hor He Hal Hfresh')
    as (st' & Hrun & Ho & Ht & Hn' & Hfr).
  exists st'. splits; auto.
  assert (Hroot : forall q, In q [root; root + 8; root + 16] ->
                            mem st' q = mem st q).
  { intros q Hq. apply Hfr.
    - intros ->. apply NoDup_cons_iff in Hnd as [Hn0 Hnd].
      apply NoDup_cons_iff in Hnd as [Hn8 Hnd].
      apply NoDup_cons_iff in Hnd as [Hn16 _]. simpl in Hn0, Hn8, Hq.
      destruct Hq as [<- | [<- | [<- | []]]]; tauto.
    - intros Hin. apply (Hfresh q Hin). simpl in Hq |- *. tauto. }
  unfold node. rewrite top_graft, !Hroot by (simpl; auto).
  splits; auto.
  - destruct Hn' as (Ht' & _ & _ & Hr' & _).
    apply (repr_graft (mem st) (mem st') a d chd _ s root Hr Hnds Hsub);
      auto.
    intros q Hq Hqd _. apply Hfr; [exact Hqd |].
    intros Hin. apply (Hfresh q Hin). do 3 right. exact Hq.
  - destruct (footprint_segment s d chd Hnds Hsub) as (l1 & l2 & Hs & Hg).
    rewrite Hg, footprint_entry_of. rewrite Hs in Hnd, Hfresh.
    change (root :: root + 8 :: root + 16 ::
            l1 ++ (block (op, e) ++ footprint chd) ++ l2)
      with ([root; root + 8; root + 16] ++
            l1 ++ (block (op, e) ++ footprint chd) ++ l2).
    rewrite <- app_assoc, (app_assoc [root; root + 8; root + 16] l1).
    apply NoDup_insert.
    + rewrite <- app_assoc. exact Hnd.
    + apply block_NoDup.
    + rewrite <- app_assoc. exact Hfresh.
Qed.

Lemma need_subtree s d chd :
  subtree s d = Some chd -> (S (need chd) <= need s)%nat.
Proof.
  induction s as [| e b IHb | e p f b IHb | e ch IHch b IHb]; simpl; intros H.
  - discriminate.
  - specialize (IHb H). lia.
  - specialize (IHb H). lia.
  - destruct (d =? e + 8).
    + injection H as ->. lia.
    + destruct (subtree ch d) as [x |] eqn:Hs.
      * specialize (IHch H). lia.
      * specialize (IHb H). lia.
Qed.

Lemma need_graft_empty s d : (need (graft d Empty s) <= need s)%nat.
Proof.
  induction s as [| e b IHb | e p f b IHb | e ch IHch b IHb]; simpl; try lia.
  assert (1 <= need ch)%nat by (destruct ch; simpl; lia).
  destruct (d =? e + 8); simpl; lia.
Qed.

(** X9. Shutting a nested child down early and the enclosing node later
    releases nothing twice: the child's shutdown releases the child's stack
    and leaves the tree well-formed with that child empty; the node's
    shutdown then releases the rest.  Over the two, every block of the tree
    is freed exactly once and every non-NULL cleanup runs once per entry. *)
Theorem nested_shutdown_then_outer root a parent s d chd fuel st :
  node (mem st) root a parent s ->
  subtree s d = Some chd ->
  (S (need s) <= fuel)%nat ->
  exists st1 st2,
    custodian_shutdown fuel d st = Done tt st1 /\
    trace st1 = trace st ++ release a chd /\
    node (mem st1) root a parent (graft d Empty s) /\
    custodian_shutdown fuel root st1 = Done tt st2 /\
    trace st2 = trace st1 ++ release a (graft d Empty s) /\
    (forall e, In e (blocks s) ->
       count_occ Event_eq_dec
         (release a chd ++ release a (graft d Empty s)) (EvFree a e) = 1%nat) /\
    (forall h f, f <> 0 ->
       count_occ Event_eq_dec
         (release a chd ++ release a (graft d Empty s)) (EvCleanup f h) =
       count_deferred h f s).
Proof.
  intros (H0 & H8 & H16 & Hr & Hnd) Hsub Hfuel.
  assert (Hnds : NoDup (footprint s)) by (do 3 apply NoDup_cons_iff, proj2 in Hnd; exact Hnd).
  destruct (subtree_node _ _ _ _ _ _ Hr Hnds Hsub) as (owner' & Hnode).
  destruct (subtree_in s d chd Hsub) as (Hd & Hincl).
  pose proof (need_subtree s d chd Hsub) as Hneed.
  pose proof (need_graft_empty s d) as Hneed'.
  destruct (custodian_shutdown_node d a owner' chd fuel st Hnode)
    as (st1 & Hrun1 & Ht1 & _ & _ & Hfr & Hn1); [lia |].
  assert (Hroot : forall q, In q [root; root + 8; root + 16] ->
                            mem st1 q = mem st q).
  { intros q Hq.
    apply NoDup_cons_iff in Hnd as [Hn0 Hnd].
    apply NoDup_cons_iff in Hnd as [Hn8 Hnd].
    apply NoDup_cons_iff in Hnd as [Hn16 _]. simpl in Hn0, Hn8, Hq.
    apply Hfr.
    - intros ->. destruct Hq as [<- | [<- | [<- | []]]]; tauto.
    - intros Hin. apply stack_fields_footprint, Hincl in Hin.
      destruct Hq as [<- | [<- | [<- | []]]]; tauto. }
  assert (Hnode1 : node (mem st1) root a parent (graft d Empty s)).
  { unfold node. rewrite top_graft, !Hroot by (simpl; auto).
    splits; auto.
    - destruct Hn1 as (Ht' & _ & _ & Hr' & _).
      apply (repr_graft (mem st) (mem st1) a d chd _ s root Hr Hnds Hsub); auto.
      intros q Hq Hqd Hnin. apply Hfr; [exact Hqd |].
      intros Hin. apply Hnin, stack_fields_footprint, Hin.
    - destruct (footprint_segment s d chd Hnds Hsub) as (l1 & l2 & Hs & Hg).
      rewrite Hg. rewrite Hs in Hnd. simpl.
      change (root :: root + 8 :: root + 16 :: l1 ++ footprint chd ++ l2)
        with ([root; root + 8; root + 16] ++ l1 ++ footprint chd ++ l2) in Hnd.
      rewrite app_assoc in Hnd. apply NoDup_remove_middle in Hnd.
      rewrite <- app_assoc in Hnd. exact Hnd. }
  destruct (custodian_shutdown_node root a parent _ fuel st1 Hnode1)
    as (st2 & Hrun2 & Ht2 & _); [lia |].
  exists st1, st2.
  destruct (release_segment a s d chd Hnds Hsub) as (r1 & r2 & Hrs & Hrg).
  assert (Hcount : forall ev,
            count_occ Event_eq_dec
              (release a chd ++ release a (graft d Empty s)) ev =
            count_occ Event_eq_dec (release a s) ev).
  { intros ev. rewrite Hrg, Hrs. simpl. rewrite !count_occ_app. lia. }
  splits; auto.
  - intros e He. rewrite Hcount, count_free_release.
    apply blocks_NoDup in Hnds.
    pose proof (proj1 (NoDup_count_occ Z.eq_dec _) Hnds e) as Hle.
    pose proof (proj1 (count_occ_In Z.eq_dec _ _) He) as Hgt. lia.
  - intros h f Hf. rewrite Hcount. apply count_release, Hf.
Qed.

Lemma nested_shutdown_then_outer_witness :
  let d := 0x1300 + 8 in
  let chd := Allocation 0x1500 (Allocation 0x1400 Empty) in
  node (mem (busy [])) root0 alloc0 0 busy_stack /\
  subtree busy_stack d = Some chd /\
  (S (need busy_stack) <= 100)%nat /\
  exists st1 st2,
    custodian_shutdown 100 d (busy []) = Done tt st1 /\
    trace st1 = trace (busy []) ++ [EvFree alloc0 0x1500; EvFree alloc0 0x1400] /\
    custodian_shutdown 100 root0 st1 = Done tt st2 /\
    trace st2 = trace st1 ++
      [EvFree alloc0 0x1600; EvFree alloc0 0x1300; EvFree alloc0 0x1200;
       EvCleanup cleaner 0; EvFree alloc0 0x1100; EvFree alloc0 0x1000].
Proof.
  intros d chd.
  assert (Hsub : subtree busy_stack d = Some chd) by reflexivity.
  assert (Hfuel : (S (need busy_stack) <= 100)%nat) by (simpl; lia).
  splits; [apply busy_node | exact Hsub | exact Hfuel |].
  destruct (nested_shutdown_then_outer root0 alloc0 0 busy_stack d chd 100
              (busy []) (busy_node []) Hsub Hfuel)
    as (st1 & st2 & H1 & H2 & _ & H4 & H5 & _).
  exists st1, st2. splits; assumption.
Defined.

(** ** custodian.c: pushes anywhere in a tree *)

Lemma push_request fuel c op e o st :
  oracle st = e :: o -> e <> 0 ->
  exists st',
    push fuel c op st = Done tt st' /\
    oracle st' = o /\
    match op with
    | PushAlloc n => custodian_alloc fuel c n st = Done (e + 8) st'
    | PushDefer h f => custodian_defer fuel c h f st = Done tt st'
    | PushChild => custodian_child_create fuel c st = Done (e + 8) st'
    end.
Proof.
  intros Hor He. apply Z.eqb_neq in He.
  destruct op as [n | h f |]; unfold push.
  - assert (H : exists st', custodian_alloc fuel c n st = Done (e + 8) st' /\
                            oracle st' = o).
    { unfold custodian_alloc, sizeof_CustodianEntry.
      rewrite bind_load, bind_alloc.
      cbn [mem oracle trace touched]. rewrite Hor. cbn [hd tl]. rewrite He.
      steps. eexists; splits; reflexivity. }
    destruct H as (st' & Hrun & Ho). exists st'.
    rewrite (bind_done _ _ _ _ _ Hrun). auto.
  - unfold custodian_defer, sizeof_CustodianEntry.
    rewrite bind_load, !bind_alloc.
    cbn [mem oracle trace touched]. rewrite Hor. cbn [hd tl]. rewrite He.
    steps. eexists; splits; reflexivity.
  - assert (H : exists st', custodian_child_create fuel c st = Done (e + 8) st' /\
                            oracle st' = o).
    { unfold custodian_child_create, custodian_init, sizeof_CustodianEntry.
      rewrite bind_load, bind_alloc.
      cbn [mem oracle trace touched]. rewrite Hor. cbn [hd tl]. rewrite He.
      steps. eexists; splits; reflexivity. }
    destruct H as (st' & Hrun & Ho). exists st'.
    rewrite (bind_done _ _ _ _ _ Hrun). auto.
Qed.

Lemma fresh_step (W F B R : list Z) :
  NoDup (W ++ F ++ B ++ R) ->
  disjoint B (W ++ F) /\ NoDup (W ++ (B ++ F) ++ R).
Proof.
  intros Hnd.
  assert (Hperm : Permutation (W ++ F ++ B ++ R) (B ++ (W ++ F) ++ R)).
  { rewrite (app_assoc W F). apply Permutation_app_swap_app. }
  pose proof (Permutation_NoDup Hperm Hnd) as Hnd'.
  split.
  - intros q Hq Hq'. apply (NoDup_app_disjoint _ _ Hnd' q Hq).
    apply in_or_app. left. exact Hq'.
  - apply Permutation_NoDup with (l := W ++ F ++ B ++ R); [| exact Hnd].
    apply Permutation_app_head. rewrite <- app_assoc.
    apply Permutation_app_swap_app.
Qed.

Lemma blocks_entry_of op e s : blocks (entry_of op e s) = e :: blocks s.
Proof. destruct op; reflexivity. Qed.

(** One push on the root or on a nested child of a tree whose words and
    incoming blocks are pairwise distinct. *)
Lemma tree_push_step root a parent s fuel x R s1 o st :
  node (mem st) root a parent s ->
  oracle st = snd x :: o -> snd x <> 0 -> aligned (snd x) ->
  NoDup (root :: root + 8 :: root + 16 ::
         footprint s ++ block (tree_block x) ++ R) ->
  grow root s x = Some s1 ->
  exists st',
    push fuel (fst (fst x)) (snd (fst x)) st = Done tt st' /\
    oracle st' = o /\
    trace st' = trace st ++ [alloc_event a (tree_block x)] /\
    node (mem st') root a parent s1 /\
    NoDup (root :: root + 8 :: root + 16 :: footprint s1 ++ R) /\
    Permutation (blocks s1) (snd x :: blocks s).
Proof.
  destruct x as [[c op] e]. unfold grow, tree_block. cbn [fst snd].
  intros Hnode Hor He Hal Hnd Hgrow.
  change (root :: root + 8 :: root + 16 :: footprint s ++ block (op, e) ++ R)
    with ([root; root + 8; root + 16] ++ footprint s ++ block (op, e) ++ R)
    in Hnd.
  destruct (fresh_step _ _ _ _ Hnd) as (Hfresh & Hnd').
  destruct (Z.eqb_spec c root) as [-> | Hne].
  - injection Hgrow as <-.
    destruct (push_node_trace root a parent s fuel op e o st Hnode Hor He Hal Hfresh)
      as (st' & Hrun & Ho & Ht & Hn & _).
    exists st'. splits; auto.
    + rewrite footprint_entry_of. exact Hnd'.
    + rewrite blocks_entry_of. reflexivity.
  - destruct (subtree s c) as [chd |] eqn:Hsub; [| discriminate].
    injection Hgrow as <-.
    destruct (push_in_tree root a parent s c chd fuel op e o st
                Hnode Hsub Hor He Hal Hfresh)
      as (st' & Hrun & Ho & Ht & Hn).
    exists st'. splits; auto.
    + assert (Hnds : NoDup (footprint s)).
      { destruct Hnode as (_ & _ & _ & _ & H).
        do 3 apply NoDup_cons_iff, proj2 in H. exact H. }
      destruct (footprint_segment s c chd Hnds Hsub) as (l1 & l2 & Hs & Hg).
      rewrite Hg, footprint_entry_of. rewrite Hs in Hnd.
      change (root :: root + 8 :: root + 16 ::
              (l1 ++ (block (op, e) ++ footprint chd) ++ l2) ++ R)
        with ([root; root + 8; root + 16] ++
              (l1 ++ (block (op, e) ++ footprint chd) ++ l2) ++ R).
      apply Permutation_NoDup with
        (l := [root; root + 8; root + 16] ++
              (l1 ++ footprint chd ++ l2) ++ block (op, e) ++ R);
        [| exact Hnd].
      apply Permutation_app_head. rewrite <- !app_assoc.
      apply Permutation_app_head.
      rewrite (app_assoc (footprint chd) l2).
      rewrite (app_assoc (footprint chd) l2 R).
      apply Permutation_app_swap_app.
    + assert (Hnds : NoDup (footprint s)).
      { destruct Hnode as (_ & _ & _ & _ & H).
        do 3 apply NoDup_cons_iff, proj2 in H. exact H. }
      destruct (blocks_segment s c chd Hnds Hsub) as (l1 & l2 & Hs & Hg).
      rewrite Hg, Hs, blocks_entry_of. simpl.
      symmetry. apply Permutation_middle.
Qed.

Lemma tree_pushes_node root a parent fuel tpe :
  forall s s' o st,
    node (mem st) root a parent s ->
    oracle st = map snd tpe ++ o ->
    Forall (fun x => snd x <> 0 /\ aligned (snd x)) tpe ->
    NoDup (root :: root + 8 :: root + 16 ::
           footprint s ++ flat_map (fun x => block (tree_block x)) tpe) ->
    grown root tpe s = Some s' ->
    exists st',
      tree_pushes fuel (map fst tpe) st = Done tt st' /\
      oracle st' = o /\
      trace st' = trace st ++ map (fun x => alloc_event a (tree_block x)) tpe /\
      node (mem st') root a parent s' /\
      Permutation (blocks s') (map snd tpe ++ blocks s).
Proof.
  induction tpe as [| x rest IH]; intros s s' o st Hnode Hor Hall Hnd Hgrown.
  - injection Hgrown as <-. exists st. simpl. rewrite app_nil_r. auto.
  - simpl in Hor, Hnd, Hgrown.
    inversion Hall as [| ? ? [He Hal] Hall']; subst.
    destruct (grow root s x) as [s1 |] eqn:Hgrow; [| discriminate].
    destruct (tree_push_step root a parent s fuel x _ s1 _ st
                Hnode Hor He Hal Hnd Hgrow)
      as (st1 & Hrun1 & Ho1 & Ht1 & Hn1 & Hnd1 & Hp1).
    destruct (IH s1 s' o st1 Hn1 Ho1 Hall' Hnd1 Hgrown)
      as (st' & Hrun & Ho & Ht & Hn & Hp).
    exists st'. simpl. rewrite (bind_done _ _ _ _ _ Hrun1).
    splits; auto.
    + rewrite Ht, Ht1, <- app_assoc. reflexivity.
    + rewrite Hp, Hp1. symmetry. apply Permutation_middle.
Qed.

Lemma subtree_graft_inside s d chd new x y :
  subtree s d = Some chd -> subtree s x = None -> subtree new x = Some y ->
  subtree (graft d new s) x = Some y.
Proof.
  induction s as [| e b IHb | e p f b IHb | e ch IHch b IHb]; simpl;
    intros Hd Hx Hy.
  - discriminate.
  - auto.
  - auto.
  - destruct (Z.eqb_spec x (e + 8)) as [-> | Hxe]; [discriminate |].
    apply Z.eqb_neq in Hxe.
    destruct (subtree ch x) as [z |] eqn:Hcx; [discriminate |].
    destruct (Z.eqb_spec d (e + 8)) as [-> | Hde].
    + simpl. rewrite Hxe, Hy. reflexivity.
    + simpl. rewrite Hxe.
      destruct (subtree ch d) as [w |] eqn:Hcd.
      * rewrite (IHch Hd eq_refl Hy). reflexivity.
      * rewrite (graft_none ch d new Hcd), Hcx. exact (IHb Hd Hx Hy).
Qed.

(** X6. [custodian_child_create] on the root of a tree or on a child nested
    anywhere in it, answered with a fresh block [e]: the call returns
    [e + 8], having asked the tree's allocator for 32 bytes; the new child
    is a well-formed node with an empty stack, the tree's allocator and the
    custodian it was created on as its parent; and the root stays
    well-formed, with the child nested in its stack, on top of the stack of
    that custodian.  The root, its entries and the block are word-aligned
    and their words distinct. *)
Theorem child_create_anywhere root a parent s s' d fuel e o st :
  node (mem st) root a parent s ->
  Forall word_aligned (root :: e :: blocks s) ->
  grow root s (d, PushChild, e) = Some s' ->
  oracle st = e :: o -> e <> 0 -> aligned e ->
  NoDup (root :: root + 8 :: root + 16 ::
         footprint s ++ [e; e + 8; e + 16; e + 24]) ->
  exists st',
    custodian_child_create fuel d st = Done (e + 8) st' /\
    trace st' = trace st ++ [EvAlloc a 32 e] /\
    oracle st' = o /\
    node (mem st') (e + 8) a d Empty /\
    node (mem st') root a parent s' /\
    subtree s' (e + 8) = Some Empty.
Proof.
  intros Hnode _ Hgrow Hor He Hal Hnd.
  assert (Hnd' : NoDup (root :: root + 8 :: root + 16 ::
                        footprint s ++ block (tree_block (d, PushChild, e)) ++ [])).
  { unfold tree_block, block. cbn [fst snd entry_of footprint app].
    exact Hnd. }
  destruct (tree_push_step root a parent s fuel (d, PushChild, e) [] s' o st
              Hnode Hor He Hal Hnd' Hgrow)
    as (st' & Hpush & Ho & Ht & Hroot & _ & _).
  cbn [fst snd] in Hpush.
  destruct (push_request fuel d PushChild e o st Hor He)
    as (st2 & Hpush2 & _ & Hrun).
  rewrite Hpush in Hpush2. injection Hpush2 as <-.
  exists st'. splits; auto.
  - unfold grow in Hgrow. cbn [fst snd entry_of] in Hgrow.
    destruct Hroot as (_ & _ & _ & Hr & Hnds).
    do 3 apply NoDup_cons_iff, proj2 in Hnds.
    assert (Hchild : exists b, repr (mem st') a d (ChildScope e Empty b)).
    { destruct (Z.eqb_spec d root) as [-> | Hne].
      - injection Hgrow as <-. exists s. exact Hr.
      - destruct (subtree s d) as [chd |] eqn:Hsub; [| discriminate].
        injection Hgrow as <-.
        pose proof (subtree_graft s d chd (ChildScope e Empty chd) Hsub) as Hg.
        destruct (subtree_node _ _ _ _ _ _ Hr Hnds Hg)
          as (owner' & _ & _ & _ & Hr' & _).
        exists chd. exact Hr'. }
    destruct Hchild as (b & _ & _ & _ & H0 & H8 & H16 & _).
    apply node_empty.
    + exact H0.
    + replace (e + 8 + 8) with (e + 16) by lia. exact H8.
    + replace (e + 8 + 16) with (e + 24) by lia. exact H16.
  - unfold grow in Hgrow. cbn [fst snd entry_of] in Hgrow.
    destruct (Z.eqb_spec d root) as [-> | Hne].
    + injection Hgrow as <-. simpl. rewrite Z.eqb_refl. reflexivity.
    + destruct (subtree s d) as [chd |] eqn:Hsub; [| discriminate].
      injection Hgrow as <-.
      apply (subtree_graft_inside s d chd); auto.
      * apply subtree_none_not_in. intros Hin.
        change (root :: root + 8 :: root + 16 ::
                footprint s ++ [e; e + 8; e + 16; e + 24])
          with ([root; root + 8; root + 16] ++
                footprint s ++ [e] ++ (e + 8) :: [e + 16; e + 24]) in Hnd.
        rewrite !app_assoc in Hnd. apply NoDup_remove_2 in Hnd.
        apply Hnd. apply in_or_app. left. apply in_or_app. left.
        apply in_or_app. right. exact Hin.
      * simpl. rewrite Z.eqb_refl. reflexivity.
Qed.

Lemma child_create_anywhere_witness :
  let st := busy [0x2000] in
  let d := 0x1300 + 8 in
  let s' :=
    Allocation 0x1600
      (ChildScope 0x1300
         (ChildScope 0x2000 Empty
            (Allocation 0x1500 (Allocation 0x1400 Empty)))
         (Allocation 0x1200
            (Resource 0x1100 0 cleaner (Allocation 0x1000 Empty)))) in
  node (mem st) root0 alloc0 0 busy_stack /\
  Forall word_aligned (root0 :: 0x2000 :: blocks busy_stack) /\
  grow root0 busy_stack (d, PushChild, 0x2000) = Some s' /\
  oracle st = 0x2000 :: [] /\ 0x2000 <> 0 /\ aligned 0x2000 /\
  NoDup (root0 :: root0 + 8 :: root0 + 16 ::
         footprint busy_stack ++
         [0x2000; 0x2000 + 8; 0x2000 + 16; 0x2000 + 24]) /\
  exists st',
    custodian_child_create 100 d st = Done (0x2000 + 8) st' /\
    node (mem st') (0x2000 + 8) alloc0 d Empty /\
    node (mem st') root0 alloc0 0 s'.
Proof.
  intros st d s'.
  assert (Hwa : Forall word_aligned (root0 :: 0x2000 :: blocks busy_stack))
    by concrete_word_aligned.
  assert (Hgrow : grow root0 busy_stack (d, PushChild, 0x2000) = Some s')
    by (vm_compute; reflexivity).
  assert (Hor : oracle st = 0x2000 :: []) by (vm_compute; reflexivity).
  assert (Hp0 : 0x2000 <> 0) by discriminate.
  assert (Hal : aligned 0x2000) by (vm_compute; intuition congruence).
  assert (Hnd : NoDup (root0 :: root0 + 8 :: root0 + 16 ::
                       footprint busy_stack ++
                       [0x2000; 0x2000 + 8; 0x2000 + 16; 0x2000 + 24]))
    by (vm_compute; concrete_nodup).
  splits; [apply busy_node | exact Hwa | exact Hgrow | exact Hor | exact Hp0
          | exact Hal | exact Hnd |].
  destruct (child_create_anywhere root0 alloc0 0 busy_stack s' d 100 0x2000 []
              st (busy_node _) Hwa Hgrow Hor Hp0 Hal Hnd)
    as (st' & H1 & _ & _ & H4 & H5 & _).
  exists st'. splits; assumption.
Defined.

(** X10. The tree invariant.  Any run of pushes, each on the root or on a
    child nested anywhere in the root's stack at that moment, each answered
    with a fresh block, returns and leaves the root a well-formed node whose
    stack is [grown] from the old one, with word-aligned entries; a shutdown
    of the root then frees every one of the new blocks exactly once and
    leaves the root empty.  The root, its entries and the blocks are
    word-aligned and their words distinct, so that no two share a byte. *)
Theorem tree_pushes_keep_tree root a parent fuel tpe s s' o st :
  node (mem st) root a parent s ->
  oracle st = map snd tpe ++ o ->
  Forall (fun x => snd x <> 0 /\ aligned (snd x)) tpe ->
  Forall word_aligned (root :: blocks s ++ map snd tpe) ->
  NoDup (root :: root + 8 :: root + 16 ::
         footprint s ++ flat_map (fun x => block (tree_block x)) tpe) ->
  grown root tpe s = Some s' ->
  (S (need s') <= fuel)%nat ->
  exists st1 st2,
    tree_pushes fuel (map fst tpe) st = Done tt st1 /\
    oracle st1 = o /\
    trace st1 = trace st ++ map (fun x => alloc_event a (tree_block x)) tpe /\
    node (mem st1) root a parent s' /\
    Forall word_aligned (blocks s') /\
    custodian_shutdown fuel root st1 = Done tt st2 /\
    trace st2 = trace st1 ++ release a s' /\
    (forall x, In x tpe ->
       count_occ Event_eq_dec (release a s') (EvFree a (snd x)) = 1%nat) /\
    node (mem st2) root a parent Empty.
Proof.
  intros Hnode Hor Hall Hwa Hnd Hgrown Hfuel.
  destruct (tree_pushes_node root a parent fuel tpe s s' o st
              Hnode Hor Hall Hnd Hgrown)
    as (st1 & Hrun & Ho & Ht & Hn & Hp).
  destruct (custodian_shutdown_node root a parent s' fuel st1 Hn Hfuel)
    as (st2 & Hrun2 & Ht2 & _ & _ & _ & Hn2).
  exists st1, st2. splits; auto.
  { apply Forall_forall. intros q Hq.
    apply Forall_cons_iff, proj2 in Hwa.
    apply (proj1 (Forall_forall _ _) Hwa).
    apply (Permutation_in _ Hp) in Hq.
    apply in_app_or in Hq as [Hq | Hq]; apply in_or_app; tauto. }
  intros x Hx. rewrite count_free_release.
  assert (Hnds : NoDup (blocks s')).
  { apply blocks_NoDup. destruct Hn as (_ & _ & _ & _ & H).
    do 3 apply NoDup_cons_iff, proj2 in H. exact H. }
  assert (Hin : In (snd x) (blocks s')).
  { apply (Permutation_in _ (Permutation_sym Hp)), in_or_app. left.
    apply in_map, Hx. }
  pose proof (proj1 (NoDup_count_occ Z.eq_dec _) Hnds (snd x)) as Hle.
  pose proof (proj1 (count_occ_In Z.eq_dec _ _) Hin) as Hgt. lia.
Qed.

Lemma tree_pushes_keep_tree_witness :
  let tpe := test_program_steps root0 0x1000 0x1100 0x1200 0x1300 0x1400
                                0x1500 0x1600 in
  let st := boot [0x1000; 0x1100; 0x1200; 0x1300; 0x1400; 0x1500; 0x1600] in
  node (mem st) root0 alloc0 0 Empty /\
  oracle st = map snd tpe ++ [] /\
  Forall (fun x => snd x <> 0 /\ aligned (snd x)) tpe /\
  Forall word_aligned (root0 :: blocks Empty ++ map snd tpe) /\
  NoDup (root0 :: root0 + 8 :: root0 + 16 ::
         footprint Empty ++ flat_map (fun x => block (tree_block x)) tpe) /\
  grown root0 tpe Empty = Some busy_stack /\
  (S (need busy_stack) <= 100)%nat /\
  exists st1 st2,
    tree_pushes 100 (map fst tpe) st = Done tt st1 /\
    node (mem st1) root0 alloc0 0 busy_stack /\
    custodian_shutdown 100 root0 st1 = Done tt st2 /\
    trace st2 = trace st1 ++ release alloc0 busy_stack /\
    node (mem st2) root0 alloc0 0 Empty.
Proof.
  intros tpe st.
  assert (Hnode : node (mem st) root0 alloc0 0 Empty) by concrete_node.
  assert (Hor : oracle st = map snd tpe ++ []) by (vm_compute; reflexivity).
  assert (Hall : Forall (fun x => snd x <> 0 /\ aligned (snd x)) tpe).
  { repeat constructor; try discriminate; vm_compute; intuition congruence. }
  assert (Hnd : NoDup (root0 :: root0 + 8 :: root0 + 16 ::
                       footprint Empty ++
                       flat_map (fun x => block (tree_block x)) tpe))
    by (vm_compute; concrete_nodup).
  assert (Hgrown : grown root0 tpe Empty = Some busy_stack)
    by (vm_compute; reflexivity).
  assert (Hfuel : (S (need busy_stack) <= 100)%nat) by (simpl; lia).
  assert (Hwa : Forall word_aligned (root0 :: blocks Empty ++ map snd tpe))
    by concrete_word_aligned.
  splits; [exact Hnode | exact Hor | exact Hall | exact Hwa | exact Hnd
          | exact Hgrown | exact Hfuel |].
  destruct (tree_pushes_keep_tree root0 alloc0 0 100 tpe Empty busy_stack []
              st Hnode Hor Hall Hwa Hnd Hgrown Hfuel)
    as (st1 & st2 & H1 & _ & _ & H4 & _ & H5 & H6 & _ & H8).
  exists st1, st2. splits; assumption.
Defined.

(** ** lol.c: [test_program] in its child process *)

Lemma custodian_init_node c parent a st :
  exists st',
    custodian_init c parent a st = Done tt st' /\
    node (mem st') c a parent Empty /\
    trace st' = trace st /\ oracle st' = oracle st.
Proof.
  destruct (custodian_init_fields c parent a st) as (st' & Hrun & H0 & H8 & H16).
  exists st'. split; [exact Hrun |]. split; [apply node_empty; assumption |].
  unfold custodian_init, f_stack, f_a, f_parent in Hrun.
  rewrite !bind_store in Hrun. unfold store in Hrun.
  inversion Hrun; subst st'. split; reflexivity.
Qed.

Lemma setup_as_tree_pushes c e1 e2 e3 e4 e5 e6 e7 o st :
  oracle st = [e1; e2; e3; e4; e5; e6; e7] ++ o ->
  Forall (fun e => e <> 0) [e1; e2; e3; e4; e5; e6; e7] ->
  test_program_setup c st =
  tree_pushes 100 (map fst (test_program_steps c e1 e2 e3 e4 e5 e6 e7)) st.
Proof.
  intros Hor Hall.
  repeat match goal with
         | H : Forall _ (_ :: _) |- _ =>
             let Hx := fresh "Hx" in
             let Hr := fresh "Hr" in
             apply Forall_cons_iff in H as [Hx Hr]
         end.
  unfold test_program_setup, test_program_steps.
  cbn [tree_pushes map fst snd]. simpl app in Hor.
  destruct (push_request 100 c (PushAlloc 100) _ _ st Hor ltac:(assumption))
    as (st1 & Hp1 & Ho1 & Hv1).
  rewrite (bind_done _ _ _ _ _ Hv1), (bind_done _ _ _ _ _ Hp1).
  destruct (push_request 100 c (PushDefer 0 cleaner) _ _ st1 Ho1 ltac:(assumption))
    as (st2 & Hp2 & Ho2 & Hv2).
  rewrite (bind_done _ _ _ _ _ Hv2).
  change (custodian_defer 100 c 0 cleaner)
    with (push 100 c (PushDefer 0 cleaner)) in Hv2.
  try rewrite (bind_done _ _ _ _ _ Hp2).
  destruct (push_request 100 c (PushAlloc 200) _ _ st2 Ho2 ltac:(assumption))
    as (st3 & Hp3 & Ho3 & Hv3).
  rewrite (bind_done _ _ _ _ _ Hv3), (bind_done _ _ _ _ _ Hp3).
  destruct (push_request 100 c PushChild _ _ st3 Ho3 ltac:(assumption))
    as (st4 & Hp4 & Ho4 & Hv4).
  rewrite (bind_done _ _ _ _ _ Hv4), (bind_done _ _ _ _ _ Hp4).
  destruct (push_request 100 (e4 + 8) (PushAlloc 300) _ _ st4 Ho4 ltac:(assumption))
    as (st5 & Hp5 & Ho5 & Hv5).
  rewrite (bind_done _ _ _ _ _ Hv5), (bind_done _ _ _ _ _ Hp5).
  destruct (push_request 100 (e4 + 8) (PushAlloc 20) _ _ st5 Ho5 ltac:(assumption))
    as (st6 & Hp6 & Ho6 & Hv6).
  rewrite (bind_done _ _ _ _ _ Hv6), (bind_done _ _ _ _ _ Hp6).
  destruct (push_request 100 c (PushAlloc 50) _ _ st6 Ho6 ltac:(assumption))
    as (st7 & Hp7 & Ho7 & Hv7).
  rewrite (bind_done _ _ _ _ _ Hv7), (bind_done _ _ _ _ _ Hp7).
  reflexivity.
Qed.

Lemma test_program_grown c e1 e2 e3 e4 e5 e6 e7 :
  e4 + 8 <> c ->
  grown c (test_program_steps c e1 e2 e3 e4 e5 e6 e7) Empty =
  Some (test_program_stack e1 e2 e3 e4 e5 e6 e7).
Proof.
  intros Hne. apply Z.eqb_neq in Hne.
  unfold test_program_steps, test_program_stack, grown, grow.
  cbn [fst snd entry_of]. rewrite !Z.eqb_refl, !Hne.
  cbn [subtree graft]. rewrite !Z.eqb_refl.
  cbn [subtree graft entry_of]. rewrite !Z.eqb_refl. reflexivity.
Qed.

(** X11. [test_program], run as the first block's child runs it, with any
    seven distinct fresh blocks from the allocator: the seven requests are
    made with sizes 100, 24, 200, 32, 300, 20 and 50, the shutdown inside the
    test frees all seven blocks, newest first and the child scope's two
    blocks before the scope's own, with [cleaner(NULL)] called once just
    before its entry is freed; then the assertion fails and the process
    ends in [abort()], so the runner's own [custodian_shutdown] is never
    reached.  Compiled with NDEBUG the test returns 0, and the runner's
    shutdown finds the custodian empty and adds no call. *)
Theorem test_program_frees_all_then_aborts a c e1 e2 e3 e4 e5 e6 e7 o st :
  oracle st = [e1; e2; e3; e4; e5; e6; e7] ++ o ->
  Forall (fun e => e <> 0 /\ aligned e) [e1; e2; e3; e4; e5; e6; e7] ->
  NoDup (c :: c + 8 :: c + 16 ::
         flat_map (fun x => block (tree_block x))
                  (test_program_steps c e1 e2 e3 e4 e5 e6 e7)) ->
  let calls :=
    [EvAlloc a 100 e1; EvAlloc a 24 e2; EvAlloc a 200 e3; EvAlloc a 32 e4;
     EvAlloc a 300 e5; EvAlloc a 20 e6; EvAlloc a 50 e7;
     EvFree a e7; EvFree a e6; EvFree a e5; EvFree a e4; EvFree a e3;
     EvCleanup cleaner 0; EvFree a e2; EvFree a e1] in
  exists st1 st2,
    child_main false a c st = Aborted st1 /\
    trace st1 = trace st ++ calls /\ oracle st1 = o /\
    child_main true a c st = Done 0 st2 /\
    trace st2 = trace st ++ calls /\ oracle st2 = o /\
    node (mem st2) c a 0 Empty.
Proof.
  intros Hor Hall Hnd calls.
  destruct (custodian_init_node c 0 a st) as (sti & Hinit & Hni & Hti & Hoi).
  rewrite Hor in Hoi.
  assert (Hnz : Forall (fun e => e <> 0) [e1; e2; e3; e4; e5; e6; e7]).
  { eapply Forall_impl; [| exact Hall]. intros e [He _]. exact He. }
  assert (Hall' : Forall (fun x : Z * Push * Z => snd x <> 0 /\ aligned (snd x))
                         (test_program_steps c e1 e2 e3 e4 e5 e6 e7)).
  { unfold test_program_steps.
    repeat (apply Forall_cons_iff in Hall as [? Hall]).
    repeat (apply Forall_cons; [cbn [snd]; assumption |]).
    apply Forall_nil. }
  assert (Hne : e4 + 8 <> c).
  { intros <-. apply NoDup_cons_iff in Hnd as [Hin _]. apply Hin.
    unfold test_program_steps, tree_block, block. simpl. auto 20. }
  destruct (tree_pushes_node c a 0 100
              (test_program_steps c e1 e2 e3 e4 e5 e6 e7)
              Empty _ o sti Hni Hoi Hall' Hnd
              (test_program_grown c e1 e2 e3 e4 e5 e6 e7 Hne))
    as (st1 & Hrun1 & Ho1 & Ht1 & Hn1 & _).
  rewrite <- (setup_as_tree_pushes c e1 e2 e3 e4 e5 e6 e7 o sti Hoi Hnz) in Hrun1.
  destruct (custodian_shutdown_node c a 0 _ 100 st1 Hn1) as
    (st2 & Hrun2 & Ht2 & Ho2 & _ & _ & Hn2); [simpl; lia |].
  destruct (custodian_shutdown_node c a 0 _ 100 st2 Hn2) as
    (st3 & Hrun3 & Ht3 & Ho3 & _ & _ & Hn3); [simpl; lia |].
  assert (Htr : trace st2 = trace st ++ calls).
  { rewrite Ht2, Ht1, Hti, <- app_assoc. reflexivity. }
  exists st2, st3. splits.
  - unfold child_main, test_program.
    rewrite (bind_done _ _ _ _ _ Hinit), !bind_assoc.
    rewrite (bind_done _ _ _ _ _ Hrun1). cbv beta.
    rewrite !bind_assoc, (bind_done _ _ _ _ _ Hrun2).
    reflexivity.
  - exact Htr.
  - congruence.
  - unfold child_main, test_program.
    rewrite (bind_done _ _ _ _ _ Hinit), !bind_assoc.
    rewrite (bind_done _ _ _ _ _ Hrun1). cbv beta.
    rewrite !bind_assoc, (bind_done _ _ _ _ _ Hrun2).
    cbv beta. cbn [c_assert]. unfold bind at 1 2. unfold ret at 1 2.
    rewrite (bind_done _ _ _ _ _ Hrun3). reflexivity.
  - rewrite Ht3, Htr. simpl. apply app_nil_r.
  - congruence.
  - exact Hn3.
Qed.

Lemma test_program_frees_all_then_aborts_witness :
  let st := mkState (fun _ => 0)
                    [0x1000; 0x1100; 0x1200; 0x1300; 0x1400; 0x1500; 0x1600]
                    [] [] in
  oracle st = [0x1000; 0x1100; 0x1200; 0x1300; 0x1400; 0x1500; 0x1600] ++ [] /\
  Forall (fun e => e <> 0 /\ aligned e)
         [0x1000; 0x1100; 0x1200; 0x1300; 0x1400; 0x1500; 0x1600] /\
  NoDup (root0 :: root0 + 8 :: root0 + 16 ::
         flat_map (fun x => block (tree_block x))
                  (test_program_steps root0 0x1000 0x1100 0x1200 0x1300
                                      0x1400 0x1500 0x1600)) /\
  exists st1 st2,
    child_main false alloc0 root0 st = Aborted st1 /\
    trace st1 =
      [EvAlloc alloc0 100 0x1000; EvAlloc alloc0 24 0x1100;
       EvAlloc alloc0 200 0x1200; EvAlloc alloc0 32 0x1300;
       EvAlloc alloc0 300 0x1400; EvAlloc alloc0 20 0x1500;
       EvAlloc alloc0 50 0x1600;
       EvFree alloc0 0x1600; EvFree alloc0 0x1500; EvFree alloc0 0x1400;
       EvFree alloc0 0x1300; EvFree alloc0 0x1200;
       EvCleanup cleaner 0; EvFree alloc0 0x1100; EvFree alloc0 0x1000] /\
    child_main true alloc0 root0 st = Done 0 st2.
Proof.
  intros st.
  assert (Hor : oracle st =
                [0x1000; 0x1100; 0x1200; 0x1300; 0x1400; 0x1500; 0x1600] ++ [])
    by reflexivity.
  assert (Hall : Forall (fun e => e <> 0 /\ aligned e)
                   [0x1000; 0x1100; 0x1200; 0x1300; 0x1400; 0x1500; 0x1600]).
  { repeat constructor; try discriminate; vm_compute; intuition congruence. }
  assert (Hnd : NoDup (root0 :: root0 + 8 :: root0 + 16 ::
         flat_map (fun x => block (tree_block x))
                  (test_program_steps root0 0x1000 0x1100 0x1200 0x1300
                                      0x1400 0x1500 0x1600)))
    by (vm_compute; concrete_nodup).
  splits; [exact Hor | exact Hall | exact Hnd |].
  destruct (test_program_frees_all_then_aborts alloc0 root0 _ _ _ _ _ _ _ []
              st Hor Hall Hnd)
    as (st1 & st2 & H1 & H2 & _ & H4 & _).
  exists st1, st2. splits; assumption.
Defined.

(** ** lol.c: the diagnostics loop on text *)

Open Scope string_scope.

Lemma string_app_assoc (a b c : string) : (a ++ b) ++ c = a ++ b ++ c.
Proof. induction a as [| ch a IH]; simpl; [reflexivity | rewrite IH; reflexivity]. Qed.

Lemma string_app_length (a b : string) :
  String.length (a ++ b) = (String.length a + String.length b)%nat.
Proof. induction a as [| ch a IH]; simpl; [reflexivity | rewrite IH; reflexivity]. Qed.

Lemma read_line_split k :
  forall input, fst (read_line k input) ++ snd (read_line k input) = input.
Proof.
  induction k as [| k IH]; intros input; simpl; [reflexivity |].
  destruct input as [| ch rest]; [reflexivity |].
  destruct (is_nl ch); [reflexivity |].
  specialize (IH rest). destruct (read_line k rest) as [l r].
  simpl in *. rewrite IH. reflexivity.
Qed.

Lemma read_line_length k :
  forall input, (String.length (fst (read_line k input)) <= k)%nat.
Proof.
  induction k as [| k IH]; intros input; simpl; [lia |].
  destruct input as [| ch rest]; [simpl; lia |].
  destruct (is_nl ch); [simpl; lia |].
  specialize (IH rest). destruct (read_line k rest) as [l r].
  simpl in *. lia.
Qed.

Lemma ends_with_nl_cons ch l :
  is_nl ch = false -> ends_with_nl (String ch l) = ends_with_nl l.
Proof. intros H. destruct l; simpl; [exact H | reflexivity]. Qed.

Lemma read_line_short k :
  forall input,
    (String.length (fst (read_line k input)) < k)%nat ->
    ends_with_nl (fst (read_line k input)) = false ->
    snd (read_line k input) = "".
Proof.
  induction k as [| k IH]; intros input; simpl; [lia |].
  destruct input as [| ch rest]; [reflexivity |].
  destruct (is_nl ch) eqn:Hch.
  - simpl. rewrite Hch. discriminate.
  - specialize (IH rest). destruct (read_line k rest) as [l r].
    cbn [fst snd] in *. rewrite (ends_with_nl_cons _ _ Hch).
    intros Hlen. apply IH. simpl in Hlen. lia.
Qed.

Lemma read_line_empty k input :
  fst (read_line (S k) input) = "" -> input = "".
Proof.
  simpl. destruct input as [| ch rest]; [reflexivity |].
  destruct (is_nl ch); [discriminate |].
  destruct (read_line k rest); discriminate.
Qed.

Lemma no_nul_app a b : no_nul (a ++ b) = no_nul a && no_nul b.
Proof.
  induction a as [| ch a IH]; simpl; [reflexivity |].
  rewrite IH, andb_assoc. reflexivity.
Qed.

Lemma c_str_no_nul s : no_nul s = true -> c_str s = s.
Proof.
  induction s as [| ch s IH]; simpl; [reflexivity |].
  intros H. apply andb_true_iff in H as [H1 H2].
  apply negb_true_iff in H1. rewrite H1, (IH H2). reflexivity.
Qed.

Lemma commented_chunk k :
  forall input,
    commented false input =
    fst (read_line k input) ++
    commented (ends_with_nl (fst (read_line k input))) (snd (read_line k input)).
Proof.
  induction k as [| k IH]; intros input; [reflexivity |].
  cbn [read_line]. destruct input as [| ch rest]; [reflexivity |].
  destruct (is_nl ch) eqn:Hch.
  - cbn [fst snd commented ends_with_nl]. rewrite Hch. reflexivity.
  - specialize (IH rest). destruct (read_line k rest) as [l r].
    cbn [fst snd] in *. rewrite (ends_with_nl_cons _ _ Hch).
    cbn [commented]. rewrite Hch, IH. reflexivity.
Qed.

Lemma tail_len_chunk k :
  forall input col,
    tail_len col input =
    tail_len (if ends_with_nl (fst (read_line k input)) then O
              else (col + String.length (fst (read_line k input)))%nat)
             (snd (read_line k input)).
Proof.
  induction k as [| k IH]; intros input col.
  - simpl. rewrite Nat.add_0_r. reflexivity.
  - cbn [read_line]. destruct input as [| ch rest].
    + simpl. rewrite Nat.add_0_r. reflexivity.
    + destruct (is_nl ch) eqn:Hch.
      * cbn [fst snd tail_len ends_with_nl]. rewrite Hch. reflexivity.
      * specialize (IH rest (S col)). destruct (read_line k rest) as [l r].
        cbn [fst snd] in *. rewrite (ends_with_nl_cons _ _ Hch).
        cbn [tail_len]. rewrite Hch, IH. cbn [String.length].
        rewrite Nat.add_succ_r. reflexivity.
Qed.

Lemma diag_loop_commented fuel :
  forall input col,
    (String.length input < fuel)%nat ->
    no_nul input = true ->
    (col mod (BUFLEN - 1) = 0)%nat ->
    diag_loop fuel input (col =? 0)%nat ++
      (if fills_buffers (tail_len col input) then nl else "") =
    commented (col =? 0)%nat input.
Proof.
  induction fuel as [| fuel IH]; intros input col Hfuel Hnul Hcol; [lia |].
  cbn [diag_loop]. unfold fgets.
  pose proof (read_line_split (BUFLEN - 1) input) as Hsplit.
  pose proof (read_line_length (BUFLEN - 1) input) as Hlen.
  pose proof (read_line_short (BUFLEN - 1) input) as Hshort.
  pose proof (commented_chunk (BUFLEN - 1) input) as Hcomm.
  pose proof (tail_len_chunk (BUFLEN - 1) input col) as Htail.
  pose proof (read_line_empty (BUFLEN - 2) input) as Hempty.
  change (S (BUFLEN - 2)) with (BUFLEN - 1)%nat in Hempty.
  destruct (read_line (BUFLEN - 1) input) as [buf rest].
  cbn [fst snd] in *.
  destruct buf as [| b0 buf'].
  - rewrite (Hempty eq_refl). cbn [tail_len commented String.append].
    unfold fills_buffers.
    destruct col as [| col]; [reflexivity |].
    cbn [Nat.eqb Nat.ltb Nat.leb andb]. rewrite Hcol. reflexivity.
  - set (buf := String b0 buf') in *.
    assert (Hin : input <> "") by (rewrite <- Hsplit; discriminate).
    rewrite <- Hsplit in Hnul, Hfuel. rewrite no_nul_app in Hnul.
    apply andb_true_iff in Hnul as [Hnb Hnr].
    rewrite string_app_length in Hfuel.
    assert (Hpos : (0 < String.length buf)%nat) by (simpl; lia).
    rewrite (c_str_no_nul buf Hnb).
    assert (Hpre : commented (col =? 0)%nat input =
                   (if (col =? 0)%nat then "#: " else "") ++
                   commented false input).
    { destruct (col =? 0)%nat; [| reflexivity].
      destruct input as [| ch r]; [congruence | reflexivity]. }
    rewrite Hpre, Hcomm, !string_app_assoc. f_equal. f_equal.
    rewrite Htail. clear Hpre Hcomm Htail Hsplit Hempty.
    destruct (ends_with_nl buf) eqn:Hnl.
    + apply (IH rest O); [lia | exact Hnr | reflexivity].
    + destruct (String.length buf <? BUFLEN - 1)%nat eqn:Hlt.
      * apply Nat.ltb_lt in Hlt. rewrite (Hshort Hlt eq_refl).
        cbn [tail_len commented].
        assert (Hfb : fills_buffers (col + String.length buf) = false).
        { unfold fills_buffers. apply andb_false_iff. right.
          apply Nat.eqb_neq.
          rewrite <- Nat.Div0.add_mod_idemp_l, Hcol, Nat.add_0_l.
          rewrite Nat.mod_small by exact Hlt. lia. }
        rewrite Hfb. destruct fuel; reflexivity.
      * apply Nat.ltb_ge in Hlt.
        assert (Hfull : String.length buf = (BUFLEN - 1)%nat) by lia.
        assert (Hz : ((col + String.length buf) =? 0)%nat = false)
          by (apply Nat.eqb_neq; lia).
        rewrite <- Hz.
        apply (IH rest (col + String.length buf)%nat); [lia | exact Hnr |].
        rewrite Hfull, <- Nat.Div0.add_mod_idemp_r, Nat.Div0.mod_same.
        rewrite Nat.add_0_r. exact Hcol.
Qed.

(** X12. The diagnostics loop on text.  For a capture without NUL bytes the
    replay is the capture with "#: " in front of every line and a newline
    after an unfinished last line, however long the lines are: a line longer
    than the buffer is read in pieces and printed as one line.  The single
    exception is an unfinished last line whose length is a positive multiple
    of BUFLEN - 1: there, and only there, the final newline is missing. *)
Theorem diagnostics_comment_the_capture capture :
  no_nul capture = true ->
  diagnostics capture ++
    (if fills_buffers (tail_len 0 capture) then nl else "") =
  commented true capture.
Proof.
  intros Hnul. unfold diagnostics.
  apply (diag_loop_commented (S (String.length capture)) capture O);
    [lia | exact Hnul | reflexivity].
Qed.

Lemma diagnostics_comment_the_capture_witness :
  let capture := "in-test cleaning:" ++ nl ++ "CLEANER CALLED" ++ nl ++
                 "lol: lol.c:32: Assertion failed" in
  no_nul capture = true /\
  diagnostics capture ++
    (if fills_buffers (tail_len 0 capture) then nl else "") =
  "#: in-test cleaning:" ++ nl ++ "#: CLEANER CALLED" ++ nl ++
  "#: lol: lol.c:32: Assertion failed" ++ nl.
Proof.
  intros capture.
  assert (Hnul : no_nul capture = true) by (vm_compute; reflexivity).
  split; [exact Hnul |].
  exact (diagnostics_comment_the_capture capture Hnul).
Defined.

Close Scope string_scope.

(** ** lol.c: the diagnostics loop on a line with a NUL byte *)

Open Scope string_scope.

Lemma diag_loop_fuel fuel1 :
  forall fuel2 input fresh,
    (String.length input < fuel1)%nat -> (String.length input < fuel2)%nat ->
    diag_loop fuel1 input fresh = diag_loop fuel2 input fresh.
Proof.
  induction fuel1 as [| fuel1 IH]; intros fuel2 input fresh H1 H2; [lia |].
  destruct fuel2 as [| fuel2]; [lia |].
  cbn [diag_loop]. unfold fgets.
  pose proof (read_line_split (BUFLEN - 1) input) as Hsplit.
  destruct (read_line (BUFLEN - 1) input) as [buf rest].
  cbn [fst snd] in Hsplit.
  destruct buf as [| b0 buf']; [reflexivity |].
  assert (Hlen : (String.length rest < String.length input)%nat).
  { rewrite <- Hsplit, string_app_length. simpl. lia. }
  rewrite !(IH fuel2 rest) by lia. reflexivity.
Qed.

Lemma read_line_whole_line k :
  forall line rest,
    no_nl line = true -> (String.length line < k)%nat ->
    read_line k (line ++ nl ++ rest) = (line ++ nl, rest).
Proof.
  induction k as [| k IH]; intros line rest Hnl Hlen; [lia |].
  destruct line as [| ch line].
  - reflexivity.
  - cbn [no_nl] in Hnl. apply andb_true_iff in Hnl as [Hch Hnl].
    apply negb_true_iff in Hch.
    change ((String ch line) ++ nl ++ rest)
      with (String ch (line ++ nl ++ rest)).
    cbn [read_line]. rewrite Hch, (IH line rest Hnl) by (simpl in Hlen; lia).
    reflexivity.
Qed.

Lemma c_str_stops_at_nul pre post :
  no_nul pre = true -> c_str (pre ++ String "000" post) = pre.
Proof.
  induction pre as [| ch pre IH]; intros H; [reflexivity |].
  cbn [no_nul] in H. apply andb_true_iff in H as [Hch H].
  apply negb_true_iff in Hch.
  change ((String ch pre) ++ String "000" post)
    with (String ch (pre ++ String "000" post)).
  cbn [c_str]. rewrite Hch, (IH H). reflexivity.
Qed.

Lemma ends_with_nl_no_nl s : no_nl s = true -> ends_with_nl s = false.
Proof.
  induction s as [| ch s IH]; [reflexivity |].
  intros H. cbn [no_nl] in H. apply andb_true_iff in H as [Hch H].
  apply negb_true_iff in Hch.
  rewrite (ends_with_nl_cons _ _ Hch). exact (IH H).
Qed.

Lemma no_nl_app a b : no_nl (a ++ b) = no_nl a && no_nl b.
Proof.
  induction a as [| ch a IH]; simpl; [reflexivity |].
  rewrite IH, andb_assoc. reflexivity.
Qed.

(** X13. A NUL byte in the capture cuts its line short.  For a line that
    fits the buffer and holds a NUL, the loop prints the bytes before the
    NUL and a newline of its own; the bytes from the NUL to the end of the
    line are dropped, and the replay goes on with the next line. *)
Theorem nul_cuts_the_line pre post rest :
  no_nul pre = true -> no_nl pre = true -> no_nl post = true ->
  (String.length pre + String.length post + 2 <= BUFLEN - 1)%nat ->
  diagnostics (pre ++ String "000" post ++ nl ++ rest) =
  "#: " ++ pre ++ nl ++ diagnostics rest.
Proof.
  intros Hnul Hpre Hpost Hlen.
  unfold diagnostics at 1. cbn [diag_loop]. unfold fgets.
  assert (Hline : no_nl (pre ++ String "000" post) = true).
  { rewrite no_nl_app, Hpre. cbn [no_nl andb]. rewrite Hpost. reflexivity. }
  assert (Hll : (String.length (pre ++ String "000" post) < BUFLEN - 1)%nat).
  { rewrite string_app_length. cbn [String.length]. lia. }
  replace (pre ++ String "000" post ++ nl ++ rest)
    with ((pre ++ String "000" post) ++ nl ++ rest)
    by (rewrite string_app_assoc; reflexivity).
  rewrite (read_line_whole_line _ _ rest Hline Hll).
  assert (Hne : exists b0 b, (pre ++ String "000" post) ++ nl = String b0 b).
  { destruct pre; simpl; eauto. }
  destruct Hne as (b0 & b & Hb). rewrite Hb, <- Hb. clear Hb.
  rewrite string_app_assoc.
  change (String "000" post ++ nl) with (String "000" (post ++ nl)).
  rewrite (c_str_stops_at_nul pre _ Hnul), (ends_with_nl_no_nl pre Hpre).
  assert (Hshort : (String.length pre <? BUFLEN - 1)%nat = true)
    by (apply Nat.ltb_lt; lia).
  rewrite Hshort. unfold diagnostics.
  rewrite (diag_loop_fuel _ (S (String.length rest)) rest true).
  - reflexivity.
  - rewrite !string_app_length. cbn [String.length]. lia.
  - lia.
Qed.

Lemma nul_cuts_the_line_witness :
  let pre := "partial" in
  let post := " rest of the line" in
  let rest := "next" ++ nl in
  no_nul pre = true /\ no_nl pre = true /\ no_nl post = true /\
  (String.length pre + String.length post + 2 <= BUFLEN - 1)%nat /\
  diagnostics (pre ++ String "000" post ++ nl ++ rest) =
  "#: partial" ++ nl ++ "#: next" ++ nl.
Proof.
  intros pre post rest.
  assert (H1 : no_nul pre = true) by reflexivity.
  assert (H2 : no_nl pre = true) by reflexivity.
  assert (H3 : no_nl post = true) by reflexivity.
  assert (H4 : (String.length pre + String.length post + 2 <= BUFLEN - 1)%nat)
    by (vm_compute; lia).
  splits; [exact H1 | exact H2 | exact H3 | exact H4 |].
  rewrite (nul_cuts_the_line pre post rest H1 H2 H3 H4).
  vm_compute. reflexivity.
Defined.

(** ** lol.c: every block reports its test *)

Lemma no_nl_uint d : no_nl (NilEmpty.string_of_uint d) = true.
Proof. induction d; simpl; auto. Qed.

Lemma no_nl_dec n : no_nl (dec n) = true.
Proof.
  assert (H : forall d, no_nl (NilZero.string_of_uint d) = true).
  { intros d. destruct d; try reflexivity;
      match goal with
      | |- no_nl (NilZero.string_of_uint ?x) = true => exact (no_nl_uint x)
      end. }
  unfold dec, NilZero.string_of_int.
  destruct (Z.to_int n) as [d | d]; [apply H |].
  cbn [no_nl]. rewrite H. reflexivity.
Qed.

(** X14. Whatever the system answers, a block of [main] that is not the
    forked child prints one result line and after it only diagnostics.  The
    line is "ok", number and name exactly when mkstemp and fork succeeded
    and the child exited with status 0, and nothing follows it; otherwise it
    is "not ok", number, name and a reason in parentheses that holds no
    newline.  With a name that holds no newline the line holds none, so the
    block's output has exactly one line that is not a diagnostic.  When
    mkstemp or fork fails there are no diagnostics. *)
Theorem test_block_reports_once W i display env :
  fork_pid env <> 0%Z ->
  let passed :=
    mkstemp_fd env <> (-1)%Z /\ (0 < fork_pid env)%Z /\
    WIFEXITED W (wait_status env) = true /\
    WEXITSTATUS W (wait_status env) = 0%Z in
  exists verdict note diags,
    test_block W i display env =
      (verdict ++ dec i ++ " - " ++ display ++ note) ++ nl ++ diags /\
    (passed /\ verdict = "ok " /\ note = "" /\ diags = "" \/
     ~ passed /\ verdict = "not ok " /\
     exists reason, note = " (" ++ reason ++ ")" /\ reason <> "" /\
                    no_nl reason = true) /\
    (no_nl display = true ->
     no_nl (verdict ++ dec i ++ " - " ++ display ++ note) = true) /\
    only_diag_lines true diags = true /\
    (mkstemp_fd env = (-1)%Z \/ (fork_pid env < 0)%Z -> diags = "").
Proof.
  intros Hpid passed.
  assert (Hline : forall verdict note,
            no_nl verdict = true -> no_nl note = true ->
            no_nl display = true ->
            no_nl (verdict ++ dec i ++ " - " ++ display ++ note) = true).
  { intros verdict note Hv Hn Hd.
    rewrite !no_nl_app, Hv, Hn, Hd, no_nl_dec. reflexivity. }
  assert (Hfail : forall reason diags,
            ~ passed -> reason <> "" -> no_nl reason = true ->
            only_diag_lines true diags = true ->
            (mkstemp_fd env = (-1)%Z \/ (fork_pid env < 0)%Z -> diags = "") ->
            test_block W i display env =
              ("not ok " ++ dec i ++ " - " ++ display ++
                 " (" ++ reason ++ ")") ++ nl ++ diags ->
            exists verdict note diags0,
              test_block W i display env =
                (verdict ++ dec i ++ " - " ++ display ++ note) ++ nl ++ diags0 /\
              (passed /\ verdict = "ok " /\ note = "" /\ diags0 = "" \/
               ~ passed /\ verdict = "not ok " /\
               exists reason0, note = " (" ++ reason0 ++ ")" /\
                               reason0 <> "" /\ no_nl reason0 = true) /\
              (no_nl display = true ->
               no_nl (verdict ++ dec i ++ " - " ++ display ++ note) = true) /\
              only_diag_lines true diags0 = true /\
              (mkstemp_fd env = (-1)%Z \/ (fork_pid env < 0)%Z -> diags0 = "")).
  { intros reason diags Hnp Hne Hnl Hdiag Hnone Heq.
    exists "not ok ", (" (" ++ reason ++ ")"), diags.
    splits; auto.
    - right. splits; auto. exists reason. auto.
    - apply Hline; [reflexivity |].
      rewrite !no_nl_app, Hnl. reflexivity. }
  unfold test_block in *.
  destruct (Z.eqb_spec (mkstemp_fd env) (-1)) as [Hfd | Hfd].
  { apply (Hfail "tmpfile creation failed" "").
    - intros (H & _). exact (H Hfd).
    - discriminate.
    - reflexivity.
    - reflexivity.
    - reflexivity.
    - rewrite !string_app_assoc. reflexivity. }
  apply Z.eqb_neq in Hpid. rewrite Hpid in *. apply Z.eqb_neq in Hpid.
  destruct (Z.ltb_spec 0 (fork_pid env)) as [Hpos | Hneg].
  2:{ apply (Hfail "fork failed" "").
      - intros (_ & H & _). lia.
      - discriminate.
      - reflexivity.
      - reflexivity.
      - reflexivity.
      - rewrite !string_app_assoc. reflexivity. }
  assert (Hnone : mkstemp_fd env = (-1)%Z \/ (fork_pid env < 0)%Z ->
                  replay env = "") by lia.
  unfold parent_block, failure_line in *.
  destruct (WIFEXITED W (wait_status env)) eqn:Hex.
  - destruct (Z.eqb_spec (WEXITSTATUS W (wait_status env)) 0) as [Hz | Hz];
      cbn [andb] in *.
    + exists "ok ", "", "". splits; auto.
      * rewrite !string_app_assoc. reflexivity.
      * left. unfold passed. splits; auto.
    + apply (Hfail ("exit code: " ++ dec (WEXITSTATUS W (wait_status env)))
                   (replay env)); auto.
      * intros (_ & _ & _ & H). exact (Hz H).
      * discriminate.
      * rewrite no_nl_app, no_nl_dec. reflexivity.
      * apply replay_only_diag.
      * rewrite !string_app_assoc. reflexivity.
  - cbn [andb] in *. destruct (WIFSIGNALED W (wait_status env)).
    + destruct (WTERMSIG W (wait_status env) =? SIGALRM W)%Z.
      * apply (Hfail "timeout after 10s" (replay env)); auto.
        -- intros (_ & _ & H & _). discriminate.
        -- discriminate.
        -- apply replay_only_diag.
        -- rewrite !string_app_assoc. reflexivity.
      * apply (Hfail ("killed by signal " ++ dec (WTERMSIG W (wait_status env)))
                     (replay env)); auto.
        -- intros (_ & _ & H & _). discriminate.
        -- discriminate.
        -- rewrite no_nl_app, no_nl_dec. reflexivity.
        -- apply replay_only_diag.
        -- rewrite !string_app_assoc. reflexivity.
    + apply (Hfail "unknown failure" (replay env)); auto.
      * intros (_ & _ & H & _). discriminate.
      * discriminate.
      * apply replay_only_diag.
      * rewrite !string_app_assoc. reflexivity.
Qed.

Lemma test_block_reports_once_witness :
  let env := mkEnv 3 4711 (6 + 128) true ("boom" ++ nl) in
  fork_pid env <> 0%Z /\
  exists verdict note diags,
    test_block linux 3 "test_segfault()" env =
      (verdict ++ dec 3 ++ " - " ++ "test_segfault()" ++ note) ++ nl ++ diags /\
    no_nl (verdict ++ dec 3 ++ " - " ++ "test_segfault()" ++ note) = true /\
    only_diag_lines true diags = true.
Proof.
  intros env.
  assert (Hpid : fork_pid env <> 0%Z) by discriminate.
  split; [exact Hpid |].
  destruct (test_block_reports_once linux 3 "test_segfault()" env Hpid)
    as (verdict & note & diags & Heq & _ & Hline & Hdiag & _).
  exists verdict, note, diags.
  splits; [exact Heq | apply Hline; reflexivity | exact Hdiag].
Defined.

Close Scope string_scope.
